(** * secure-tempmail: ingestion, encryption at rest and TTL lifecycle

    A shallow embedding of the mail-ingestion core of the repository
    (app/smtp/handler.py, app/smtp/processor.py, app/services/*.py,
    app/core/security.py, app/workers/ttl_cleanup.py) together with the
    statements of its specification.

    Conventions.  A Python [bytes] value is a list of numbers below 256, a
    Python [str] is the list of its code points; both are [list N].  Names
    that the program only ever compares or concatenates (addresses, Redis
    keys, header names, identifiers) are [string].  A call that can raise
    returns a [Result]. *)

From Stdlib Require Import NArith ZArith Lia List String Ascii Bool DecimalString.
From Stdlib Require DecimalZ DecimalPos.
From stdpp Require Import base option list strings gmap.

Local Set Warnings "-register-all".

Local Open Scope N_scope.

(** ** Exceptions *)

Inductive exn : Type :=
| ValueError (msg : string)
| AttributeError
| LookupError
| EncryptionException (msg : string)
| InboxNotFoundException (inbox_id : string)
| QuotaExceededException
| IntegrityError
| ConnectionError
| TypeError
| IndexError
| ValidationError
| InvalidRequestError.

Inductive Result (A : Type) : Type :=
| Ok (a : A)
| Raise (e : exn).
Arguments Ok {A} a.
Arguments Raise {A} e.

Definition rbind {A B} (r : Result A) (k : A -> Result B) : Result B :=
  match r with
  | Ok a => k a
  | Raise e => Raise e
  end.

(** [try: r except Exception: h] *)
Definition try_except {A} (r : Result A) (h : exn -> Result A) : Result A :=
  match r with
  | Ok a => Ok a
  | Raise e => h e
  end.

Definition returns {A} (r : Result A) : bool :=
  match r with Ok _ => true | Raise _ => false end.

(** ** UTF-8, as [str.encode('utf-8')] and [bytes.decode('utf-8', errors)] *)

Module Utf8.

Definition REPLACEMENT : N := 0xFFFD.

Definition is_surrogate (c : N) : bool := (0xD800 <=? c) && (c <=? 0xDFFF).

Definition encode_char (c : N) : option (list N) :=
  if c <? 0x80 then Some [c]
  else if c <? 0x800 then Some [0xC0 + c / 64; 0x80 + c mod 64]
  else if c <? 0x10000 then
    if is_surrogate c then None
    else Some [0xE0 + c / 4096; 0x80 + (c / 64) mod 64; 0x80 + c mod 64]
  else if c <? 0x110000 then
    Some [0xF0 + c / 262144; 0x80 + (c / 4096) mod 64;
          0x80 + (c / 64) mod 64; 0x80 + c mod 64]
  else None.

(** [s.encode('utf-8')]; [None] is UnicodeEncodeError (a lone surrogate). *)
Fixpoint encode (s : list N) : option (list N) :=
  match s with
  | [] => Some []
  | c :: r =>
    match encode_char c, encode r with
    | Some a, Some b => Some (a ++ b)
    | _, _ => None
    end
  end.

Definition is_cont (b : N) : bool := (0x80 <=? b) && (b <=? 0xBF).

(** The second byte of a sequence has a range that depends on the first
    (no overlong forms, no surrogates, nothing above U+10FFFF). *)
Definition second_ok (b0 b1 : N) : bool :=
  if b0 =? 0xE0 then (0xA0 <=? b1) && (b1 <=? 0xBF)
  else if b0 =? 0xED then (0x80 <=? b1) && (b1 <=? 0x9F)
  else if b0 =? 0xF0 then (0x90 <=? b1) && (b1 <=? 0xBF)
  else if b0 =? 0xF4 then (0x80 <=? b1) && (b1 <=? 0x8F)
  else is_cont b1.

(** [b.decode('utf-8', errors)] with [errors='replace'] when [replace] is
    true and [errors='strict'] otherwise.  An ill-formed sequence is
    UnicodeDecodeError in strict mode ([None]); in replace mode its
    maximal ill-formed prefix becomes one U+FFFD and decoding resumes
    right after that prefix. *)
Fixpoint decode (replace : bool) (l : list N) : option (list N) :=
  let bad (rest : option (list N)) :=
    if replace then cons REPLACEMENT <$> rest else None in
  match l with
  | [] => Some []
  | b0 :: t =>
    if b0 <? 0x80 then cons b0 <$> decode replace t
    else if (b0 <? 0xC2) || (0xF4 <? b0) then bad (decode replace t)
    else
      match t with
      | [] => bad (Some [])
      | b1 :: t1 =>
        if negb (second_ok b0 b1) then bad (decode replace t)
        else if b0 <? 0xE0 then
          cons ((b0 - 0xC0) * 64 + (b1 - 0x80)) <$> decode replace t1
        else
          match t1 with
          | [] => bad (Some [])
          | b2 :: t2 =>
            if negb (is_cont b2) then bad (decode replace t1)
            else if b0 <? 0xF0 then
              cons ((b0 - 0xE0) * 4096 + (b1 - 0x80) * 64 + (b2 - 0x80))
                <$> decode replace t2
            else
              match t2 with
              | [] => bad (Some [])
              | b3 :: t3 =>
                if negb (is_cont b3) then bad (decode replace t2)
                else
                  cons ((b0 - 0xF0) * 262144 + (b1 - 0x80) * 4096
                        + (b2 - 0x80) * 64 + (b3 - 0x80))
                    <$> decode replace t3
              end
          end
      end
  end.

Definition decode_strict : list N -> option (list N) := decode false.

(** [errors='replace'] never raises; the default is unreachable
    (see [decode_replace_total]). *)
Definition decode_replace (l : list N) : list N :=
  default [] (decode true l).

Definition valid (l : list N) : bool := bool_decide (is_Some (decode_strict l)).

(** The decoding succeeded and its result can be encoded again. *)
Definition encodable (o : option (list N)) : Prop :=
  exists s e, o = Some s /\ encode s = Some e.

Example decode_ascii : decode_strict [0x68; 0x69] = Some [0x68; 0x69].
Proof. reflexivity. Qed.

Example decode_euro : decode_strict [0xE2; 0x82; 0xAC] = Some [0x20AC].
Proof. reflexivity. Qed.

Example decode_replace_bad_start : decode_replace [0x61; 0xFF; 0x62] = [0x61; 0xFFFD; 0x62].
Proof. reflexivity. Qed.

Example decode_replace_truncated : decode_replace [0xE2; 0x82] = [0xFFFD].
Proof. reflexivity. Qed.

Example decode_replace_bad_cont : decode_replace [0xE2; 0x82; 0x41] = [0xFFFD; 0x41].
Proof. reflexivity. Qed.

Example decode_overlong_rejected : decode_strict [0xC0; 0x80] = None.
Proof. reflexivity. Qed.

Example encode_surrogate_fails : encode [0xD800] = None.
Proof. reflexivity. Qed.

Ltac nia_div := zify; Z.to_euclidean_division_equations; lia.

(** Settle each comparison in the goal by arithmetic, splitting only when
    neither outcome is forced. *)
Ltac nresolve :=
  repeat match goal with
  | |- context [N.ltb ?a ?b] =>
    first [ rewrite (proj2 (N.ltb_lt a b)) by lia
          | rewrite (proj2 (N.ltb_ge a b)) by lia
          | destruct (N.ltb_spec a b) ]
  | |- context [N.leb ?a ?b] =>
    first [ rewrite (proj2 (N.leb_le a b)) by lia
          | rewrite (proj2 (N.leb_gt a b)) by lia
          | destruct (N.leb_spec a b) ]
  | |- context [N.eqb ?a ?b] =>
    first [ rewrite (proj2 (N.eqb_eq a b)) by lia
          | rewrite (proj2 (N.eqb_neq a b)) by lia
          | destruct (N.eqb_spec a b) ]
  end.

(** A code point split into its six-bit groups. *)
Lemma split2 (c : N) : c = (c / 64) * 64 + c mod 64 /\ c mod 64 < 64.
Proof. nia_div. Qed.

Lemma split3 (c : N) :
  c = (c / 4096) * 4096 + ((c / 64) mod 64) * 64 + c mod 64 /\
  (c / 64) mod 64 < 64 /\ c mod 64 < 64.
Proof. nia_div. Qed.

Lemma split4 (c : N) :
  c = (c / 262144) * 262144 + ((c / 4096) mod 64) * 4096
      + ((c / 64) mod 64) * 64 + c mod 64 /\
  (c / 4096) mod 64 < 64 /\ (c / 64) mod 64 < 64 /\ c mod 64 < 64.
Proof. nia_div. Qed.

(** One encoded character decodes to itself, in either error mode. *)
Lemma decode_encode_char (r : bool) (c : N) (bs rest : list N) :
  encode_char c = Some bs ->
  decode r (bs ++ rest) = cons c <$> decode r rest.
Proof.
  unfold encode_char, is_surrogate. intros H.
  destruct (N.ltb_spec c 0x80).
  { inversion H; subst; clear H. cbn [app decode]. nresolve. reflexivity. }
  destruct (N.ltb_spec c 0x800).
  { inversion H; subst; clear H. cbn [app decode].
    destruct (split2 c) as (Hc & Hl).
    set (q := c / 64) in *. set (l := c mod 64) in *. clearbody q l.
    unfold second_ok, is_cont. nresolve; cbn [negb orb andb];
    f_equal; f_equal; lia. }
  destruct (N.ltb_spec c 0x10000).
  { destruct (split3 c) as (Hc & Hm & Hl).
    set (q := c / 4096) in *. set (m := (c / 64) mod 64) in *.
    set (l := c mod 64) in *. clearbody q m l.
    destruct (N.leb_spec 0xD800 c); destruct (N.leb_spec c 0xDFFF);
      cbn [andb] in H; try discriminate;
      inversion H; subst bs; clear H; cbn [app decode];
      unfold second_ok, is_cont; nresolve; cbn [negb orb andb];
      f_equal; f_equal; lia. }
  destruct (N.ltb_spec c 0x110000); [|discriminate].
  destruct (split4 c) as (Hc & Hk & Hm & Hl).
  set (q := c / 262144) in *. set (k := (c / 4096) mod 64) in *.
  set (m := (c / 64) mod 64) in *. set (l := c mod 64) in *. clearbody q k m l.
  inversion H; subst bs; clear H. cbn [app decode].
  unfold second_ok, is_cont. nresolve; cbn [negb orb andb]; f_equal; f_equal; lia.
Qed.

Lemma decode_encode (r : bool) (s bs : list N) :
  encode s = Some bs -> decode r bs = Some s.
Proof.
  revert bs. induction s as [|c s IH]; intros bs H.
  - inversion H. reflexivity.
  - cbn [encode] in H.
    destruct (encode_char c) as [a|] eqn:Ec; [|discriminate].
    destruct (encode s) as [b|] eqn:Es; [|discriminate].
    inversion H; subst. rewrite (decode_encode_char r c a b Ec).
    rewrite (IH b eq_refl). reflexivity.
Qed.

Lemma join2 (x y : N) :
  y < 64 -> (x * 64 + y) / 64 = x /\ (x * 64 + y) mod 64 = y.
Proof. intros. nia_div. Qed.

Lemma join3 (x y z : N) :
  y < 64 -> z < 64 ->
  (x * 4096 + y * 64 + z) / 4096 = x /\
  ((x * 4096 + y * 64 + z) / 64) mod 64 = y /\
  (x * 4096 + y * 64 + z) mod 64 = z.
Proof. intros. nia_div. Qed.

Lemma join4 (w x y z : N) :
  x < 64 -> y < 64 -> z < 64 ->
  (w * 262144 + x * 4096 + y * 64 + z) / 262144 = w /\
  ((w * 262144 + x * 4096 + y * 64 + z) / 4096) mod 64 = x /\
  ((w * 262144 + x * 4096 + y * 64 + z) / 64) mod 64 = y /\
  (w * 262144 + x * 4096 + y * 64 + z) mod 64 = z.
Proof. intros. nia_div. Qed.

Lemma is_cont_spec (b : N) : is_cont b = true <-> 0x80 <= b <= 0xBF.
Proof. unfold is_cont. rewrite andb_true_iff, !N.leb_le. tauto. Qed.

Lemma second_ok_spec (b0 b1 : N) :
  second_ok b0 b1 = true <->
  0x80 <= b1 <= 0xBF /\ (b0 = 0xE0 -> 0xA0 <= b1) /\ (b0 = 0xED -> b1 <= 0x9F) /\
  (b0 = 0xF0 -> 0x90 <= b1) /\ (b0 = 0xF4 -> b1 <= 0x8F).
Proof.
  unfold second_ok, is_cont.
  repeat match goal with
  | |- context [N.eqb ?a ?b] => destruct (N.eqb_spec a b); [subst|]
  end; rewrite andb_true_iff, !N.leb_le; lia.
Qed.

(** The bytes of a well-formed sequence are the encoding of the code point
    they decode to. *)
Lemma encode_char_2 (b0 b1 : N) :
  0xC2 <= b0 < 0xE0 -> second_ok b0 b1 = true ->
  encode_char ((b0 - 0xC0) * 64 + (b1 - 0x80)) = Some [b0; b1].
Proof.
  intros H0 H1. apply second_ok_spec in H1.
  destruct (join2 (b0 - 0xC0) (b1 - 0x80)) as (Hq & Hl); [lia|].
  unfold encode_char. rewrite Hq, Hl.
  set (c := (b0 - 0xC0) * 64 + (b1 - 0x80)).
  assert (0x80 <= c < 0x800) by (unfold c; lia). clearbody c.
  nresolve. repeat f_equal; lia.
Qed.

Lemma encode_char_3 (b0 b1 b2 : N) :
  0xE0 <= b0 < 0xF0 -> second_ok b0 b1 = true -> is_cont b2 = true ->
  encode_char ((b0 - 0xE0) * 4096 + (b1 - 0x80) * 64 + (b2 - 0x80))
  = Some [b0; b1; b2].
Proof.
  intros H0 H1 H2. apply second_ok_spec in H1. apply is_cont_spec in H2.
  destruct (join3 (b0 - 0xE0) (b1 - 0x80) (b2 - 0x80)) as (Hq & Hm & Hl); [lia..|].
  unfold encode_char, is_surrogate. rewrite Hq, Hm, Hl.
  set (c := (b0 - 0xE0) * 4096 + (b1 - 0x80) * 64 + (b2 - 0x80)).
  assert (0x800 <= c < 0x10000 /\ (0xD800 <= c <= 0xDFFF -> False))
    by (unfold c; lia).
  clearbody c.
  nresolve; cbn [andb]; try (exfalso; lia); repeat f_equal; lia.
Qed.

Lemma encode_char_4 (b0 b1 b2 b3 : N) :
  0xF0 <= b0 <= 0xF4 -> second_ok b0 b1 = true ->
  is_cont b2 = true -> is_cont b3 = true ->
  encode_char ((b0 - 0xF0) * 262144 + (b1 - 0x80) * 4096
               + (b2 - 0x80) * 64 + (b3 - 0x80))
  = Some [b0; b1; b2; b3].
Proof.
  intros H0 H1 H2 H3. apply second_ok_spec in H1.
  apply is_cont_spec in H2. apply is_cont_spec in H3.
  destruct (join4 (b0 - 0xF0) (b1 - 0x80) (b2 - 0x80) (b3 - 0x80))
    as (Hq & Hk & Hm & Hl); [lia..|].
  unfold encode_char. rewrite Hq, Hk, Hm, Hl.
  set (c := (b0 - 0xF0) * 262144 + (b1 - 0x80) * 4096
            + (b2 - 0x80) * 64 + (b3 - 0x80)).
  assert (0x10000 <= c < 0x110000).
  { unfold c. destruct (N.eq_dec b0 0xF0), (N.eq_dec b0 0xF4); lia. }
  clearbody c.
  nresolve. repeat f_equal; lia.
Qed.

Lemma fmap_cons_Some {A} (c : A) (o : option (list A)) (s : list A) :
  cons c <$> o = Some s -> exists s', o = Some s' /\ s = c :: s'.
Proof. destruct o; simpl; intros H; inversion H; eauto. Qed.

Lemma decode_strict_sound_aux (n : nat) : forall raw s,
  (length raw <= n)%nat -> decode false raw = Some s ->
  encode s = Some raw /\ decode true raw = Some s.
Proof.
  induction n as [|n IH]; intros raw s Hlen H.
  { destruct raw; [inversion H; done | simpl in Hlen; lia]. }
  destruct raw as [|b0 t]; [inversion H; done|].
  cbn [decode] in H |- *. cbn [length] in Hlen.
  destruct (N.ltb_spec b0 0x80) as [L0|L0].
  { apply fmap_cons_Some in H as (s' & Hd & ->).
    destruct (IH t s' ltac:(lia) Hd) as [He Hr].
    cbn [encode]. unfold encode_char. rewrite (proj2 (N.ltb_lt _ _) L0), He, Hr. done. }
  destruct ((b0 <? 0xC2) || (0xF4 <? b0)) eqn:E1; [discriminate|].
  apply orb_false_iff in E1 as [E1 E2].
  apply N.ltb_ge in E1. apply N.ltb_ge in E2.
  destruct t as [|b1 t1]; [discriminate|].
  destruct (second_ok b0 b1) eqn:S1; cbn [negb] in *; [|discriminate].
  cbn [length] in Hlen.
  destruct (N.ltb_spec b0 0xE0) as [L1|L1].
  { apply fmap_cons_Some in H as (s' & Hd & ->).
    destruct (IH t1 s' ltac:(lia) Hd) as [He Hr].
    cbn [encode]. rewrite encode_char_2, He, Hr by (done || lia). done. }
  destruct t1 as [|b2 t2]; [discriminate|].
  destruct (is_cont b2) eqn:S2; cbn [negb] in *; [|discriminate].
  cbn [length] in Hlen.
  destruct (N.ltb_spec b0 0xF0) as [L2|L2].
  { apply fmap_cons_Some in H as (s' & Hd & ->).
    destruct (IH t2 s' ltac:(lia) Hd) as [He Hr].
    cbn [encode]. rewrite encode_char_3, He, Hr by (done || lia). done. }
  destruct t2 as [|b3 t3]; [discriminate|].
  destruct (is_cont b3) eqn:S3; cbn [negb] in *; [|discriminate].
  cbn [length] in Hlen.
  apply fmap_cons_Some in H as (s' & Hd & ->).
  destruct (IH t3 s' ltac:(lia) Hd) as [He Hr].
  cbn [encode]. rewrite encode_char_4, He, Hr by (done || lia). done.
Qed.


Lemma encodable_bad (o : option (list N)) :
  encodable o -> encodable (cons REPLACEMENT <$> o).
Proof.
  intros (s & e & -> & He). exists (REPLACEMENT :: s). eexists. split; [done|].
  cbn [encode]. rewrite He. reflexivity.
Qed.

Lemma encodable_cons (c : N) (bs : list N) (o : option (list N)) :
  encode_char c = Some bs -> encodable o -> encodable (cons c <$> o).
Proof.
  intros Hc (s & e & -> & He). exists (c :: s). eexists. split; [done|].
  cbn [encode]. rewrite Hc, He. reflexivity.
Qed.

Lemma encodable_nil : encodable (Some []).
Proof. exists [], []. done. Qed.

Lemma decode_replace_aux (n : nat) : forall raw,
  (length raw <= n)%nat -> encodable (decode true raw).
Proof.
  induction n as [|n IH]; intros raw Hlen.
  { destruct raw; [|simpl in Hlen; lia]. apply encodable_nil. }
  destruct raw as [|b0 t]; [apply encodable_nil|].
  cbn [decode]. cbn [length] in Hlen.
  destruct (N.ltb_spec b0 0x80) as [L0|L0].
  { apply (encodable_cons b0 [b0]); [|apply IH; lia].
    unfold encode_char. rewrite (proj2 (N.ltb_lt _ _) L0). done. }
  destruct ((b0 <? 0xC2) || (0xF4 <? b0)) eqn:E1.
  { apply encodable_bad, IH. lia. }
  apply orb_false_iff in E1 as [E1 E2].
  apply N.ltb_ge in E1. apply N.ltb_ge in E2.
  destruct t as [|b1 t1]; [apply encodable_bad, encodable_nil|].
  cbn [length] in Hlen.
  destruct (second_ok b0 b1) eqn:S1; cbn [negb].
  2:{ apply encodable_bad, IH. cbn [length]. lia. }
  destruct (N.ltb_spec b0 0xE0) as [L1|L1].
  { eapply encodable_cons; [apply encode_char_2; (done || lia)|apply IH; lia]. }
  destruct t1 as [|b2 t2]; [apply encodable_bad, encodable_nil|].
  cbn [length] in Hlen.
  destruct (is_cont b2) eqn:S2; cbn [negb].
  2:{ apply encodable_bad, IH. cbn [length]. lia. }
  destruct (N.ltb_spec b0 0xF0) as [L2|L2].
  { eapply encodable_cons; [apply encode_char_3; (done || lia)|apply IH; lia]. }
  destruct t2 as [|b3 t3]; [apply encodable_bad, encodable_nil|].
  cbn [length] in Hlen.
  destruct (is_cont b3) eqn:S3; cbn [negb].
  2:{ apply encodable_bad, IH. cbn [length]. lia. }
  eapply encodable_cons; [apply encode_char_4; (done || lia)|apply IH; lia].
Qed.

Lemma decode_strict_sound (raw s : list N) :
  decode_strict raw = Some s -> encode s = Some raw /\ decode true raw = Some s.
Proof. apply (decode_strict_sound_aux (length raw)). lia. Qed.

Lemma decode_replace_total (raw : list N) :
  exists e, decode true raw = Some (decode_replace raw) /\
            encode (decode_replace raw) = Some e.
Proof.
  destruct (decode_replace_aux (length raw) raw) as (s & e & Hs & He); [lia|].
  exists e. unfold decode_replace. rewrite Hs. done.
Qed.

(** Encoding the replace-mode decoding gives the bytes back exactly when
    the bytes were well-formed UTF-8. *)
Lemma encode_decode_replace_iff (raw : list N) :
  encode (decode_replace raw) = Some raw <-> valid raw = true.
Proof.
  unfold valid. rewrite bool_decide_eq_true. split.
  - intros H. exists (decode_replace raw). apply decode_encode, H.
  - intros [s Hs]. destruct (decode_strict_sound raw s Hs) as [He Hr].
    unfold decode_replace. rewrite Hr. exact He.
Qed.

Ltac hide_div :=
  repeat match goal with
  | H : context [N.modulo ?a ?b] |- _ =>
    let r := fresh "r" in set (r := N.modulo a b) in *; clearbody r
  | H : context [N.div ?a ?b] |- _ =>
    let q := fresh "q" in set (q := N.div a b) in *; clearbody q
  end.

Lemma ascii_codec (r : bool) (l : list N) :
  Forall (fun c => c < 128) l -> encode l = Some l /\ decode r l = Some l.
Proof.
  induction 1 as [|c l Hc Hl [IHe IHd]]; [done|].
  cbn [encode decode]. unfold encode_char.
  rewrite (proj2 (N.ltb_lt c 0x80)) by lia. rewrite IHe, IHd. done.
Qed.

Lemma encode_char_bytes (c : N) (bs : list N) :
  encode_char c = Some bs -> Forall (fun b => b < 256) bs.
Proof.
  unfold encode_char, is_surrogate. intros H.
  destruct (N.ltb_spec c 0x80).
  { inversion H; subst. hide_div. repeat (apply Forall_cons_2; [cbv beta; lia|]). apply Forall_nil_2. }
  destruct (N.ltb_spec c 0x800).
  { inversion H; subst. destruct (split2 c) as (Hc & Hl).
    hide_div. repeat (apply Forall_cons_2; [cbv beta; lia|]). apply Forall_nil_2. }
  destruct (N.ltb_spec c 0x10000).
  { destruct ((0xD800 <=? c) && (c <=? 0xDFFF)); [discriminate|].
    inversion H; subst. destruct (split3 c) as (Hc & Hm & Hl).
    hide_div. repeat (apply Forall_cons_2; [cbv beta; lia|]). apply Forall_nil_2. }
  destruct (N.ltb_spec c 0x110000); [|discriminate].
  inversion H; subst. destruct (split4 c) as (Hc & Hk & Hm & Hl).
  hide_div. repeat (apply Forall_cons_2; [cbv beta; lia|]). apply Forall_nil_2.
Qed.

Lemma encode_bytes (s bs : list N) :
  encode s = Some bs -> Forall (fun b => b < 256) bs.
Proof.
  revert bs. induction s as [|c s IH]; intros bs H; cbn [encode] in H.
  - inversion H. constructor.
  - destruct (encode_char c) as [a|] eqn:Ec; [|discriminate].
    destruct (encode s) as [b|] eqn:Es; [|discriminate].
    inversion H; subst. apply Forall_app. split.
    + eapply encode_char_bytes, Ec.
    + apply IH. reflexivity.
Qed.

End Utf8.

(** ** Base64, as [base64.urlsafe_b64encode] and [base64.urlsafe_b64decode]

    The decoder is the lenient one the program calls
    ([binascii.a2b_base64] without strict mode, behind the URL-safe
    translation): characters outside the alphabet are skipped, decoding
    stops at a complete run of padding, and the low bits of the last
    character of a padded group are not inspected. *)

Module Base64.

Definition PAD : N := 61.

(** The URL-safe alphabet: [A-Z a-z 0-9 - _]. *)
Definition b2a (i : N) : N :=
  if i <? 26 then 65 + i
  else if i <? 52 then 97 + (i - 26)
  else if i <? 62 then 48 + (i - 52)
  else if i =? 62 then 45
  else 95.

Fixpoint urlsafe_b64encode (bs : list N) : list N :=
  match bs with
  | [] => []
  | [a] => [b2a (a / 4); b2a ((a mod 4) * 16); PAD; PAD]
  | [a; b] =>
    [b2a (a / 4); b2a ((a mod 4) * 16 + b / 16); b2a ((b mod 16) * 4); PAD]
  | a :: b :: c :: r =>
    b2a (a / 4) :: b2a ((a mod 4) * 16 + b / 16)
      :: b2a ((b mod 16) * 4 + c / 64) :: b2a (c mod 64)
      :: urlsafe_b64encode r
  end.

(** [s.translate(_urlsafe_decode_translation)]: [-] becomes [+] and [_]
    becomes [/]; the standard table then still accepts [+] and [/]. *)
Definition urlsafe_translate (c : N) : N :=
  if c =? 45 then 43 else if c =? 95 then 47 else c.

Definition table_a2b (c : N) : option N :=
  if (65 <=? c) && (c <=? 90) then Some (c - 65)
  else if (97 <=? c) && (c <=? 122) then Some (c - 97 + 26)
  else if (48 <=? c) && (c <=? 57) then Some (c - 48 + 52)
  else if c =? 43 then Some 62
  else if c =? 47 then Some 63
  else None.

(** The loop of [binascii.a2b_base64]; [None] is [binascii.Error]. *)
Fixpoint a2b_loop (l : list N) (quad_pos leftchar pads : N) : option (list N) :=
  match l with
  | [] => if quad_pos =? 0 then Some [] else None
  | ch :: rest =>
    if ch =? PAD then
      if (2 <=? quad_pos) && (4 <=? quad_pos + (pads + 1)) then Some []
      else a2b_loop rest quad_pos leftchar
             (if 2 <=? quad_pos then pads + 1 else pads)
    else
      match table_a2b ch with
      | None => a2b_loop rest quad_pos leftchar pads
      | Some v =>
        if quad_pos =? 0 then a2b_loop rest 1 v 0
        else if quad_pos =? 1 then
          cons ((leftchar * 4 + v / 16) mod 256) <$> a2b_loop rest 2 (v mod 16) 0
        else if quad_pos =? 2 then
          cons ((leftchar * 16 + v / 4) mod 256) <$> a2b_loop rest 3 (v mod 4) 0
        else
          cons ((leftchar * 64 + v) mod 256) <$> a2b_loop rest 0 0 0
      end
  end.

Definition a2b_base64 (l : list N) : option (list N) := a2b_loop l 0 0 0.

Definition urlsafe_b64decode (l : list N) : option (list N) :=
  a2b_base64 (map urlsafe_translate l).

Example encode_A : urlsafe_b64encode [65] = [81; 81; 61; 61].
Proof. reflexivity. Qed.

Example decode_QQ : urlsafe_b64decode [81; 81; 61; 61] = Some [65].
Proof. reflexivity. Qed.

(** "QR==" carries the same byte as "QQ==". *)
Example decode_QR : urlsafe_b64decode [81; 82; 61; 61] = Some [65].
Proof. reflexivity. Qed.

(** A character outside the alphabet is skipped, which leaves an
    incomplete group here. *)
Example decode_skips : urlsafe_b64decode [81; 33; 61; 61] = None.
Proof. reflexivity. Qed.

Definition is_bytes (l : list N) : Prop := Forall (fun b => b < 256) l.

(** [C'] is [C] with exactly one position changed. *)
Definition single_byte_corruption (C C' : list N) : Prop :=
  exists (i : nat) (x y : N), C !! i = Some x /\ y <> x /\ C' = <[i:=y]> C.

Lemma table_b2a (i : N) :
  i < 64 ->
  table_a2b (urlsafe_translate (b2a i)) = Some i /\
  urlsafe_translate (b2a i) <> PAD.
Proof.
  intros Hi. unfold b2a, PAD.
  destruct (N.ltb_spec i 26).
  { unfold urlsafe_translate. Utf8.nresolve.
    unfold table_a2b. Utf8.nresolve. cbn [andb].
    split; [f_equal|]; lia. }
  destruct (N.ltb_spec i 52).
  { unfold urlsafe_translate. Utf8.nresolve.
    unfold table_a2b. Utf8.nresolve. cbn [andb].
    split; [f_equal|]; lia. }
  destruct (N.ltb_spec i 62).
  { unfold urlsafe_translate. Utf8.nresolve.
    unfold table_a2b. Utf8.nresolve. cbn [andb].
    split; [f_equal|]; lia. }
  destruct (N.eqb_spec i 62).
  { subst. split; [reflexivity|cbv; discriminate]. }
  assert (i = 63) by lia. subst. split; [reflexivity|cbv; discriminate].
Qed.

Lemma b2a_ascii (i : N) : b2a i < 128.
Proof. unfold b2a. Utf8.nresolve; lia. Qed.

Lemma a2b_step (i : N) (rest : list N) (q l p : N) :
  i < 64 ->
  a2b_loop (urlsafe_translate (b2a i) :: rest) q l p =
  if q =? 0 then a2b_loop rest 1 i 0
  else if q =? 1 then cons ((l * 4 + i / 16) mod 256) <$> a2b_loop rest 2 (i mod 16) 0
  else if q =? 2 then cons ((l * 16 + i / 4) mod 256) <$> a2b_loop rest 3 (i mod 4) 0
  else cons ((l * 64 + i) mod 256) <$> a2b_loop rest 0 0 0.
Proof.
  intros Hi. destruct (table_b2a i Hi) as [Ht Hp].
  cbn [a2b_loop]. rewrite Ht. apply N.eqb_neq in Hp. rewrite Hp. reflexivity.
Qed.

Lemma a2b_quad (a b c : N) (rest : list N) :
  a < 256 -> b < 256 -> c < 256 ->
  a2b_loop (map urlsafe_translate (urlsafe_b64encode [a; b; c]) ++ rest) 0 0 0 =
  (fun r => a :: b :: c :: r) <$> a2b_loop rest 0 0 0.
Proof.
  intros Ha Hb Hc. cbn [urlsafe_b64encode map app].
  rewrite !a2b_step by Utf8.nia_div. cbn [N.eqb Pos.eqb].
  destruct (a2b_loop rest 0 0 0); cbn; [|reflexivity].
  repeat f_equal; Utf8.nia_div.
Qed.

Lemma encode_cons3 (a b c : N) (r : list N) :
  urlsafe_b64encode (a :: b :: c :: r) =
  urlsafe_b64encode [a; b; c] ++ urlsafe_b64encode r.
Proof. reflexivity. Qed.

(** Whole three-byte groups decode to themselves, whatever follows. *)
Lemma a2b_groups (k : nat) : forall (pre rest : list N),
  length pre = (3 * k)%nat -> is_bytes pre ->
  urlsafe_b64encode (pre ++ rest) = urlsafe_b64encode pre ++ urlsafe_b64encode rest /\
  forall tail, a2b_loop (map urlsafe_translate (urlsafe_b64encode pre) ++ tail) 0 0 0 =
               (app pre) <$> a2b_loop tail 0 0 0.
Proof.
  induction k as [|k IH]; intros pre rest Hlen Hb.
  { destruct pre; [|discriminate]. split; [reflexivity|].
    intros tail. cbn. destruct (a2b_loop tail 0 0 0); reflexivity. }
  destruct pre as [|a [|b [|c r]]]; cbn [length] in Hlen; try lia.
  inversion Hb as [|? ? Ha Hb1]; subst. inversion Hb1 as [|? ? Hb' Hb2]; subst.
  inversion Hb2 as [|? ? Hc Hr]; subst.
  destruct (IH r rest ltac:(lia) Hr) as [IHe IHd].
  split.
  { change ((a :: b :: c :: r) ++ rest) with (a :: b :: c :: (r ++ rest)).
    rewrite (encode_cons3 a b c (r ++ rest)), (encode_cons3 a b c r), IHe.
    rewrite <- app_assoc. reflexivity. }
  intros tail. rewrite (encode_cons3 a b c r), map_app, <- app_assoc.
  rewrite a2b_quad by assumption. rewrite IHd.
  destruct (a2b_loop tail 0 0 0); reflexivity.
Qed.

Lemma a2b_pad2 (l : N) :
  a2b_loop [urlsafe_translate PAD; urlsafe_translate PAD] 2 l 0 = Some [].
Proof. reflexivity. Qed.

Lemma a2b_pad1 (l : N) :
  a2b_loop [urlsafe_translate PAD] 3 l 0 = Some [].
Proof. reflexivity. Qed.

Lemma a2b_last1 (a : N) :
  a < 256 ->
  a2b_loop (map urlsafe_translate (urlsafe_b64encode [a])) 0 0 0 = Some [a].
Proof.
  intros Ha. cbn [urlsafe_b64encode map].
  rewrite !a2b_step by Utf8.nia_div. cbn [N.eqb Pos.eqb].
  rewrite a2b_pad2. cbn [fmap option_fmap option_map]. repeat f_equal. Utf8.nia_div.
Qed.

Lemma a2b_last2 (a b : N) :
  a < 256 -> b < 256 ->
  a2b_loop (map urlsafe_translate (urlsafe_b64encode [a; b])) 0 0 0 = Some [a; b].
Proof.
  intros Ha Hb. cbn [urlsafe_b64encode map].
  rewrite !a2b_step by Utf8.nia_div. cbn [N.eqb Pos.eqb].
  rewrite a2b_pad1. cbn [fmap option_fmap option_map]. repeat f_equal; Utf8.nia_div.
Qed.

(** Every byte string splits into whole groups and at most two bytes. *)
Lemma split_groups (bs : list N) :
  exists k pre suf, bs = pre ++ suf /\ length pre = (3 * k)%nat /\ (length suf < 3)%nat.
Proof.
  exists (length bs / 3)%nat, (take (3 * (length bs / 3)) bs), (drop (3 * (length bs / 3)) bs).
  rewrite take_drop. split; [reflexivity|].
  pose proof (Nat.div_mod_eq (length bs) 3).
  pose proof (Nat.mod_upper_bound (length bs) 3 ltac:(lia)).
  rewrite length_take, length_drop. lia.
Qed.

Lemma b64decode_encode (bs : list N) :
  is_bytes bs -> urlsafe_b64decode (urlsafe_b64encode bs) = Some bs.
Proof.
  intros Hb. destruct (split_groups bs) as (k & pre & suf & -> & Hk & Hs).
  apply Forall_app in Hb as [Hpre Hsuf].
  destruct (a2b_groups k pre suf Hk Hpre) as [He Hd].
  unfold urlsafe_b64decode, a2b_base64. rewrite He, map_app, Hd.
  destruct suf as [|a [|b [|c r]]]; cbn [length] in Hs; try lia.
  - cbn. reflexivity.
  - inversion Hsuf; subst. rewrite a2b_last1 by assumption. reflexivity.
  - inversion Hsuf as [|? ? Ha H1]; subst. inversion H1; subst.
    rewrite a2b_last2 by assumption. reflexivity.
Qed.

Lemma b2a_inj (i j : N) : i < 64 -> j < 64 -> b2a i = b2a j -> i = j.
Proof.
  intros Hi Hj H. destruct (table_b2a i Hi) as [Ei _].
  destruct (table_b2a j Hj) as [Ej _]. rewrite H in Ei. congruence.
Qed.

Lemma encode_ascii_aux (n : nat) : forall bs,
  (length bs <= n)%nat -> Forall (fun c => c < 128) (urlsafe_b64encode bs).
Proof.
  induction n as [|n IH]; intros bs Hlen.
  { destruct bs; [constructor|cbn in Hlen; lia]. }
  destruct bs as [|a [|b [|c r]]]; cbn [length] in Hlen;
    cbn [urlsafe_b64encode]; repeat constructor;
    try apply b2a_ascii; try (cbv; reflexivity).
  apply IH. lia.
Qed.

Lemma encode_ascii (bs : list N) : Forall (fun c => c < 128) (urlsafe_b64encode bs).
Proof. apply (encode_ascii_aux (length bs)). lia. Qed.

(** A byte string of length 3k+1 is encoded with two characters and "==";
    the second character has four bits that the decoder never reads. *)
Lemma slack_undetected (k : nat) (pre : list N) (a : N) :
  length pre = (3 * k)%nat -> is_bytes pre -> a < 256 ->
  exists C', single_byte_corruption (urlsafe_b64encode (pre ++ [a])) C' /\
             Forall (fun c => c < 128) C' /\
             urlsafe_b64decode C' = Some (pre ++ [a]).
Proof.
  intros Hk Hpre Ha.
  destruct (a2b_groups k pre [a] Hk Hpre) as [He Hd].
  exists (urlsafe_b64encode pre ++
          [b2a (a / 4); b2a ((a mod 4) * 16 + 1); PAD; PAD]).
  split.
  - exists (length (urlsafe_b64encode pre) + 1)%nat,
           (b2a ((a mod 4) * 16)), (b2a ((a mod 4) * 16 + 1)).
    rewrite He. cbn [urlsafe_b64encode]. split; [|split].
    + rewrite lookup_app_r by lia.
      replace (length (urlsafe_b64encode pre) + 1 - length (urlsafe_b64encode pre))%nat
        with 1%nat by lia. reflexivity.
    + intros H. apply b2a_inj in H; Utf8.nia_div.
    + rewrite insert_app_r_alt by lia.
      replace (length (urlsafe_b64encode pre) + 1 - length (urlsafe_b64encode pre))%nat
        with 1%nat by lia. reflexivity.
  - split.
    { apply Forall_app. split; [apply encode_ascii|].
      repeat (apply Forall_cons_2; [first [apply b2a_ascii | cbv; reflexivity]|]).
      apply Forall_nil_2. }
    unfold urlsafe_b64decode, a2b_base64. rewrite map_app, Hd. cbn [map].
    rewrite !a2b_step by Utf8.nia_div. cbn [N.eqb Pos.eqb].
    rewrite a2b_pad2. cbn [fmap option_fmap option_map]. repeat f_equal. Utf8.nia_div.
Qed.

End Base64.

(** ** A stand-in for Fernet

    The token layout of the Fernet specification (a version byte 0x80, an
    8-byte timestamp, a 16-byte IV, the ciphertext in 16-byte blocks with
    PKCS7 padding and a 32-byte tag, the whole in URL-safe base64) with
    the identity in place of AES-CBC and a constant in place of the HMAC.
    Its tokens have the length of real ones and none of their secrecy; it
    serves to run the services on concrete inputs and to show that what is
    assumed of Fernet below can be met. *)

Module NullFernet.

Definition Entropy : Type := (N * N)%type.

Definition pkcs7_pad (p : list N) : list N :=
  let n := (16 - length p mod 16)%nat in p ++ replicate n (N.of_nat n).

Definition pkcs7_unpad (d : list N) : option (list N) :=
  match last d with
  | Some x =>
    let n := N.to_nat x in
    if bool_decide (1 <= n <= 16 /\ n <= length d)%nat
    then Some (take (length d - n) d) else None
  | None => None
  end.

Definition TAG : list N := replicate 32 0.

Definition token_bytes (e : Entropy) (p : list N) : list N :=
  0x80 :: replicate 8 (fst e mod 256) ++ replicate 16 (snd e mod 256)
       ++ pkcs7_pad p ++ TAG.

Definition encrypt (e : Entropy) (p : list N) : list N :=
  Base64.urlsafe_b64encode (token_bytes e p).

Definition decrypt (token : list N) : option (list N) :=
  match Base64.urlsafe_b64decode token with
  | Some (v :: data) =>
    if (v =? 0x80) && bool_decide (56 <= length data)%nat
       && bool_decide (drop (length data - 32) data = TAG)
    then pkcs7_unpad (take (length data - 56) (drop 24 data))
    else None
  | _ => None
  end.

Example token_length_short : length (encrypt (0, 0) [104; 105]) = 100%nat.
Proof. vm_compute. reflexivity. Qed.

Example roundtrip_hi : decrypt (encrypt (7, 9) [104; 105]) = Some [104; 105].
Proof. vm_compute. reflexivity. Qed.

Lemma unpad_pad (p : list N) : pkcs7_unpad (pkcs7_pad p) = Some p.
Proof.
  unfold pkcs7_pad, pkcs7_unpad.
  pose proof (Nat.mod_upper_bound (length p) 16 ltac:(lia)) as Hm.
  set (n := (16 - length p mod 16)%nat) in *.
  assert (Hn : (1 <= n <= 16)%nat) by (unfold n; lia).
  destruct n as [|n']; [lia|].
  rewrite replicate_S_end, app_assoc, last_snoc.
  rewrite Nat2N.id.
  rewrite bool_decide_eq_true_2.
  2:{ rewrite !length_app, length_replicate. cbn [length]. lia. }
  f_equal. rewrite <- app_assoc.
  replace (length (p ++ replicate n' (N.of_nat (S n')) ++ [N.of_nat (S n')]) - S n')%nat
    with (length p).
  2:{ rewrite !length_app, length_replicate. cbn [length]. lia. }
  apply take_app_length.
Qed.

Lemma pad_bytes (p : list N) : Base64.is_bytes p -> Base64.is_bytes (pkcs7_pad p).
Proof.
  intros Hp. unfold pkcs7_pad. apply Forall_app_2; [exact Hp|].
  apply Forall_replicate.
  pose proof (Nat.mod_upper_bound (length p) 16 ltac:(lia)). lia.
Qed.

Lemma token_bytes_ok (e : Entropy) (p : list N) :
  Base64.is_bytes p -> Base64.is_bytes (token_bytes e p).
Proof.
  intros Hp. unfold token_bytes, TAG, Base64.is_bytes.
  apply Forall_cons_2; [lia|].
  apply Forall_app_2; [apply Forall_replicate, N.mod_lt; lia|].
  apply Forall_app_2; [apply Forall_replicate, N.mod_lt; lia|].
  apply Forall_app_2; [apply pad_bytes, Hp|].
  apply Forall_replicate. lia.
Qed.

Lemma roundtrip (e : Entropy) (p : list N) :
  Base64.is_bytes p -> decrypt (encrypt e p) = Some p.
Proof.
  intros Hp. unfold decrypt, encrypt.
  rewrite Base64.b64decode_encode by (apply token_bytes_ok, Hp).
  unfold token_bytes. rewrite N.eqb_refl. cbn [andb].
  set (ts := replicate 8 (fst e mod 256)).
  set (iv := replicate 16 (snd e mod 256)).
  assert (Hts : length ts = 8%nat) by apply length_replicate.
  assert (Hiv : length iv = 16%nat) by apply length_replicate.
  assert (Htag : length TAG = 32%nat) by apply length_replicate.
  set (body := pkcs7_pad p).
  assert (Hlen : length (ts ++ iv ++ body ++ TAG) = (56 + length body)%nat).
  { rewrite !length_app. lia. }
  rewrite Hlen.
  rewrite bool_decide_eq_true_2 by lia. cbn [andb].
  replace (56 + length body - 56)%nat with (length body) by lia.
  replace (ts ++ iv ++ body ++ TAG) with ((ts ++ iv ++ body) ++ TAG)
    by (rewrite <- !app_assoc; reflexivity).
  rewrite (drop_app_length' (ts ++ iv ++ body) TAG)
    by (rewrite !length_app; lia).
  rewrite bool_decide_eq_true_2 by reflexivity.
  replace ((ts ++ iv ++ body) ++ TAG) with ((ts ++ iv) ++ body ++ TAG)
    by (rewrite <- !app_assoc; reflexivity).
  rewrite (drop_app_length' (ts ++ iv) (body ++ TAG))
    by (rewrite length_app; lia).
  rewrite take_app_length. apply unpad_pad.
Qed.

Lemma token_is_bytes (e : Entropy) (p : list N) : Base64.is_bytes (encrypt e p).
Proof.
  unfold encrypt. eapply Forall_impl; [apply Base64.encode_ascii|].
  cbv beta. intros. lia.
Qed.

End NullFernet.

(** ** Parsed messages and the Email Processor's extraction functions
    (app/smtp/processor.py) *)

Module Email.

(** A message as [BytesParser(policy=policy.default)] builds it.  The parser
    gives a part a list payload (sub-parts) only when its content type is
    multipart/* or message/*; every other part, and a multipart part whose
    boundary is missing or never found, keeps a text payload and is a
    [Leaf], whatever its content type says.

    Of the library calls the processor makes on a part, [get_content()] is
    the one that can raise on a leaf (an unknown charset is a LookupError),
    so a leaf carries its outcome; [get_payload(decode=True)] returns the
    decoded bytes of a leaf and [None] for a container.

    The header list holds the fields as the parser keeps them: name and
    source text.  Under [policy.default] a field is parsed only when it is
    read, see [get] below. *)
Inductive ContainerKind : Type := KMultipart | KMessage.

Inductive EmailMessage : Type :=
| Leaf (headers : list (string * string)) (maintype subtype : string)
       (filename : option string) (payload : list N)
       (content : Result (list N))
| Container (headers : list (string * string)) (kind : ContainerKind)
       (subtype : string) (filename : option string)
       (parts : list EmailMessage).

Definition msg_headers (m : EmailMessage) : list (string * string) :=
  match m with
  | Leaf h _ _ _ _ _ => h
  | Container h _ _ _ _ => h
  end.

Definition is_multipart (m : EmailMessage) : bool :=
  match m with Leaf _ _ _ _ _ _ => false | Container _ _ _ _ _ => true end.

Definition get_content_maintype (m : EmailMessage) : string :=
  match m with
  | Leaf _ mt _ _ _ _ => mt
  | Container _ KMultipart _ _ _ => "multipart"
  | Container _ KMessage _ _ _ => "message"
  end.

Definition get_content_subtype (m : EmailMessage) : string :=
  match m with
  | Leaf _ _ st _ _ _ => st
  | Container _ _ st _ _ => st
  end.

Definition get_content_type (m : EmailMessage) : string :=
  get_content_maintype m +:+ "/" +:+ get_content_subtype m.

Definition get_filename (m : EmailMessage) : option string :=
  match m with
  | Leaf _ _ _ f _ _ => f
  | Container _ _ _ f _ => f
  end.

Definition get_payload_decoded (m : EmailMessage) : option (list N) :=
  match m with
  | Leaf _ _ _ _ p _ => Some p
  | Container _ _ _ _ _ => None
  end.

Definition get_content (m : EmailMessage) : Result (list N) :=
  match m with
  | Leaf _ _ _ _ _ c => c
  | Container _ _ _ _ _ => Raise LookupError
  end.

(** [message.walk()]: the message itself, then its parts, depth first. *)
Fixpoint walk (m : EmailMessage) : list EmailMessage :=
  match m with
  | Leaf _ _ _ _ _ _ => [m]
  | Container _ _ _ _ parts => m :: concat (List.map walk parts)
  end.

Definition lower_ascii (c : ascii) : ascii :=
  let n := N_of_ascii c in
  if (65 <=? n) && (n <=? 90) then ascii_of_N (n + 32) else c.

Fixpoint lower (s : string) : string :=
  match s with
  | EmptyString => EmptyString
  | String c r => String (lower_ascii c) (lower r)
  end.

(** The first field of that name, compared without regard to case; [None]
    when there is none. *)
Definition header_find (hs : list (string * string)) (name : string)
  : option (string * string) :=
  List.find (fun kv => String.eqb (lower (fst kv)) (lower name)) hs.

Definition header_get (hs : list (string * string)) (name : string) : option string :=
  snd <$> header_find hs name.

(** The source text of the first field of that name.  Whether
    [message.get(name)] is [None] depends on this alone. *)
Definition msg_get (m : EmailMessage) (name : string) : option string :=
  header_get (msg_headers m) name.

(** Truth value of an [Optional[str]]: [None] and the empty string are
    false. *)
Definition truthy (o : option (list N)) : bool :=
  match o with
  | Some (_ :: _) => true
  | _ => false
  end.

(** [message.get(name)] under [policy.default] hands the first field of
    that name to the policy's [header_fetch_parse], which builds the header
    object from the field's own name and source text.  The structured
    parsers of the header registry (addresses, dates, Message-ID) raise on
    some malformed texts: [To: <] is an IndexError.  [header_fetch_parse]
    stands for that call followed by [str()]: the decoded value, or the
    exception. *)
Section Headers.

Variable header_fetch_parse : string -> string -> Result string.

Definition get (message : EmailMessage) (name : string) : Result (option string) :=
  match header_find (msg_headers message) name with
  | Some (k, v) => rbind (header_fetch_parse k v) (fun value => Ok (Some value))
  | None => Ok None
  end.

Definition _extract_subject (message : EmailMessage) : Result string :=
  rbind (get message "Subject") (fun subject => Ok (default "" subject)).

Definition common_headers : list string :=
  ["From"; "To"; "Cc"; "Bcc"; "Subject"; "Date";
   "Message-ID"; "In-Reply-To"; "References";
   "Return-Path"; "Reply-To"]%string.

(** One iteration of [for header_name in common_headers]; nothing catches
    what [message.get] raises. *)
Definition headers_step (message : EmailMessage) (headers : gmap string string)
    (header_name : string) : Result (gmap string string) :=
  rbind (get message header_name) (fun value =>
    match value with
    | Some v => if String.eqb v "" then Ok headers else Ok (<[header_name := v]> headers)
    | None => Ok headers
    end).

Fixpoint headers_loop (message : EmailMessage) (names : list string)
    (headers : gmap string string) : Result (gmap string string) :=
  match names with
  | [] => Ok headers
  | header_name :: rest =>
    rbind (headers_step message headers header_name) (headers_loop message rest)
  end.

Definition _extract_headers (message : EmailMessage) : Result (gmap string string) :=
  headers_loop message common_headers ∅.

End Headers.

(** [try: part.get_content()
     except: part.get_payload(decode=True).decode('utf-8', errors='replace')] *)
Definition get_text (part : EmailMessage) : Result (list N) :=
  try_except (get_content part) (fun _ =>
    match get_payload_decoded part with
    | Some b => Ok (Utf8.decode_replace b)
    | None => Raise AttributeError
    end).

(** One iteration of the loop over [message.walk()]; the state is
    [(html_body, text_body)]. *)
Definition bodies_step (st : option (list N) * option (list N)) (part : EmailMessage)
  : Result (option (list N) * option (list N)) :=
  let content_type := get_content_type part in
  if String.eqb content_type "text/plain" && negb (truthy (snd st)) then
    rbind (get_text part) (fun t => Ok (fst st, Some t))
  else if String.eqb content_type "text/html" && negb (truthy (fst st)) then
    rbind (get_text part) (fun t => Ok (Some t, snd st))
  else Ok st.

Fixpoint bodies_loop (parts : list EmailMessage)
    (st : option (list N) * option (list N))
  : Result (option (list N) * option (list N)) :=
  match parts with
  | [] => Ok st
  | part :: rest => rbind (bodies_step st part) (bodies_loop rest)
  end.

(** Returns [(html_body, text_body)]. *)
Definition _extract_bodies (message : EmailMessage)
  : Result (option (list N) * option (list N)) :=
  if is_multipart message then bodies_loop (walk message) (None, None)
  else
    let content_type := get_content_type message in
    if String.eqb content_type "text/plain" then
      rbind (get_text message) (fun t => Ok (None, Some t))
    else if String.eqb content_type "text/html" then
      rbind (get_text message) (fun t => Ok (Some t, None))
    else Ok (None, None).

Record AttachmentData : Type := {
  att_filename : string;
  att_content_type : string;
  att_size : N;
  att_content : list N;
}.

(** [base64.b64encode]: the standard alphabet, which differs from the
    URL-safe one in the two characters that [urlsafe_translate] maps. *)
Definition b64encode (bs : list N) : list N :=
  List.map Base64.urlsafe_translate (Base64.urlsafe_b64encode bs).

(** One iteration of the loop over [message.walk()].  The test
    [part.get("Content-Disposition") is None] uses the presence of the field
    only. *)
Definition attachments_step (attachments : list AttachmentData) (part : EmailMessage)
  : list AttachmentData :=
  if String.eqb (get_content_maintype part) "multipart" then attachments
  else match msg_get part "Content-Disposition" with
  | None => attachments
  | Some _ =>
    match get_filename part with
    | None => attachments
    | Some filename =>
      if String.eqb filename "" then attachments
      else
        let attempt : Result (list AttachmentData) :=
          match get_payload_decoded part with
          | Some (b :: content) =>
            match Utf8.decode_strict (b64encode (b :: content)) with
            | Some content_b64 =>
              Ok (attachments ++
                  [{| att_filename := filename;
                      att_content_type := get_content_type part;
                      att_size := N.of_nat (length (b :: content));
                      att_content := content_b64 |}])
            | None => Raise (ValueError "utf-8")
            end
          | _ => Ok attachments
          end in
        match attempt with
        | Ok a => a
        | Raise _ => attachments
        end
    end
  end.

Definition _extract_attachments (message : EmailMessage) : Result (list AttachmentData) :=
  if negb (is_multipart message) then Ok []
  else Ok (fold_left attachments_step (walk message) []).

(** The first content in the list that is not empty; an empty one only
    when all are. *)
Fixpoint first_nonempty (l : list (list N)) : option (list N) :=
  match l with
  | [] => None
  | [] :: rest =>
    match first_nonempty rest with
    | None => Some []
    | r => r
    end
  | s :: _ => Some s
  end.

Definition has_type (ct : string) (p : EmailMessage) : bool :=
  String.eqb (get_content_type p) ct.

Definition part_text (p : EmailMessage) : list N :=
  match get_text p with
  | Ok s => s
  | Raise _ => []
  end.

(** The contents of the parts of type [ct], in walk order. *)
Definition texts_of (ct : string) (m : EmailMessage) : list (list N) :=
  List.map part_text (List.filter (has_type ct) (walk m)).

(** What the loop leaves in a body variable that held [o] after it has seen
    the contents [l] of the parts of that type. *)
Definition merge (o : option (list N)) (l : list (list N)) : option (list N) :=
  if truthy o then o
  else match first_nonempty l with
       | None => o
       | Some r => Some r
       end.

Definition texts_in (ct : string) (parts : list EmailMessage) : list (list N) :=
  List.map part_text (List.filter (has_type ct) parts).

(** The value [_extract_headers] keeps for a name: the value of the first
    field of that name, unless it is empty. *)
Definition kept (fetch : string -> string -> Result string) (m : EmailMessage)
    (k : string) : option string :=
  match get fetch m k with
  | Ok (Some v) => if String.eqb v "" then None else Some v
  | _ => None
  end.

(** Every field of the list is read without an exception. *)
Definition headers_readable (fetch : string -> string -> Result string)
    (m : EmailMessage) : bool :=
  forallb (fun k => returns (get fetch m k)) common_headers.

(** The allow-list as the specification gives it. *)
Definition spec_allow_list : list string :=
  ["From"; "To"; "Cc"; "Subject"; "Date"; "Message-ID"; "In-Reply-To";
   "References"; "Return-Path"; "Reply-To"]%string.

Definition headers_as_specified (fetch : string -> string -> Result string)
    (m : EmailMessage) : Prop :=
  exists hs, _extract_headers fetch m = Ok hs /\
    forall k, is_Some (hs !! k) <-> (k ∈ spec_allow_list /\ is_Some (msg_get m k)).

(** A fetch that returns the source text of every field, except for the
    field [To: <], where it raises as the address parser does. *)
Definition demo_fetch (name value : string) : Result string :=
  if String.eqb (lower name) "to" && String.eqb value "<" then Raise IndexError
  else Ok value.

Definition bcc_message : EmailMessage :=
  Leaf [("From", "a@example.org"); ("Bcc", "hidden@example.org")]%string
       "text" "plain" None [104; 105] (Ok [104; 105]).

(** A mail whose only header field is [To: <]. *)
Definition malformed_to_message : EmailMessage :=
  Leaf [("To", "<")]%string "text" "plain" None [104; 105] (Ok [104; 105]).

Definition first_match_wins (m : EmailMessage) : Prop :=
  forall first later,
    List.filter (has_type "text/plain") (walk m) = first :: later ->
    later <> [] ->
    exists html, _extract_bodies m = Ok (html, Some (part_text first)).

Definition empty_first_message : EmailMessage :=
  Container [("Content-Type", "multipart/alternative; boundary=b")]%string
    KMultipart "alternative" None
    [ Leaf [("Content-Type", "text/plain")]%string "text" "plain" None [] (Ok []);
      Leaf [("Content-Type", "text/plain")]%string "text" "plain" None
        [50; 110; 100] (Ok [50; 110; 100]) ].

(** An extracted attachment has base64 text for content and a positive
    size. *)
Definition good_attachment (a : AttachmentData) : Prop :=
  Forall (fun c => c < 128) (att_content a) /\ 0 < att_size a.

(** Scenario C of the specification: one text/plain, one text/html and one
    attachment named invoice.pdf. *)
Definition scenario_c : EmailMessage :=
  Container [("Content-Type", "multipart/mixed; boundary=b")]%string
    KMultipart "mixed" None
    [ Leaf [("Content-Type", "text/plain")]%string "text" "plain" None
        [104; 105] (Ok [104; 105]);
      Leaf [("Content-Type", "text/html")]%string "text" "html" None
        [60; 98; 62] (Ok [60; 98; 62]);
      Leaf [("Content-Type", "application/pdf");
            ("Content-Disposition", "attachment; filename=invoice.pdf")]%string
        "application" "pdf" (Some "invoice.pdf"%string) [37; 80; 68; 70]
        (Raise LookupError) ].

Example scenario_c_bodies :
  _extract_bodies scenario_c = Ok (Some [60; 98; 62], Some [104; 105]).
Proof. reflexivity. Qed.

Example scenario_c_attachments :
  List.map att_filename <$> (match _extract_attachments scenario_c with
                             | Ok a => Some a | Raise _ => None end)
  = Some ["invoice.pdf"%string].
Proof. vm_compute. reflexivity. Qed.

Lemma container_not_text (h : list (string * string)) (k : ContainerKind)
    (st : string) (f : option string) (ps : list EmailMessage) :
  has_type "text/plain" (Container h k st f ps) = false /\
  has_type "text/html" (Container h k st f ps) = false.
Proof. destruct k; split; reflexivity. Qed.

Lemma get_text_leaf (h : list (string * string)) (mt st : string)
    (f : option string) (payload : list N) (c : Result (list N)) :
  get_text (Leaf h mt st f payload c) =
  Ok (match c with Ok s => s | Raise _ => Utf8.decode_replace payload end).
Proof. destruct c; reflexivity. Qed.

(** A part whose type is text/plain or text/html always yields a text. *)
Lemma get_text_total (ct : string) (part : EmailMessage) :
  ct = "text/plain"%string \/ ct = "text/html"%string ->
  has_type ct part = true -> get_text part = Ok (part_text part).
Proof.
  intros Hct Hty. destruct part as [h mt st f p c|h k st f ps].
  - unfold part_text. rewrite get_text_leaf. reflexivity.
  - destruct (container_not_text h k st f ps) as [H1 H2].
    destruct Hct; subst; congruence.
Qed.

Lemma bodies_step_total (st : option (list N) * option (list N)) (part : EmailMessage) :
  exists st', bodies_step st part = Ok st'.
Proof.
  unfold bodies_step.
  destruct (String.eqb (get_content_type part) "text/plain") eqn:Ep; cbn [andb].
  { destruct (truthy (snd st)); cbn [negb].
    - destruct (String.eqb (get_content_type part) "text/html" && negb (truthy (fst st)));
        [|eauto].
      apply String.eqb_eq in Ep. rewrite (get_text_total "text/plain" part); cbn; eauto.
      unfold has_type. rewrite Ep. reflexivity.
    - rewrite (get_text_total "text/plain" part); cbn; eauto. }
  destruct (String.eqb (get_content_type part) "text/html") eqn:Eh; cbn [andb]; [|eauto].
  destruct (truthy (fst st)); cbn [negb]; [eauto|].
  rewrite (get_text_total "text/html" part); cbn; eauto.
Qed.

Lemma bodies_loop_total (parts : list EmailMessage) :
  forall st, exists st', bodies_loop parts st = Ok st'.
Proof.
  induction parts as [|p ps IH]; intros st; cbn [bodies_loop]; [eauto|].
  destruct (bodies_step_total st p) as [st1 ->]. cbn [rbind]. apply IH.
Qed.

Lemma merge_cons (o : option (list N)) (x : list N) (l : list (list N)) :
  truthy o = false -> merge o (x :: l) = merge (Some x) l.
Proof.
  intros Ho. unfold merge. rewrite Ho.
  destruct x as [|c x]; cbn [first_nonempty truthy]; [|reflexivity].
  destruct (first_nonempty l); reflexivity.
Qed.

Lemma merge_truthy (o : option (list N)) (l : list (list N)) :
  truthy o = true -> merge o l = o.
Proof. intros Ho. unfold merge. rewrite Ho. reflexivity. Qed.

Lemma merge_None (l : list (list N)) : merge None l = first_nonempty l.
Proof. unfold merge. cbn. destruct (first_nonempty l); reflexivity. Qed.

Lemma plain_not_html (p : EmailMessage) :
  has_type "text/plain" p = true -> has_type "text/html" p = false.
Proof.
  unfold has_type. intros H. apply String.eqb_eq in H. rewrite H. reflexivity.
Qed.

Lemma bodies_loop_spec (parts : list EmailMessage) :
  forall h t,
    bodies_loop parts (h, t) =
    Ok (merge h (texts_in "text/html" parts), merge t (texts_in "text/plain" parts)).
Proof.
  induction parts as [|p ps IH]; intros h t.
  { cbn. unfold merge. cbn. destruct (truthy h), (truthy t); reflexivity. }
  cbn [bodies_loop]. unfold bodies_step, texts_in. cbn [List.filter fst snd].
  fold (has_type "text/plain" p). fold (has_type "text/html" p).
  destruct (has_type "text/plain" p) eqn:Ep.
  - rewrite (plain_not_html p Ep). cbn [andb List.map].
    destruct (truthy t) eqn:Et; cbn [negb rbind].
    + rewrite IH. unfold texts_in. rewrite !(merge_truthy t) by assumption.
      reflexivity.
    + rewrite (get_text_total "text/plain" p) by auto. cbn [rbind].
      rewrite IH. unfold texts_in. rewrite (merge_cons t) by assumption.
      reflexivity.
  - cbn [andb]. destruct (has_type "text/html" p) eqn:Eh; cbn [andb List.map].
    + destruct (truthy h) eqn:Et; cbn [negb rbind].
      * rewrite IH. unfold texts_in. rewrite !(merge_truthy h) by assumption.
        reflexivity.
      * rewrite (get_text_total "text/html" p) by auto. cbn [rbind].
        rewrite IH. unfold texts_in. rewrite (merge_cons h) by assumption.
        reflexivity.
    + cbn [rbind]. rewrite IH. reflexivity.
Qed.

Lemma headers_step_kept (fetch : string -> string -> Result string)
    (m : EmailMessage) (acc : gmap string string) (a : string) :
  returns (get fetch m a) = true ->
  headers_step fetch m acc a = Ok (match kept fetch m a with
                                   | Some v => <[a := v]> acc
                                   | None => acc
                                   end).
Proof.
  unfold headers_step, kept. destruct (get fetch m a) as [[v|]|e]; cbn [returns rbind].
  - intros _. destruct (String.eqb v ""); reflexivity.
  - reflexivity.
  - discriminate.
Qed.

Lemma headers_step_raises (fetch : string -> string -> Result string)
    (m : EmailMessage) (acc : gmap string string) (a : string) (e : exn) :
  get fetch m a = Raise e -> headers_step fetch m acc a = Raise e.
Proof. unfold headers_step. intros ->. reflexivity. Qed.

Lemma headers_loop_spec (fetch : string -> string -> Result string)
    (m : EmailMessage) (l : list string) :
  forall (acc : gmap string string),
    forallb (fun k => returns (get fetch m k)) l = true ->
    exists hs, headers_loop fetch m l acc = Ok hs /\
      forall k, hs !! k =
                match (if bool_decide (k ∈ l) then kept fetch m k else None) with
                | Some v => Some v
                | None => acc !! k
                end.
Proof.
  induction l as [|a l IH]; intros acc Hall.
  { exists acc. split; [reflexivity|]. intros k.
    rewrite bool_decide_eq_false_2 by apply not_elem_of_nil. reflexivity. }
  cbn [forallb] in Hall. apply andb_true_iff in Hall as [Ha Hl].
  cbn [headers_loop]. rewrite (headers_step_kept fetch m acc a Ha). cbn [rbind].
  destruct (IH (match kept fetch m a with Some v => <[a := v]> acc | None => acc end) Hl)
    as (hs & -> & Hhs).
  exists hs. split; [reflexivity|]. intros k. rewrite Hhs.
  destruct (decide (k = a)) as [->|Hne].
  - rewrite (bool_decide_eq_true_2 (a ∈ a :: l)) by (apply elem_of_cons; auto).
    destruct (bool_decide (a ∈ l)); destruct (kept fetch m a) as [v|]; try reflexivity.
    apply lookup_insert_eq.
  - assert (Hiff : bool_decide (k ∈ a :: l) = bool_decide (k ∈ l)).
    { apply bool_decide_ext. rewrite elem_of_cons. tauto. }
    rewrite Hiff. destruct (bool_decide (k ∈ l)).
    + destruct (kept fetch m k); [reflexivity|].
      destruct (kept fetch m a); [apply lookup_insert_ne; congruence | reflexivity].
    + destruct (kept fetch m a); [apply lookup_insert_ne; congruence | reflexivity].
Qed.

(** The loop stops at the first field whose read raises. *)
Lemma headers_loop_raises (fetch : string -> string -> Result string)
    (m : EmailMessage) (before after : list string) (a : string) (e : exn) :
  forall (acc : gmap string string),
    forallb (fun k => returns (get fetch m k)) before = true ->
    get fetch m a = Raise e ->
    headers_loop fetch m (before ++ a :: after) acc = Raise e.
Proof.
  induction before as [|b before IH]; intros acc Hall Ha.
  { cbn [app headers_loop]. rewrite (headers_step_raises fetch m acc a e Ha). reflexivity. }
  cbn [forallb] in Hall. apply andb_true_iff in Hall as [Hb Hl].
  cbn [app headers_loop]. rewrite (headers_step_kept fetch m acc b Hb). cbn [rbind].
  apply IH; assumption.
Qed.

Lemma kept_Some (fetch : string -> string -> Result string)
    (m : EmailMessage) (k v : string) :
  kept fetch m k = Some v <-> get fetch m k = Ok (Some v) /\ v <> ""%string.
Proof.
  unfold kept. destruct (get fetch m k) as [[w|]|e];
    [|split; [discriminate|intros [? _]; discriminate]..].
  destruct (String.eqb_spec w "") as [->|Hw]; split.
  - discriminate.
  - intros [H Hv]. inversion H; subst. contradiction.
  - intros H. inversion H; subst. auto.
  - intros [H _]. inversion H; subst. reflexivity.
Qed.

(** The field [To: <] stops the extraction of the headers. *)
Lemma extract_headers_malformed_to (fetch : string -> string -> Result string) :
  fetch "To"%string "<"%string = Raise IndexError ->
  _extract_headers fetch malformed_to_message = Raise IndexError.
Proof.
  intros Hf. unfold _extract_headers, common_headers.
  apply (headers_loop_raises fetch malformed_to_message ["From"%string] _ "To"%string).
  - reflexivity.
  - unfold get.
    change (header_find (msg_headers malformed_to_message) "To")
      with (Some ("To"%string, "<"%string)).
    cbv beta iota. rewrite Hf. reflexivity.
Qed.

Lemma extract_bodies_total (m : EmailMessage) : exists bodies, _extract_bodies m = Ok bodies.
Proof.
  unfold _extract_bodies. destruct (is_multipart m) eqn:Em.
  - apply bodies_loop_total.
  - fold (has_type "text/plain" m). fold (has_type "text/html" m).
    destruct (has_type "text/plain" m) eqn:Ep.
    + rewrite (get_text_total "text/plain" m) by auto. cbn; eauto.
    + destruct (has_type "text/html" m) eqn:Eh; [|eauto].
      rewrite (get_text_total "text/html" m) by auto. cbn; eauto.
Qed.

Lemma translate_ascii (c : N) : c < 128 -> Base64.urlsafe_translate c < 128.
Proof. intros H. unfold Base64.urlsafe_translate. Utf8.nresolve; lia. Qed.

Lemma b64encode_ascii (bs : list N) : Forall (fun c => c < 128) (b64encode bs).
Proof.
  unfold b64encode. apply Forall_forall. intros c Hc.
  apply list_elem_of_In, in_map_iff in Hc as (x & <- & Hx).
  apply translate_ascii.
  pose proof (Base64.encode_ascii bs) as Ha.
  rewrite Forall_forall in Ha. apply Ha, list_elem_of_In, Hx.
Qed.

Lemma attachments_step_good (atts : list AttachmentData) (part : EmailMessage) :
  Forall good_attachment atts -> Forall good_attachment (attachments_step atts part).
Proof.
  intros Hg. unfold attachments_step.
  destruct (String.eqb (get_content_maintype part) "multipart"); [exact Hg|].
  destruct (msg_get part "Content-Disposition"); [|exact Hg].
  destruct (get_filename part) as [fn|]; [|exact Hg].
  destruct (String.eqb fn ""); [exact Hg|].
  destruct (get_payload_decoded part) as [[|b content]|]; try exact Hg.
  destruct (Utf8.ascii_codec false _ (b64encode_ascii (b :: content))) as [_ Hd].
  unfold Utf8.decode_strict. rewrite Hd.
  apply Forall_app_2; [exact Hg|]. apply Forall_cons_2; [|constructor].
  split; cbn [att_content att_size]; [apply b64encode_ascii|].
  cbn [length]. lia.
Qed.

Lemma extract_attachments_good (m : EmailMessage) :
  exists atts, _extract_attachments m = Ok atts /\ Forall good_attachment atts.
Proof.
  unfold _extract_attachments. destruct (negb (is_multipart m)).
  - exists []. split; [reflexivity|constructor].
  - eexists. split; [reflexivity|].
    assert (H : forall parts acc, Forall good_attachment acc ->
                Forall good_attachment (fold_left attachments_step parts acc)).
    { induction parts as [|p ps IH]; intros acc Hacc; cbn [fold_left]; [exact Hacc|].
      apply IH, attachments_step_good, Hacc. }
    apply H. constructor.
Qed.

(** The body and attachment paths catch what the library raises on a part:
    a text part whose [get_content()] raises is decoded from its payload
    with replacement characters, and a part with a file name but no content
    is left out of the attachments; both functions return on every parsed
    message. *)
Lemma bodies_and_attachments_return (m : EmailMessage) :
  (exists bodies attachments,
     _extract_bodies m = Ok bodies /\ _extract_attachments m = Ok attachments) /\
  (forall h mt st f payload e,
     get_text (Leaf h mt st f payload (Raise e)) = Ok (Utf8.decode_replace payload)) /\
  (forall atts h mt st f c, attachments_step atts (Leaf h mt st f [] c) = atts).
Proof.
  split; [|split].
  - destruct (extract_bodies_total m) as [bodies Hb].
    destruct (extract_attachments_good m) as (atts & Ha & _). eauto.
  - intros. reflexivity.
  - intros atts h mt st f c. unfold attachments_step.
    cbn [get_content_maintype get_filename get_payload_decoded].
    destruct (String.eqb mt "multipart"); [reflexivity|].
    destruct (msg_get _ "Content-Disposition"); [|reflexivity].
    destruct f as [fn|]; [|reflexivity].
    destruct (String.eqb fn ""); reflexivity.
Qed.

(** C5, as amended.  For a multipart message, htmlBody and textBody are the
    content of the first text/html (text/plain) part in walk order whose
    content is not empty; later parts of that type are ignored from then
    on.  An empty content does not count as found: a later part replaces
    it, and the body is the empty string only when every part of the type
    is empty, and absent when there is none. *)
Theorem first_nonempty_part_wins (h : list (string * string)) (k : ContainerKind)
    (st : string) (f : option string) (ps : list EmailMessage) :
  _extract_bodies (Container h k st f ps) =
  Ok (first_nonempty (texts_of "text/html" (Container h k st f ps)),
      first_nonempty (texts_of "text/plain" (Container h k st f ps))).
Proof.
  unfold _extract_bodies. cbn [is_multipart].
  rewrite bodies_loop_spec, !merge_None. reflexivity.
Qed.

(** C5, counterexample.  Two text/plain parts, the first one empty: the
    text body is the content of the second. *)
Lemma empty_first_part_replaced : ~ first_match_wins empty_first_message.
Proof.
  intros H.
  destruct (H _ _ eq_refl ltac:(discriminate)) as [html Hb].
  vm_compute in Hb. discriminate Hb.
Qed.

(** C6, as amended.  For a message whose listed fields are all read
    without an exception, the headers map has exactly the names of the list
    From, To, Cc, Bcc, Subject, Date, Message-ID, In-Reply-To, References,
    Return-Path, Reply-To whose first field in the message has a non-empty
    value, each mapped to that value. *)
Theorem headers_kept (fetch : string -> string -> Result string) (m : EmailMessage) :
  headers_readable fetch m = true ->
  exists hs, _extract_headers fetch m = Ok hs /\
    forall k v, hs !! k = Some v <->
                (k ∈ common_headers /\ get fetch m k = Ok (Some v) /\ v <> ""%string).
Proof.
  intros Hall.
  destruct (headers_loop_spec fetch m common_headers ∅ Hall) as (hs & Hhs & Hk).
  exists hs. split; [exact Hhs|]. intros k v.
  rewrite Hk, lookup_empty.
  destruct (bool_decide (k ∈ common_headers)) eqn:Hin.
  - apply bool_decide_eq_true in Hin. rewrite <- kept_Some.
    destruct (kept fetch m k); split; intros H; try tauto;
      try discriminate; destruct H; try discriminate; auto.
  - apply bool_decide_eq_false in Hin. split; [discriminate|tauto].
Qed.

Lemma headers_kept_witness :
  headers_readable demo_fetch bcc_message = true /\
  exists hs, _extract_headers demo_fetch bcc_message = Ok hs /\
    forall k v, hs !! k = Some v <->
                (k ∈ common_headers /\ get demo_fetch bcc_message k = Ok (Some v) /\
                 v <> ""%string).
Proof. split; [reflexivity | apply (headers_kept demo_fetch bcc_message); reflexivity]. Defined.

(** C6, counterexample.  A message with a Bcc field: the map has the key
    Bcc, which is not in the specification's list. *)
Lemma bcc_is_captured : ~ headers_as_specified demo_fetch bcc_message.
Proof.
  intros (hs & Hhs & H).
  destruct (headers_loop_spec demo_fetch bcc_message common_headers ∅ eq_refl)
    as (hs' & Hhs' & Hk).
  unfold _extract_headers in Hhs. rewrite Hhs' in Hhs. injection Hhs as ->.
  destruct (H "Bcc"%string) as [H1 _].
  destruct H1 as [Hin _].
  { rewrite Hk. vm_compute. eauto. }
  unfold spec_allow_list in Hin.
  repeat (apply elem_of_cons in Hin as [Hin|Hin]; [discriminate|]).
  apply elem_of_nil in Hin. exact Hin.
Qed.

End Email.

(** ** Configuration (app/config.py) *)

Record Settings : Type := {
  MAX_EMAILS_PER_INBOX : Z;
  MAX_EMAIL_SIZE_MB : N;
  CLEANUP_BATCH_SIZE : nat;
}.

Definition max_email_size_bytes (s : Settings) : N :=
  MAX_EMAIL_SIZE_MB s * 1024 * 1024.

Definition default_settings : Settings :=
  {| MAX_EMAILS_PER_INBOX := 50; MAX_EMAIL_SIZE_MB := 10; CLEANUP_BATCH_SIZE := 100 |}.

(** ** The Fast Index (Redis, app/db/redis_client.py)

    The client decodes responses, so keys and values are strings.  A
    command can fail; [failing k] tells whether the commands on key [k]
    raise.  A key whose time to live has run out is simply absent. *)

Record Redis : Type := {
  kv : gmap string string;
  failing : string -> bool;
}.

Definition redis_get (r : Redis) (k : string) : Result (option string) :=
  if failing r k then Raise ConnectionError else Ok (kv r !! k).

Definition redis_delete (r : Redis) (k : string) : Result Redis :=
  if failing r k then Raise ConnectionError
  else Ok {| kv := delete k (kv r); failing := failing r |}.

(** The integer that Redis reads in a value: a decimal numeral, the form
    INCR writes. *)
Definition int_of_str (s : string) : option Z :=
  Z.of_int <$> DecimalString.NilZero.int_of_string s.

(** Python's [int(s)] for a [str] of characters below U+0100.  White space
    around the numeral is dropped, a sign may come first, one underscore may
    stand between two digits, and leading zeros are allowed; from CPython
    3.11 on a numeral of more than 4300 digits is refused.  [None] is a
    ValueError. *)
Definition py_isspace (c : ascii) : bool :=
  let n := N_of_ascii c in
  ((9 <=? n) && (n <=? 13)) || (n =? 32) || (n =? 133) || (n =? 160).

Fixpoint lstrip (s : list ascii) : list ascii :=
  match s with
  | c :: rest => if py_isspace c then lstrip rest else s
  | [] => []
  end.

Definition strip (s : list ascii) : list ascii := rev (lstrip (rev (lstrip s))).

Definition digit_value (c : ascii) : option Z :=
  let n := N_of_ascii c in
  if (48 <=? n) && (n <=? 57) then Some (Z.of_N (n - 48)) else None.

(** The digits of a numeral, most significant first; [after_underscore]
    also holds at the start, where an underscore is refused as well. *)
Fixpoint numeral (s : list ascii) (acc : Z) (digits : nat) (after_underscore : bool)
  : option (Z * nat) :=
  match s with
  | [] => if after_underscore then None else Some (acc, digits)
  | c :: rest =>
    if Ascii.eqb c "_" then
      if after_underscore then None else numeral rest acc digits true
    else
      match digit_value c with
      | Some d => numeral rest (10 * acc + d)%Z (S digits) false
      | None => None
      end
  end.

Definition int_max_str_digits : nat := 4300.

Definition py_int (s : string) : option Z :=
  let body := strip (list_ascii_of_string s) in
  let '(sign, ds) :=
    match body with
    | c :: rest =>
      if Ascii.eqb c "+" then (1%Z, rest)
      else if Ascii.eqb c "-" then ((-1)%Z, rest)
      else (1%Z, body)
    | [] => (1%Z, body)
    end in
  match numeral ds 0 0 true with
  | Some (n, digits) =>
    if (int_max_str_digits <? digits)%nat then None else Some (sign * n)%Z
  | None => None
  end.

Definition str_of_int (z : Z) : string :=
  DecimalString.NilZero.string_of_int (Z.to_int z).

(** INCR: a missing key counts as 0; a value that is not an integer is an
    error. *)
Definition redis_incr (r : Redis) (k : string) : Result Redis :=
  if failing r k then Raise ConnectionError
  else
    match kv r !! k with
    | None => Ok {| kv := <[k := str_of_int 1]> (kv r); failing := failing r |}
    | Some s =>
      match int_of_str s with
      | Some n => Ok {| kv := <[k := str_of_int (n + 1)]> (kv r); failing := failing r |}
      | None => Raise (ValueError "not an integer")
      end
    end.

(** ** The Durable Store (app/db/models.py)

    Rows carry the columns the ingestion core reads or writes. *)

Definition UUID : Type := string.

Record Inbox : Type := {
  inbox_id : UUID;
  address : string;
  expires_at : Z;
  is_active : bool;
  message_count : Z;
}.

Record Message : Type := {
  msg_id : UUID;
  msg_inbox_id : UUID;
  from_address : string;
  to_address : string;
  subject : string;
  body_html_encrypted : option (list N);
  body_text_encrypted : option (list N);
  raw_email_encrypted : list N;
  size_bytes : N;
  has_attachments : bool;
  is_read : bool;
  headers : gmap string string;
}.

Record Attachment : Type := {
  att_message_id : UUID;
  filename : string;
  content_type : string;
  att_size_bytes : N;
  content_encrypted : list N;
}.

Record DB : Type := {
  inboxes : list Inbox;
  messages : list Message;
  attachments : list Attachment;
}.

(** What the metrics and the parser calls leave behind, oldest first. *)
Inductive Event : Type :=
| EvConnection
| EvRejection (reason : string)
| EvParse
| EvMessage (status : string)
| EvMessageReceived (size : N)
| EvInboxExpired (msg_count : nat).

(** The state outside the process: both stores, the clock and the
    observable events. *)
Record World : Type := {
  redis : Redis;
  db : DB;
  now : Z;
  events : list Event;
}.

Definition set_redis (w : World) (r : Redis) : World :=
  {| redis := r; db := db w; now := now w; events := events w |}.

Definition set_db (w : World) (d : DB) : World :=
  {| redis := redis w; db := d; now := now w; events := events w |}.

Definition emit (w : World) (e : Event) : World :=
  {| redis := redis w; db := db w; now := now w; events := events w ++ [e] |}.

Definition find_inbox (d : DB) (id : UUID) : option Inbox :=
  List.find (fun i => String.eqb (inbox_id i) id) (inboxes d).

Definition add_message (d : DB) (m : Message) : DB :=
  {| inboxes := inboxes d; messages := messages d ++ [m];
     attachments := attachments d |}.

Definition add_attachments (d : DB) (atts : list Attachment) : DB :=
  {| inboxes := inboxes d; messages := messages d;
     attachments := attachments d ++ atts |}.

(** INSERT of a message row: the foreign key to inboxes and
    [CHECK (size_bytes > 0)]. *)
Definition flush_message (d : DB) (m : Message) : Result DB :=
  match find_inbox d (msg_inbox_id m) with
  | Some _ => if 0 <? size_bytes m then Ok (add_message d m) else Raise IntegrityError
  | None => Raise IntegrityError
  end.

(** INSERT of attachment rows: [CHECK (size_bytes > 0)]. *)
Definition flush_attachments (d : DB) (atts : list Attachment) : Result DB :=
  if forallb (fun a => 0 <? att_size_bytes a) atts
  then Ok (add_attachments d atts) else Raise IntegrityError.

Definition bump (id : UUID) (i : Inbox) : Inbox :=
  if String.eqb (inbox_id i) id then
    {| inbox_id := inbox_id i; address := address i; expires_at := expires_at i;
       is_active := is_active i; message_count := (message_count i + 1)%Z |}
  else i.

(** [inbox.message_count += 1] on the row with this id. *)
Definition bump_count (d : DB) (id : UUID) : DB :=
  {| inboxes := List.map (bump id) (inboxes d); messages := messages d;
     attachments := attachments d |}.

(** [db.delete(inbox)]: the row goes, the cascade takes its messages and
    their attachments. *)
Definition owned_by (id : UUID) (m : Message) : bool := String.eqb (msg_inbox_id m) id.

Definition attached_to (ms : list Message) (a : Attachment) : bool :=
  existsb (fun m => String.eqb (msg_id m) (att_message_id a)) ms.

Definition delete_inbox_cascade (d : DB) (id : UUID) : DB :=
  {| inboxes := List.filter (fun i => negb (String.eqb (inbox_id i) id)) (inboxes d);
     messages := List.filter (fun m => negb (owned_by id m)) (messages d);
     attachments :=
       List.filter
         (fun a => negb (attached_to (List.filter (owned_by id) (messages d)) a))
         (attachments d) |}.

Definition messages_of (d : DB) (id : UUID) : list Message :=
  List.filter (owned_by id) (messages d).

Definition count_of (d : DB) (id : UUID) : option Z :=
  message_count <$> find_inbox d id.

(** A [datetime]: the instant, and whether it carries a [tzinfo].  Python
    refuses to order an aware value and a naive one. *)
Record datetime : Type := {
  instant : Z;
  aware : bool;
}.

Definition datetime_lt (a b : datetime) : Result bool :=
  if Bool.eqb (aware a) (aware b) then Ok (instant a <? instant b)%Z
  else Raise TypeError.

(** [datetime.utcnow()] carries no tzinfo. *)
Definition utcnow (now : Z) : datetime := {| instant := now; aware := false |}.

(** The attribute [inbox.expires_at] of a row the session has loaded: the
    column is [DateTime(timezone=True)], so the value carries one. *)
Definition loaded_expires_at (inbox : Inbox) : datetime :=
  {| instant := expires_at inbox; aware := true |}.

(** A SELECT without ORDER BY returns the matching rows in the order of the
    plan that runs it: the rows sorted by the rank the plan gives them, rows
    of equal rank in table order.  A sequential scan ranks all rows alike,
    an index scan ranks them by the indexed column. *)
Fixpoint insert_by {A} (rank : A -> nat) (x : A) (l : list A) : list A :=
  match l with
  | [] => [x]
  | y :: rest =>
    if (rank x <=? rank y)%nat then x :: l else y :: insert_by rank x rest
  end.

Definition scan {A} (rank : A -> nat) (rows : list A) : list A :=
  fold_right (insert_by rank) [] rows.

Record Envelope : Type := {
  rcpt_tos : list string;
  mail_from : string;
  content : list N;
}.

(** ** The services, the processor, the handler and the reaper

    Taken as given: the Fernet cipher of the [cryptography] package, keyed
    once when the service is built ([Entropy] is the timestamp and IV that
    [Fernet.encrypt] draws for a token; [None] from [fernet_decrypt] is
    InvalidToken), the HTML sanitizer, the message parser and the
    settings; and the header objects that the message's policy builds when
    a field is read, see [Email.get]. *)

Section Service.

Variable Entropy : Type.
Variable fernet_encrypt : Entropy -> list N -> list N.
Variable fernet_decrypt : list N -> option (list N).
Variable sanitize_html : list N -> list N.
Variable header_fetch_parse : string -> string -> Result string.
Variable parsebytes : list N -> Result Email.EmailMessage.
Variable settings : Settings.

(** *** EncryptionService (app/core/security.py) *)

Definition encrypt (e : Entropy) (data : list N) : Result (list N) :=
  match Utf8.encode data with
  | None => Raise (EncryptionException "Encryption failed")
  | Some bs =>
    match Utf8.decode_strict (Base64.urlsafe_b64encode (fernet_encrypt e bs)) with
    | None => Raise (EncryptionException "Encryption failed")
    | Some s => Ok s
    end
  end.

Definition decrypt (encrypted_data : list N) : Result (list N) :=
  match Utf8.encode encrypted_data with
  | None => Raise (EncryptionException "Decryption failed")
  | Some bs =>
    match Base64.urlsafe_b64decode bs with
    | None => Raise (EncryptionException "Decryption failed")
    | Some decoded =>
      match fernet_decrypt decoded with
      | None => Raise (EncryptionException "Decryption failed")
      | Some decrypted =>
        match Utf8.decode_strict decrypted with
        | None => Raise (EncryptionException "Decryption failed")
        | Some s => Ok s
        end
      end
    end
  end.

(** *** MessageService.store_message (app/services/message_service.py) *)

(** [if body: enc = encrypt(pre(body))], else [None]. *)
Definition encrypt_body (e : Entropy) (pre : list N -> list N)
    (body : option (list N)) : Result (option (list N)) :=
  match body with
  | Some (c :: b) => rbind (encrypt e (pre (c :: b))) (fun x => Ok (Some x))
  | _ => Ok None
  end.

Definition raw_email_str (raw_email : list N) : list N :=
  Utf8.decode_replace raw_email.

Fixpoint encrypt_attachments (ent : nat -> Entropy) (i : nat) (message_id : UUID)
    (atts : list Email.AttachmentData) : Result (list Attachment) :=
  match atts with
  | [] => Ok []
  | a :: rest =>
    rbind (encrypt (ent i) (Email.att_content a)) (fun c =>
    rbind (encrypt_attachments ent (S i) message_id rest) (fun r =>
    Ok ({| att_message_id := message_id;
           filename := String.substring 0 255 (Email.att_filename a);
           content_type := String.substring 0 255 (Email.att_content_type a);
           att_size_bytes := Email.att_size a;
           content_encrypted := c |} :: r)))
  end.

(** The session starts from the durable state [d]; the result is the
    durable state afterwards, which differs from [d] only once
    [db.commit()] has run.  [new_id] is the [uuid4()] drawn for the row. *)
Definition store_message (ent : nat -> Entropy) (new_id : UUID) (d : DB)
    (inbox_id : UUID) (from_address : string) (subject : string)
    (body_html body_text : option (list N)) (raw_email : list N)
    (headers : gmap string string) (attachments : list Email.AttachmentData)
  : DB * Result Message :=
  let built : Result (DB * Message) :=
    rbind (encrypt_body (ent 0%nat) sanitize_html body_html) (fun body_html_encrypted =>
    rbind (encrypt_body (ent 1%nat) (fun x => x) body_text) (fun body_text_encrypted =>
    rbind (encrypt (ent 2%nat) (raw_email_str raw_email)) (fun raw_email_encrypted =>
    let message :=
      {| msg_id := new_id;
         msg_inbox_id := inbox_id;
         from_address := String.substring 0 255 from_address;
         to_address := "";
         subject := String.substring 0 998 subject;
         body_html_encrypted := body_html_encrypted;
         body_text_encrypted := body_text_encrypted;
         raw_email_encrypted := raw_email_encrypted;
         size_bytes := N.of_nat (length raw_email);
         has_attachments := match attachments with [] => false | _ => true end;
         is_read := false;
         headers := headers |} in
    (* self.db.add(message); await self.db.flush() *)
    rbind (flush_message d message) (fun pending =>
    rbind (encrypt_attachments ent 3 new_id attachments) (fun rows =>
    (* await self.db.commit() *)
    rbind (flush_attachments pending rows) (fun committed =>
    Ok (committed, message))))))) in
  match built with
  | Ok (committed, message) => (committed, Ok message)
  | Raise e => (d, Raise e)
  end.

(** *** InboxService (app/services/inbox_service.py) *)

(** [if inbox and inbox.expires_at < datetime.utcnow(): return None]: the
    comparison is made on every row that is found. *)
Definition get_inbox (d : DB) (now : Z) (inbox_id : UUID) : Result (option Inbox) :=
  match find_inbox d inbox_id with
  | Some inbox =>
    rbind (datetime_lt (loaded_expires_at inbox) (utcnow now)) (fun expired =>
    if expired then Ok None else Ok (Some inbox))
  | None => Ok None
  end.

Definition check_quota (d : DB) (now : Z) (inbox_id : UUID) : Result bool :=
  rbind (get_inbox d now inbox_id) (fun found =>
  match found with
  | None => Raise (InboxNotFoundException inbox_id)
  | Some inbox =>
    if (MAX_EMAILS_PER_INBOX settings <=? message_count inbox)%Z
    then Raise QuotaExceededException else Ok true
  end).

Definition increment_message_count (w : World) (inbox_id : UUID) : World * Result Z :=
  match get_inbox (db w) (now w) inbox_id with
  | Raise e => (w, Raise e)
  | Ok None => (w, Raise (InboxNotFoundException inbox_id))
  | Ok (Some inbox) =>
    (* inbox.message_count += 1; await self.db.commit() *)
    let w1 := set_db w (bump_count (db w) inbox_id) in
    match redis_incr (redis w1) ("inbox:count:" +:+ address inbox) with
    | Raise e => (w1, Raise e)
    | Ok r => (set_redis w1 r, Ok (message_count inbox + 1)%Z)
    end
  end.

(** *** EmailProcessor.process_message (app/smtp/processor.py) *)

Definition process_message (ent : nat -> Entropy) (new_id : UUID) (w : World)
    (recipient sender : string) (message : Email.EmailMessage)
    (raw_content : list N) : World * Result unit :=
  match redis_get (redis w) ("inbox:" +:+ recipient) with
  | Raise e => (w, Raise e)
  | Ok None => (w, Raise (ValueError "Inbox not found"))
  | Ok (Some inbox_id_str) =>
    if String.eqb inbox_id_str "" then (w, Raise (ValueError "Inbox not found"))
    else
      (* UUID(inbox_id_str): the key holds what create_inbox stored,
         str(inbox_id) *)
      let inbox_id : UUID := inbox_id_str in
      let extracted :=
        rbind (Email._extract_subject header_fetch_parse message) (fun subject =>
        rbind (Email._extract_bodies message) (fun bodies =>
        rbind (Email._extract_headers header_fetch_parse message) (fun headers =>
        rbind (Email._extract_attachments message) (fun attachments =>
        Ok (subject, bodies, headers, attachments))))) in
      match extracted with
      | Raise e => (w, Raise e)
      | Ok (subject, (body_html, body_text), headers, attachments) =>
        (* async with self.db_factory() as db *)
        match store_message ent new_id (db w) inbox_id sender subject
                body_html body_text raw_content headers attachments with
        | (d, Raise e) => (set_db w d, Raise e)
        | (d, Ok stored) =>
          let w1 := emit (set_db w d) (EvMessageReceived (size_bytes stored)) in
          match increment_message_count w1 inbox_id with
          | (w2, Raise e) => (w2, Raise e)
          | (w2, Ok _) => (w2, Ok tt)
          end
        end
      end
  end.

(** *** TempMailHandler (app/smtp/handler.py) *)

Definition _max_message_size : N := max_email_size_bytes settings.

Definition _max_emails_per_inbox : Z := MAX_EMAILS_PER_INBOX settings.

Definition _validate_recipient (w : World) (recipient : string) : bool :=
  match redis_get (redis w) ("inbox:" +:+ recipient) with
  | Ok inbox_id => bool_decide (is_Some inbox_id)
  | Raise _ => false
  end.

Definition _check_inbox_quota (w : World) (recipient : string) : bool :=
  match redis_get (redis w) ("inbox:count:" +:+ recipient) with
  | Ok None => true
  | Ok (Some count) =>
    match py_int count with
    | Some n => (n <? _max_emails_per_inbox)%Z
    | None => true
    end
  | Raise _ => true
  end.

Definition handle_DATA (ent : nat -> Entropy) (new_id : UUID) (w : World)
    (envelope : Envelope) : World * string :=
  let w := emit w EvConnection in
  match rcpt_tos envelope with
  | [] => (emit w (EvRejection "no_recipients"), "554 No valid recipients"%string)
  | rcpt :: _ =>
    let recipient := Email.lower rcpt in
    if negb (_validate_recipient w recipient) then
      (emit w (EvRejection "invalid_recipient"),
       "550 Recipient not found or expired"%string)
    else if negb (_check_inbox_quota w recipient) then
      (emit w (EvRejection "quota_exceeded"), "552 Inbox quota exceeded"%string)
    else
      let message_size := N.of_nat (length (content envelope)) in
      if _max_message_size <? message_size then
        (emit w (EvRejection "too_large"), "552 Message size exceeds maximum"%string)
      else
        let w := emit w EvParse in
        match parsebytes (content envelope) with
        | Raise _ =>
          (emit w (EvRejection "parse_error"), "451 Error parsing message"%string)
        | Ok message =>
          match process_message ent new_id w recipient (mail_from envelope)
                  message (content envelope) with
          | (w', Raise _) =>
            (emit w' (EvMessage "error"),
             "451 Requested action aborted: error in processing"%string)
          | (w', Ok _) =>
            (emit w' (EvMessage "accepted"), "250 Message accepted for delivery"%string)
          end
        end
  end.

(** *** TTLCleanupWorker._run_cleanup (app/workers/ttl_cleanup.py) *)

(** [select(Inbox).where(Inbox.expires_at < now).limit(batch_size)]: the
    comparison is made by the database; no order is asked for, so the rows
    come in the order of the plan, [rank]. *)
Definition expired_inboxes (rank : Inbox -> nat) (w : World) : list Inbox :=
  take (CLEANUP_BATCH_SIZE settings)
       (scan rank (List.filter (fun i => (expires_at i <? now w)%Z) (inboxes (db w)))).

(** The three [redis.delete] calls, in order; the first one that raises
    ends the block, and the keys deleted before it stay deleted. *)
Definition delete_redis_keys (r : Redis) (inbox : Inbox) : Redis * Result unit :=
  match redis_delete r ("inbox:" +:+ address inbox) with
  | Raise e => (r, Raise e)
  | Ok r1 =>
    match redis_delete r1 ("inbox:id:" +:+ inbox_id inbox) with
    | Raise e => (r1, Raise e)
    | Ok r2 =>
      match redis_delete r2 ("inbox:count:" +:+ address inbox) with
      | Raise e => (r2, Raise e)
      | Ok r3 => (r3, Ok tt)
      end
    end
  end.

(** The body of the loop over the expired inboxes.  [pending] is the
    session's view of the database.  A failure of the Redis block is
    logged and the inbox is deleted all the same. *)
Definition cleanup_step (st : Redis * DB * list Event) (inbox : Inbox)
  : Redis * DB * list Event :=
  let '(r, pending, evs) := st in
  let msg_count := length (messages_of pending (inbox_id inbox)) in
  let '(r', _) := delete_redis_keys r inbox in
  (r', delete_inbox_cascade pending (inbox_id inbox),
   evs ++ [EvInboxExpired msg_count]).

Definition _run_cleanup (rank : Inbox -> nat) (w : World) : World * Result unit :=
  let '(r, pending, evs) :=
    fold_left cleanup_step (expired_inboxes rank w) (redis w, db w, events w) in
  (* await db.commit() *)
  ({| redis := r; db := pending; now := now w; events := evs |}, Ok tt).

End Service.

(** ** Statements of the services' properties *)

(** What [store_message] leaves in the database: the message row and one
    row per attachment, or nothing. *)
Definition stored (d d' : DB) (m : Message) (n : nat) : Prop :=
  exists rows, d' = add_attachments (add_message d m) rows /\
               length rows = n /\ Forall (fun a => att_message_id a = msg_id m) rows.


(** The three states in which [process_message] can leave the database:
    untouched; the message and its attachments committed and the counter
    not; both committed. *)
Definition persistence_outcome (d d' : DB) (iid : UUID) (r : Result unit) : Prop :=
  (d' = d /\ returns r = false) \/
  (exists m n, stored d d' m n /\ msg_inbox_id m = iid /\ returns r = false) \/
  (exists m n d1, stored d d1 m n /\ msg_inbox_id m = iid /\ d' = bump_count d1 iid).

(** The responses of the handler. *)
Definition smtp_responses : list string :=
  ["554 No valid recipients"; "550 Recipient not found or expired";
   "552 Inbox quota exceeded"; "552 Message size exceeds maximum";
   "451 Error parsing message";
   "451 Requested action aborted: error in processing";
   "250 Message accepted for delivery"]%string.

(** Nothing is left of inbox [id] in [d']: no row, no message, and no
    attachment of a message that it owned in [d0]. *)
Definition reaped (d0 d' : DB) (id : UUID) : Prop :=
  (forall i, i ∈ inboxes d' -> inbox_id i <> id) /\
  (forall m, m ∈ messages d' -> msg_inbox_id m <> id) /\
  (forall a m, m ∈ messages d0 -> msg_inbox_id m = id ->
               att_message_id a = msg_id m -> a ∉ attachments d').

Definition db_le (d' d : DB) : Prop :=
  (forall x, x ∈ inboxes d' -> x ∈ inboxes d) /\
  (forall x, x ∈ messages d' -> x ∈ messages d) /\
  (forall x, x ∈ attachments d' -> x ∈ attachments d).

Definition redis_keys (inbox : Inbox) : list string :=
  ["inbox:" +:+ address inbox; "inbox:id:" +:+ inbox_id inbox;
   "inbox:count:" +:+ address inbox].

Definition keys_available (r : Redis) (inbox : Inbox) : Prop :=
  forall k, k ∈ redis_keys inbox -> failing r k = false.

Definition keys_deleted (r : Redis) (inbox : Inbox) : Prop :=
  forall k, k ∈ redis_keys inbox -> kv r !! k = None.

Definition cascade_all (l : list Inbox) (d : DB) : DB :=
  fold_left (fun d i => delete_inbox_cascade d (inbox_id i)) l d.

Definition delete_all_keys (l : list Inbox) (r : Redis) : Redis :=
  fold_left (fun r i => (delete_redis_keys r i).1) l r.

(** *** The claims of the specification that the code does not meet, as
    the specification states them *)


(** C2: a message row is committed exactly when the counter of its inbox is
    incremented. *)
Definition single_transaction (Entropy : Type)
    (fernet_encrypt : Entropy -> list N -> list N)
    (sanitize_html : list N -> list N)
    (header_fetch_parse : string -> string -> Result string) : Prop :=
  forall ent new_id w recipient sender message raw m,
    let out := process_message Entropy fernet_encrypt sanitize_html
                 header_fetch_parse ent new_id w recipient sender message raw in
    m ∈ messages (db out.1) -> m ∉ messages (db w) ->
    exists c, count_of (db w) (msg_inbox_id m) = Some c /\
              count_of (db out.1) (msg_inbox_id m) = Some (c + 1)%Z.

(** C3: every single-byte corruption of a ciphertext makes [decrypt]
    fail. *)
Definition tamper_detected (Entropy : Type)
    (fernet_encrypt : Entropy -> list N -> list N)
    (fernet_decrypt : list N -> option (list N)) : Prop :=
  forall e P C C',
    encrypt Entropy fernet_encrypt e P = Ok C ->
    Base64.single_byte_corruption C C' ->
    decrypt fernet_decrypt C' = Raise (EncryptionException "Decryption failed").

(** C7: with the Fast Index failing, a delivery to an inbox that the
    Durable Store holds, unexpired, is not turned away as unknown. *)
Definition fast_index_failure_tolerated (Entropy : Type)
    (fernet_encrypt : Entropy -> list N -> list N)
    (sanitize_html : list N -> list N)
    (header_fetch_parse : string -> string -> Result string)
    (parsebytes : list N -> Result Email.EmailMessage)
    (settings : Settings) : Prop :=
  forall ent new_id w env rcpt rest inbox,
    rcpt_tos env = rcpt :: rest ->
    inbox ∈ inboxes (db w) -> address inbox = Email.lower rcpt ->
    (now w <= expires_at inbox)%Z ->
    (forall k, failing (redis w) k = true) ->
    (handle_DATA Entropy fernet_encrypt sanitize_html header_fetch_parse parsebytes
       settings ent new_id w env).2 <> "550 Recipient not found or expired"%string.

(** *** Concrete inputs *)

Definition demo_sanitize (html : list N) : list N := html.

(** A parser that takes every mail for a single text/plain part. *)
Definition demo_parse (raw : list N) : Result Email.EmailMessage :=
  Ok (Email.Leaf [] "text" "plain" None raw (Ok (Utf8.decode_replace raw))).

Definition demo_ent (i : nat) : NullFernet.Entropy := (N.of_nat i, N.of_nat (7 * i)).

Definition demo_id : UUID := "1b4e28ba-2fa1-41d2-883f-0016d3cca427".

Definition demo_address : string := "tmp_k3v9x2@tempmail.dev".

Definition demo_inbox (count expires : Z) : Inbox :=
  {| inbox_id := demo_id; address := demo_address; expires_at := expires;
     is_active := true; message_count := count |}.

Definition demo_redis (down : bool) : Redis :=
  {| kv := <["inbox:" +:+ demo_address := demo_id]>
             (<["inbox:id:" +:+ demo_id := demo_address]> ∅);
     failing := fun _ => down |}.

(** One inbox with [count] messages counted that expires at [expires];
    the clock shows 1000. *)
Definition demo_world (count expires : Z) (down : bool) : World :=
  {| redis := demo_redis down;
     db := {| inboxes := [demo_inbox count expires]; messages := [];
              attachments := [] |};
     now := 1000;
     events := [] |}.

Definition demo_message : Email.EmailMessage :=
  Email.Leaf [("Subject", "hello")]%string "text" "plain" None
    [104; 105] (Ok [104; 105]).

Definition demo_envelope : Envelope :=
  {| rcpt_tos := ["TMP_K3V9X2@tempmail.dev"%string];
     mail_from := "alice@postbox.net";
     content := [104; 105] |}.

Definition demo_new_id : UUID := "7c9e6679-7425-40de-944b-e07fc1f90ae7".

(** The mail [To: <], an empty line and the body [hi]; a parser that knows
    this mail and takes every other one as [demo_parse] does. *)
Definition malformed_to_mail : list N :=
  [84; 111; 58; 32; 60; 13; 10; 13; 10; 104; 105].

Definition demo_parse_fields (raw : list N) : Result Email.EmailMessage :=
  if bool_decide (raw = malformed_to_mail) then Ok Email.malformed_to_message
  else demo_parse raw.

Definition malformed_to_envelope : Envelope :=
  {| rcpt_tos := ["TMP_K3V9X2@tempmail.dev"%string];
     mail_from := "alice@postbox.net";
     content := malformed_to_mail |}.

(** A mail of exactly the maximum size, and one of one byte more. *)
Definition largest_envelope : Envelope :=
  {| rcpt_tos := ["TMP_K3V9X2@tempmail.dev"%string];
     mail_from := "alice@postbox.net";
     content := replicate (N.to_nat (max_email_size_bytes default_settings)) 120 |}.

Definition oversize_envelope : Envelope :=
  {| rcpt_tos := ["TMP_K3V9X2@tempmail.dev"%string];
     mail_from := "alice@postbox.net";
     content := replicate (S (N.to_nat (max_email_size_bytes default_settings))) 120 |}.

(** The rank of a sequential scan: the rows come in table order. *)
Definition table_order (i : Inbox) : nat := 0.

(** ** Properties of the services *)

Section ServiceProofs.

Variable Entropy : Type.
Variable fernet_encrypt : Entropy -> list N -> list N.
Variable fernet_decrypt : list N -> option (list N).
Variable sanitize_html : list N -> list N.
Variable header_fetch_parse : string -> string -> Result string.
Variable parsebytes : list N -> Result Email.EmailMessage.
Variable settings : Settings.

Local Abbreviation encrypt := (encrypt Entropy fernet_encrypt).
Local Abbreviation decrypt := (decrypt fernet_decrypt).
Local Abbreviation encrypt_body := (encrypt_body Entropy fernet_encrypt).
Local Abbreviation encrypt_attachments := (encrypt_attachments Entropy fernet_encrypt).
Local Abbreviation store_message := (store_message Entropy fernet_encrypt sanitize_html).
Local Abbreviation process_message :=
  (process_message Entropy fernet_encrypt sanitize_html header_fetch_parse).
Local Abbreviation handle_DATA :=
  (handle_DATA Entropy fernet_encrypt sanitize_html header_fetch_parse parsebytes settings).

Lemma encrypt_ok (e : Entropy) (P bs : list N) :
  Utf8.encode P = Some bs ->
  encrypt e P = Ok (Base64.urlsafe_b64encode (fernet_encrypt e bs)).
Proof.
  intros HP. unfold encrypt. rewrite HP.
  destruct (Utf8.ascii_codec false _ (Base64.encode_ascii (fernet_encrypt e bs)))
    as [_ Hd].
  unfold Utf8.decode_strict. rewrite Hd. reflexivity.
Qed.

Lemma encrypt_raises (e : Entropy) (P : list N) :
  Utf8.encode P = None ->
  encrypt e P = Raise (EncryptionException "Encryption failed").
Proof. intros HP. unfold encrypt. rewrite HP. reflexivity. Qed.

Lemma decrypt_b64 (token : list N) :
  Base64.is_bytes token ->
  decrypt (Base64.urlsafe_b64encode token) =
  match fernet_decrypt token with
  | None => Raise (EncryptionException "Decryption failed")
  | Some decrypted =>
    match Utf8.decode_strict decrypted with
    | None => Raise (EncryptionException "Decryption failed")
    | Some s => Ok s
    end
  end.
Proof.
  intros Hb. unfold decrypt.
  destruct (Utf8.ascii_codec false _ (Base64.encode_ascii token)) as [He _].
  rewrite He, (Base64.b64decode_encode token Hb). reflexivity.
Qed.

Lemma decrypt_failure (C' : list N) :
  (exists p, decrypt C' = Ok p) \/
  decrypt C' = Raise (EncryptionException "Decryption failed").
Proof.
  unfold decrypt.
  destruct (Utf8.encode C'); [|auto].
  destruct (Base64.urlsafe_b64decode _); [|auto].
  destruct (fernet_decrypt _); [|auto].
  destruct (Utf8.decode_strict _); eauto.
Qed.

Lemma encrypt_attachments_rows (ent : nat -> Entropy) (mid : UUID)
    (atts : list Email.AttachmentData) :
  forall i rows,
    encrypt_attachments ent i mid atts = Ok rows ->
    length rows = length atts /\ Forall (fun a => att_message_id a = mid) rows.
Proof.
  induction atts as [|a atts IH]; intros i rows H; cbn [encrypt_attachments] in H.
  - inversion H. split; [reflexivity|constructor].
  - destruct (encrypt (ent i) (Email.att_content a)) as [c|]; [|discriminate].
    cbn [rbind] in H.
    destruct (encrypt_attachments ent (S i) mid atts) as [r|] eqn:Er; [|discriminate].
    cbn [rbind] in H. inversion H; subst. destruct (IH _ _ Er) as [Hl Hf].
    split; [cbn; lia|]. apply Forall_cons_2; [reflexivity|exact Hf].
Qed.

Lemma store_message_cases (ent : nat -> Entropy) (new_id : UUID) (d : DB)
    (iid : UUID) (sender subj : string) (bh bt : option (list N)) (raw : list N)
    (hs : gmap string string) (atts : list Email.AttachmentData) :
  match store_message ent new_id d iid sender subj bh bt raw hs atts with
  | (d', Ok m) =>
    stored d d' m (length atts) /\ msg_id m = new_id /\ msg_inbox_id m = iid /\
    is_Some (find_inbox d iid) /\ 0 < size_bytes m /\
    size_bytes m = N.of_nat (length raw) /\
    encrypt (ent 2%nat) (raw_email_str raw) = Ok (raw_email_encrypted m)
  | (d', Raise _) => d' = d
  end.
Proof.
  unfold store_message.
  destruct (encrypt_body (ent 0%nat) sanitize_html bh) as [he|]; [|reflexivity].
  cbn [rbind].
  destruct (encrypt_body (ent 1%nat) (fun x => x) bt) as [te|]; [|reflexivity].
  cbn [rbind].
  destruct (encrypt (ent 2%nat) (raw_email_str raw)) as [re|] eqn:Er; [|reflexivity].
  cbn [rbind]. unfold flush_message. cbn [msg_inbox_id size_bytes].
  destruct (find_inbox d iid) as [ib|] eqn:Ef; [|reflexivity].
  destruct (N.ltb_spec 0 (N.of_nat (length raw))) as [Hs|Hs]; [|reflexivity].
  cbn [rbind].
  destruct (encrypt_attachments ent 3 new_id atts) as [rows|] eqn:Ea; [|reflexivity].
  cbn [rbind]. unfold flush_attachments.
  destruct (forallb _ rows); [|reflexivity].
  cbn [rbind]. destruct (encrypt_attachments_rows ent new_id atts 3%nat rows Ea) as [Hl Hf].
  repeat split; eauto. exists rows. repeat split; assumption.
Qed.






(** The comparison in [get_inbox] is between a value with a tzinfo and one
    without: every row that is found ends the call with a TypeError. *)
Lemma get_inbox_outcome (d : DB) (t : Z) (iid : UUID) :
  get_inbox d t iid = match find_inbox d iid with
                      | Some _ => Raise TypeError
                      | None => Ok None
                      end.
Proof. unfold get_inbox. destruct (find_inbox d iid); reflexivity. Qed.

Lemma check_quota_outcome (d : DB) (t : Z) (iid : UUID) :
  check_quota settings d t iid =
  Raise (match find_inbox d iid with
         | Some _ => TypeError
         | None => InboxNotFoundException iid
         end).
Proof.
  unfold check_quota. rewrite get_inbox_outcome.
  destruct (find_inbox d iid); reflexivity.
Qed.

Lemma increment_outcome (w : World) (iid : UUID) :
  increment_message_count w iid =
  (w, Raise (match find_inbox (db w) iid with
             | Some _ => TypeError
             | None => InboxNotFoundException iid
             end)).
Proof.
  unfold increment_message_count. rewrite get_inbox_outcome.
  destruct (find_inbox (db w) iid); reflexivity.
Qed.





Lemma process_message_cases (ent : nat -> Entropy) (new_id : UUID) (w : World)
    (recipient sender : string) (message : Email.EmailMessage) (raw : list N) :
  let '(w', r) := process_message ent new_id w recipient sender message raw in
  (db w' = db w /\ returns r = false) \/
  exists iid, kv (redis w) !! ("inbox:" +:+ recipient) = Some iid /\
              persistence_outcome (db w) (db w') iid r.
Proof.
  unfold process_message, redis_get.
  destruct (failing (redis w) _); [auto|].
  destruct (kv (redis w) !! _) as [iid|] eqn:Hk; [|auto].
  destruct (String.eqb iid ""); [auto|].
  destruct (rbind (Email._extract_subject header_fetch_parse message) _)
    as [[[[subj [bh bt]] hs] atts]|]; [|auto].
  pose proof (store_message_cases ent new_id (db w) iid sender subj bh bt raw hs atts)
    as Hst.
  destruct (store_message _ _ _ _ _ _ _ _ _ _ _) as [d [m|x]] eqn:Est.
  2:{ subst d. left. split; reflexivity. }
  destruct Hst as (Hstored & _ & Hiid & _).
  rewrite increment_outcome. cbn [db emit set_db].
  right. exists iid. split; [reflexivity|].
  right. left. exists m, (length atts). auto.
Qed.




Lemma process_message_events (ent : nat -> Entropy) (new_id : UUID) (w : World)
    (recipient sender : string) (message : Email.EmailMessage) (raw : list N) :
  exists evs,
    events (process_message ent new_id w recipient sender message raw).1
    = events w ++ evs.
Proof.
  unfold process_message.
  destruct (redis_get _ _) as [[iid|]|]; try (exists []; cbn; rewrite app_nil_r; reflexivity).
  destruct (String.eqb iid ""); [exists []; cbn; rewrite app_nil_r; reflexivity|].
  destruct (rbind _ _) as [[[[subj [bh bt]] hs] atts]|];
    [|exists []; cbn; rewrite app_nil_r; reflexivity].
  destruct (store_message _ _ _ _ _ _ _ _ _ _ _) as [d [m|x]];
    [|exists []; cbn; rewrite app_nil_r; reflexivity].
  rewrite increment_outcome.
  exists [EvMessageReceived (size_bytes m)]. reflexivity.
Qed.

Lemma handle_DATA_validated (ent : nat -> Entropy) (new_id : UUID) (w : World)
    (env : Envelope) (rcpt : string) (rest : list string) :
  rcpt_tos env = rcpt :: rest ->
  _validate_recipient w (Email.lower rcpt) = true ->
  _check_inbox_quota settings w (Email.lower rcpt) = true ->
  handle_DATA ent new_id w env =
  if _max_message_size settings <? N.of_nat (length (content env)) then
    (emit (emit w EvConnection) (EvRejection "too_large"),
     "552 Message size exceeds maximum"%string)
  else
    let w1 := emit (emit w EvConnection) EvParse in
    match parsebytes (content env) with
    | Raise _ =>
      (emit w1 (EvRejection "parse_error"), "451 Error parsing message"%string)
    | Ok message =>
      match process_message ent new_id w1 (Email.lower rcpt) (mail_from env)
              message (content env) with
      | (w', Raise _) =>
        (emit w' (EvMessage "error"),
         "451 Requested action aborted: error in processing"%string)
      | (w', Ok _) =>
        (emit w' (EvMessage "accepted"), "250 Message accepted for delivery"%string)
      end
    end.
Proof.
  intros Hr Hv Hq. unfold handle_DATA. rewrite Hr.
  change (_validate_recipient (emit w EvConnection) (Email.lower rcpt))
    with (_validate_recipient w (Email.lower rcpt)).
  change (_check_inbox_quota settings (emit w EvConnection) (Email.lower rcpt))
    with (_check_inbox_quota settings w (Email.lower rcpt)).
  rewrite Hv, Hq. reflexivity.
Qed.

Lemma handle_DATA_redis_error (ent : nat -> Entropy) (new_id : UUID) (w : World)
    (env : Envelope) (rcpt : string) (rest : list string) :
  rcpt_tos env = rcpt :: rest ->
  failing (redis w) ("inbox:" +:+ Email.lower rcpt) = true ->
  handle_DATA ent new_id w env =
  (emit (emit w EvConnection) (EvRejection "invalid_recipient"),
   "550 Recipient not found or expired"%string).
Proof.
  intros Hr Hf. unfold handle_DATA. rewrite Hr.
  unfold _validate_recipient, redis_get. cbn [redis emit]. rewrite Hf. reflexivity.
Qed.


Lemma handle_DATA_oversize (ent : nat -> Entropy) (new_id : UUID) (w : World)
    (env : Envelope) :
  max_email_size_bytes settings < N.of_nat (length (content env)) ->
  exists reason response,
    handle_DATA ent new_id w env =
      (emit (emit w EvConnection) (EvRejection reason), response) /\
    response <> "250 Message accepted for delivery"%string.
Proof.
  intros Hlt. unfold handle_DATA.
  destruct (rcpt_tos env) as [|rcpt rest].
  { do 2 eexists. split; [reflexivity|discriminate]. }
  destruct (negb (_validate_recipient _ _)).
  { do 2 eexists. split; [reflexivity|discriminate]. }
  destruct (negb (_check_inbox_quota _ _ _)).
  { do 2 eexists. split; [reflexivity|discriminate]. }
  unfold _max_message_size. rewrite (proj2 (N.ltb_lt _ _) Hlt).
  do 2 eexists. split; [reflexivity|discriminate].
Qed.

Lemma check_quota_redis_error (w : World) (recipient : string) :
  failing (redis w) ("inbox:count:" +:+ recipient) = true ->
  _check_inbox_quota settings w recipient = true.
Proof.
  intros Hf. unfold _check_inbox_quota, redis_get. rewrite Hf. reflexivity.
Qed.

Lemma handle_DATA_responds (ent : nat -> Entropy) (new_id : UUID) (w : World)
    (env : Envelope) :
  (handle_DATA ent new_id w env).2 ∈ smtp_responses.
Proof.
  unfold handle_DATA, smtp_responses.
  destruct (rcpt_tos env) as [|rcpt rest]; [cbn; set_solver|].
  destruct (negb (_validate_recipient _ _)); [cbn; set_solver|].
  destruct (negb (_check_inbox_quota _ _ _)); [cbn; set_solver|].
  destruct (_ <? _); [cbn; set_solver|].
  destruct (parsebytes _); [|cbn; set_solver].
  destruct (process_message _ _ _ _ _ _ _) as [w' [u|x]]; cbn; set_solver.
Qed.

Lemma elem_of_filter_list {A} (f : A -> bool) (l : list A) (x : A) :
  x ∈ List.filter f l <-> x ∈ l /\ f x = true.
Proof. rewrite !list_elem_of_In. apply filter_In. Qed.

Lemma db_le_refl (d : DB) : db_le d d.
Proof. repeat split; auto. Qed.

Lemma db_le_trans (d1 d2 d3 : DB) : db_le d1 d2 -> db_le d2 d3 -> db_le d1 d3.
Proof. intros (A1 & B1 & C1) (A2 & B2 & C2). repeat split; auto. Qed.

Lemma cascade_le (d : DB) (id : UUID) : db_le (delete_inbox_cascade d id) d.
Proof.
  unfold delete_inbox_cascade. repeat split; cbn; intros x Hx;
    apply elem_of_filter_list in Hx as [Hx _]; exact Hx.
Qed.

Lemma cascade_reaped (d : DB) (id : UUID) : reaped d (delete_inbox_cascade d id) id.
Proof.
  unfold delete_inbox_cascade. repeat split; cbn.
  - intros i Hi. apply elem_of_filter_list in Hi as [_ Hi].
    apply negb_true_iff, String.eqb_neq in Hi. exact Hi.
  - intros m Hm. apply elem_of_filter_list in Hm as [_ Hm].
    apply negb_true_iff, String.eqb_neq in Hm. exact Hm.
  - intros a m Hm Hown Hatt Ha. apply elem_of_filter_list in Ha as [_ Ha].
    apply negb_true_iff in Ha. unfold attached_to in Ha.
    assert (Hex : existsb (fun m0 => String.eqb (msg_id m0) (att_message_id a))
                    (List.filter (owned_by id) (messages d)) = true).
    { apply existsb_exists. exists m. split.
      - apply list_elem_of_In, elem_of_filter_list. split; [exact Hm|].
        unfold owned_by. apply String.eqb_eq, Hown.
      - apply String.eqb_eq. symmetry. exact Hatt. }
    congruence.
Qed.

Lemma reaped_le (d0 d1 d2 : DB) (id : UUID) :
  reaped d0 d1 id -> db_le d2 d1 -> reaped d0 d2 id.
Proof.
  intros (A & B & C) (LA & LB & LC). repeat split.
  - intros i Hi. apply A, LA, Hi.
  - intros m Hm. apply B, LB, Hm.
  - intros a m Hm Ho Ha Hin. apply (C a m Hm Ho Ha), LC, Hin.
Qed.

Lemma cascade_all_le (l : list Inbox) : forall d, db_le (cascade_all l d) d.
Proof.
  induction l as [|x l IH]; intros d; cbn; [apply db_le_refl|].
  eapply db_le_trans; [apply IH|apply cascade_le].
Qed.

Lemma cascade_all_reaped (l : list Inbox) :
  forall d i, i ∈ l -> reaped d (cascade_all l d) (inbox_id i).
Proof.
  induction l as [|x l IH]; intros d i Hi; [apply elem_of_nil in Hi; contradiction|].
  cbn [cascade_all fold_left]. fold (cascade_all l (delete_inbox_cascade d (inbox_id x))).
  set (d1 := delete_inbox_cascade d (inbox_id x)).
  apply elem_of_cons in Hi as [->|Hi].
  - eapply reaped_le; [apply cascade_reaped|apply cascade_all_le].
  - destruct (IH d1 i Hi) as (A & B & C). repeat split; [exact A|exact B|].
    intros a m Hm Hown Hatt.
    destruct (owned_by (inbox_id x) m) eqn:Ex.
    + (* deleted together with its owner at this step *)
      unfold owned_by in Ex. apply String.eqb_eq in Ex.
      destruct (cascade_reaped d (inbox_id x)) as (_ & _ & C1).
      intros Hin. apply (C1 a m Hm Ex Hatt).
      destruct (cascade_all_le l d1) as (_ & _ & LC). apply LC, Hin.
    + apply (C a m); [|exact Hown|exact Hatt].
      unfold d1, delete_inbox_cascade. cbn. apply elem_of_filter_list.
      split; [exact Hm|]. rewrite Ex. reflexivity.
Qed.

Lemma delete_keys_failing (r : Redis) (inbox : Inbox) :
  failing (delete_redis_keys r inbox).1 = failing r.
Proof.
  unfold delete_redis_keys, redis_delete.
  repeat (match goal with |- context [if ?b then _ else _] => destruct b end; cbn);
    reflexivity.
Qed.

Lemma delete_keys_none (r : Redis) (inbox : Inbox) (k : string) :
  kv r !! k = None -> kv (delete_redis_keys r inbox).1 !! k = None.
Proof.
  intros H. unfold delete_redis_keys, redis_delete.
  repeat (match goal with |- context [if ?b then _ else _] => destruct b end; cbn);
    repeat (apply lookup_delete_None; right); exact H.
Qed.

Lemma delete_keys_done (r : Redis) (inbox : Inbox) :
  keys_available r inbox ->
  (delete_redis_keys r inbox).2 = Ok tt /\
  keys_deleted (delete_redis_keys r inbox).1 inbox.
Proof.
  intros Hav. unfold delete_redis_keys, redis_delete, keys_deleted, redis_keys.
  rewrite (Hav ("inbox:" +:+ address inbox)) by set_solver. cbn.
  rewrite (Hav ("inbox:id:" +:+ inbox_id inbox)) by (unfold redis_keys; set_solver). cbn.
  rewrite (Hav ("inbox:count:" +:+ address inbox)) by (unfold redis_keys; set_solver). cbn.
  split; [reflexivity|]. intros k Hk.
  rewrite !lookup_delete_None.
  repeat (apply elem_of_cons in Hk as [->|Hk]; [auto|]).
  apply elem_of_nil in Hk. contradiction.
Qed.

Lemma delete_all_failing (l : list Inbox) :
  forall r, failing (delete_all_keys l r) = failing r.
Proof.
  induction l as [|x l IH]; intros r; cbn; [reflexivity|].
  fold (delete_all_keys l (delete_redis_keys r x).1).
  rewrite IH. apply delete_keys_failing.
Qed.

Lemma delete_all_none (l : list Inbox) :
  forall r k, kv r !! k = None -> kv (delete_all_keys l r) !! k = None.
Proof.
  induction l as [|x l IH]; intros r k H; cbn; [exact H|].
  apply IH, delete_keys_none, H.
Qed.

Lemma delete_all_done (l : list Inbox) :
  forall r i, i ∈ l -> keys_available r i -> keys_deleted (delete_all_keys l r) i.
Proof.
  induction l as [|x l IH]; intros r i Hi Hav; [apply elem_of_nil in Hi; contradiction|].
  cbn [delete_all_keys fold_left]. fold (delete_all_keys l (delete_redis_keys r x).1).
  apply elem_of_cons in Hi as [->|Hi].
  - destruct (delete_keys_done r x Hav) as [_ Hd].
    intros k Hk. apply delete_all_none, Hd, Hk.
  - apply IH; [exact Hi|]. intros k Hk. rewrite delete_keys_failing. apply Hav, Hk.
Qed.

Lemma cleanup_fold (l : list Inbox) :
  forall r d evs,
    exists evs',
      fold_left cleanup_step l (r, d, evs) =
      (delete_all_keys l r, cascade_all l d, evs').
Proof.
  induction l as [|x l IH]; intros r d evs; cbn [fold_left]; [eauto|].
  unfold cleanup_step at 2.
  destruct (delete_redis_keys r x) as [r' res] eqn:E.
  destruct (IH r' (delete_inbox_cascade d (inbox_id x))
              (evs ++ [EvInboxExpired (length (messages_of d (inbox_id x)))]))
    as [evs' ->].
  exists evs'. cbn [delete_all_keys cascade_all fold_left]. rewrite E. reflexivity.
Qed.

Lemma insert_by_perm {A} (rank : A -> nat) (x : A) (l : list A) :
  insert_by rank x l ≡ₚ x :: l.
Proof.
  induction l as [|y l IH]; cbn [insert_by]; [reflexivity|].
  destruct (rank x <=? rank y)%nat; [reflexivity|].
  rewrite IH. apply Permutation_swap.
Qed.

(** The plan decides the order of the rows, not which rows there are. *)
Lemma scan_perm {A} (rank : A -> nat) (l : list A) : scan rank l ≡ₚ l.
Proof.
  induction l as [|x l IH]; cbn [scan fold_right]; [reflexivity|].
  fold (scan rank l). rewrite insert_by_perm, IH. reflexivity.
Qed.

Lemma expired_inboxes_expired (rank : Inbox -> nat) (w : World) (inbox : Inbox) :
  inbox ∈ expired_inboxes settings rank w ->
  inbox ∈ inboxes (db w) /\ (expires_at inbox < now w)%Z.
Proof.
  unfold expired_inboxes. intros H. apply subseteq_take in H.
  rewrite scan_perm in H.
  apply elem_of_filter_list in H as [Hin Hexp]. split; [exact Hin|].
  apply Z.ltb_lt, Hexp.
Qed.

Lemma run_cleanup_reaps (rank : Inbox -> nat) (w : World) :
  exists w', _run_cleanup settings rank w = (w', Ok tt) /\
    forall inbox, inbox ∈ expired_inboxes settings rank w ->
      (expires_at inbox < now w)%Z /\
      reaped (db w) (db w') (inbox_id inbox) /\
      (keys_available (redis w) inbox -> keys_deleted (redis w') inbox).
Proof.
  unfold _run_cleanup.
  destruct (cleanup_fold (expired_inboxes settings rank w) (redis w) (db w) (events w))
    as [evs' ->].
  eexists. split; [reflexivity|]. cbn [redis db].
  intros inbox Hin. split; [apply (expired_inboxes_expired rank w inbox Hin)|].
  split; [apply cascade_all_reaped, Hin|].
  intros Hav. apply delete_all_done; assumption.
Qed.



(** C2, as amended.  [store_message] commits the message row and its
    attachment rows in one transaction, all of them or none.  The counter
    is incremented in a second transaction after that one: a run of
    [process_message] leaves the database untouched, or with the message
    committed and the counter not (the increment failed), or with both
    committed; the counter is never incremented without the message. *)
Theorem message_then_counter (ent : nat -> Entropy) (new_id : UUID) (w : World)
    (recipient sender : string) (message : Email.EmailMessage) (raw : list N) :
  (forall d iid subj bh bt hs atts,
     match store_message ent new_id d iid sender subj bh bt raw hs atts with
     | (d', Ok m) => stored d d' m (length atts)
     | (d', Raise _) => d' = d
     end) /\
  (let '(w', r) := process_message ent new_id w recipient sender message raw in
   (db w' = db w /\ returns r = false) \/
   exists iid, kv (redis w) !! ("inbox:" +:+ recipient) = Some iid /\
               persistence_outcome (db w) (db w') iid r).
Proof.
  split.
  - intros d iid subj bh bt hs atts.
    pose proof (store_message_cases ent new_id d iid sender subj bh bt raw hs atts) as H.
    destruct (store_message _ _ _ _ _ _ _ _ _ _ _) as [d' [m|x]]; [|exact H].
    exact (proj1 H).
  - pose proof (process_message_cases ent new_id w recipient sender message raw) as H.
    destruct (process_message ent new_id w recipient sender message raw) as [w' r].
    exact H.
Qed.

(** C4, where the code departs from the claim.  Take a mail whose only
    header field is [To: <], delivered to a recipient that passes the
    recipient, quota and size checks.  Reading the field raises IndexError
    and [_extract_headers] catches nothing, so the extraction stops there,
    although the body and the attachments of the same message are extracted
    without an exception; [process_message] raises before anything is
    stored and the handler answers 451 for the whole mail. *)
Theorem malformed_header_aborts_delivery (ent : nat -> Entropy) (new_id : UUID)
    (w : World) (env : Envelope) (rcpt : string) (rest : list string) :
  header_fetch_parse "To"%string "<"%string = Raise IndexError ->
  rcpt_tos env = rcpt :: rest ->
  _validate_recipient w (Email.lower rcpt) = true ->
  _check_inbox_quota settings w (Email.lower rcpt) = true ->
  N.of_nat (length (content env)) <= max_email_size_bytes settings ->
  parsebytes (content env) = Ok Email.malformed_to_message ->
  Email._extract_headers header_fetch_parse Email.malformed_to_message
    = Raise IndexError /\
  (exists bodies attachments,
     Email._extract_bodies Email.malformed_to_message = Ok bodies /\
     Email._extract_attachments Email.malformed_to_message = Ok attachments) /\
  (forall w2 recipient iid,
     redis_get (redis w2) ("inbox:" +:+ recipient) = Ok (Some iid) -> iid <> ""%string ->
     process_message ent new_id w2 recipient (mail_from env)
       Email.malformed_to_message (content env) = (w2, Raise IndexError)) /\
  handle_DATA ent new_id w env =
    (emit (emit (emit w EvConnection) EvParse) (EvMessage "error"),
     "451 Requested action aborted: error in processing"%string).
Proof.
  intros Hf Hr Hv Hq Hsize Hparse.
  pose proof (Email.extract_headers_malformed_to header_fetch_parse Hf) as Hhs.
  assert (Hp : forall w2 recipient iid,
             redis_get (redis w2) ("inbox:" +:+ recipient) = Ok (Some iid) ->
             iid <> ""%string ->
             process_message ent new_id w2 recipient (mail_from env)
               Email.malformed_to_message (content env) = (w2, Raise IndexError)).
  { intros w2 recipient iid Hget Hne. unfold process_message. rewrite Hget.
    apply String.eqb_neq in Hne. rewrite Hne.
    change (Email._extract_subject header_fetch_parse Email.malformed_to_message)
      with (Ok ""%string : Result string).
    change (Email._extract_bodies Email.malformed_to_message)
      with (Ok (None, Some [104; 105]) : Result (option (list N) * option (list N))).
    cbn [rbind]. rewrite Hhs. reflexivity. }
  split; [exact Hhs|]. split; [|split; [exact Hp|]].
  { do 2 eexists. split; reflexivity. }
  rewrite (handle_DATA_validated ent new_id w env rcpt rest Hr Hv Hq).
  unfold _max_message_size. rewrite (proj2 (N.ltb_ge _ _) Hsize). cbv zeta.
  rewrite Hparse.
  unfold _validate_recipient in Hv.
  change (redis w) with (redis (emit (emit w EvConnection) EvParse)) in Hv.
  destruct (redis_get (redis (emit (emit w EvConnection) EvParse))
              ("inbox:" +:+ Email.lower rcpt)) as [[iid|]|] eqn:Hget;
    try discriminate Hv.
  destruct (String.eqb_spec iid "") as [->|Hne].
  - unfold process_message. rewrite Hget. reflexivity.
  - rewrite (Hp _ _ iid Hget Hne). reflexivity.
Qed.

(** C7, as amended.  When the Fast Index lookup of the recipient raises,
    the delivery is turned away with 550 and nothing else happens: the
    Durable Store is not consulted.  A failing lookup of the counter lets
    the quota check pass.  In every case the handler answers with one of
    its SMTP responses. *)
Theorem recipient_check_fails_closed (ent : nat -> Entropy) (new_id : UUID)
    (w : World) (env : Envelope) (rcpt : string) (rest : list string) :
  rcpt_tos env = rcpt :: rest ->
  failing (redis w) ("inbox:" +:+ Email.lower rcpt) = true ->
  handle_DATA ent new_id w env =
    (emit (emit w EvConnection) (EvRejection "invalid_recipient"),
     "550 Recipient not found or expired"%string) /\
  (forall w2 recipient,
     failing (redis w2) ("inbox:count:" +:+ recipient) = true ->
     _check_inbox_quota settings w2 recipient = true) /\
  (forall ent2 id2 w2 env2, (handle_DATA ent2 id2 w2 env2).2 ∈ smtp_responses).
Proof.
  intros Hr Hf. split; [|split].
  - eapply handle_DATA_redis_error; eassumption.
  - apply check_quota_redis_error.
  - apply handle_DATA_responds.
Qed.

(** C8.  For a delivery that has passed the recipient and the quota check:
    with a content of exactly the maximum size the handler goes on to
    parse it and does not answer with the oversize response; with a
    content of one byte more, or more, it answers with the oversize
    response and the parser is not called.  Whatever the earlier checks
    say, a content above the maximum is turned away without being
    parsed. *)
Theorem size_check_boundary (ent : nat -> Entropy) (new_id : UUID) (w : World)
    (env : Envelope) (rcpt : string) (rest : list string) :
  rcpt_tos env = rcpt :: rest ->
  _validate_recipient w (Email.lower rcpt) = true ->
  _check_inbox_quota settings w (Email.lower rcpt) = true ->
  (N.of_nat (length (content env)) = max_email_size_bytes settings ->
   (exists evs, events (handle_DATA ent new_id w env).1
                = events w ++ EvConnection :: EvParse :: evs) /\
   (handle_DATA ent new_id w env).2 <> "552 Message size exceeds maximum"%string) /\
  (max_email_size_bytes settings < N.of_nat (length (content env)) ->
   handle_DATA ent new_id w env =
     (emit (emit w EvConnection) (EvRejection "too_large"),
      "552 Message size exceeds maximum"%string)) /\
  (forall ent2 id2 w2 env2,
     max_email_size_bytes settings < N.of_nat (length (content env2)) ->
     exists reason response,
       handle_DATA ent2 id2 w2 env2 =
         (emit (emit w2 EvConnection) (EvRejection reason), response) /\
       response <> "250 Message accepted for delivery"%string).
Proof.
  intros Hr Hv Hq. rewrite (handle_DATA_validated ent new_id w env rcpt rest Hr Hv Hq).
  unfold _max_message_size. split; [|split].
  - intros Heq. rewrite (proj2 (N.ltb_ge _ _)) by lia. cbn zeta.
    destruct (parsebytes (content env)) as [message|x].
    2:{ split; [|discriminate]. eexists. cbn. rewrite <- !app_assoc. reflexivity. }
    destruct (process_message_events ent new_id
                (emit (emit w EvConnection) EvParse) (Email.lower rcpt)
                (mail_from env) message (content env)) as [evs Hev].
    destruct (process_message _ _ _ _ _ _ _) as [w' [u|x]]; cbn [fst snd] in *;
      (split; [|discriminate]); eexists; cbn [emit events] in *; rewrite Hev;
      cbn [emit events]; rewrite <- !app_assoc; reflexivity.
  - intros Hlt. rewrite (proj2 (N.ltb_lt _ _)) by exact Hlt. reflexivity.
  - intros ent2 id2 w2 env2. apply handle_DATA_oversize.
Qed.

(** C9.  A cleanup cycle returns normally, and for each inbox it selected
    (all of them past their expiry) the inbox row is gone, with every
    message of the inbox and every attachment of those messages, and the
    three Fast Index keys of the inbox are gone when the commands on them
    do not fail.  A Redis failure while one inbox is processed leaves the
    other inboxes of the batch to be reaped in full. *)
Theorem cleanup_reaps_batch (rank : Inbox -> nat) (w : World) :
  exists w', _run_cleanup settings rank w = (w', Ok tt) /\
    forall inbox, inbox ∈ expired_inboxes settings rank w ->
      (expires_at inbox < now w)%Z /\
      reaped (db w) (db w') (inbox_id inbox) /\
      (keys_available (redis w) inbox -> keys_deleted (redis w') inbox).
Proof. apply run_cleanup_reaps. Qed.


(** *** What rests on Fernet *)

Section Fernet.

(** Fernet decrypts what it encrypted, and its tokens are byte strings. *)
Hypothesis fernet_roundtrip :
  forall e p, Base64.is_bytes p -> fernet_decrypt (fernet_encrypt e p) = Some p.
Hypothesis fernet_token_bytes :
  forall e p, Base64.is_bytes p -> Base64.is_bytes (fernet_encrypt e p).

Lemma decrypt_encrypt (e : Entropy) (P bs : list N) :
  Utf8.encode P = Some bs ->
  exists C, encrypt e P = Ok C /\ decrypt C = Ok P.
Proof.
  intros HP. eexists. split; [apply encrypt_ok, HP|].
  pose proof (Utf8.encode_bytes P bs HP) as Hbs.
  rewrite decrypt_b64 by (apply fernet_token_bytes, Hbs).
  rewrite fernet_roundtrip by exact Hbs.
  unfold Utf8.decode_strict. rewrite (Utf8.decode_encode false P bs HP). reflexivity.
Qed.

(** A corruption in the bits that the base64 decoder does not read. *)
Lemma slack_corruption_accepted (e : Entropy) (P bs pre : list N) (a : N) (k : nat) :
  Utf8.encode P = Some bs ->
  fernet_encrypt e bs = pre ++ [a] -> length pre = (3 * k)%nat ->
  exists C C', encrypt e P = Ok C /\ Base64.single_byte_corruption C C' /\
               decrypt C' = Ok P.
Proof.
  intros HP Htok Hk.
  pose proof (Utf8.encode_bytes P bs HP) as Hbs.
  pose proof (fernet_token_bytes e bs Hbs) as Htb. rewrite Htok in Htb.
  apply Forall_app in Htb as [Hpre Ha]. inversion Ha as [|? ? Ha' _]; subst.
  destruct (Base64.slack_undetected k pre a Hk Hpre Ha') as (C' & Hc & HasciiC' & Hd).
  exists (Base64.urlsafe_b64encode (fernet_encrypt e bs)), C'.
  split; [apply encrypt_ok, HP|]. rewrite Htok. split; [exact Hc|].
  unfold decrypt.
  destruct (Utf8.ascii_codec false C' HasciiC') as [He _].
  rewrite He, Hd, <- Htok, fernet_roundtrip by exact Hbs.
  unfold Utf8.decode_strict. rewrite (Utf8.decode_encode false P bs HP). reflexivity.
Qed.

Lemma raw_email_encrypts (e : Entropy) (raw : list N) :
  exists c, encrypt e (raw_email_str raw) = Ok c /\
            decrypt c = Ok (Utf8.decode_replace raw).
Proof.
  destruct (Utf8.decode_replace_total raw) as (bs & _ & Hbs).
  apply (decrypt_encrypt e _ bs Hbs).
Qed.

(** C3, as amended.  For every plaintext that has a UTF-8 encoding,
    decrypt(encrypt(P)) = P; [decrypt] fails with EncryptionException and
    with nothing else; and when the Fernet token has a length of 3k+1, so
    that its base64 text ends in "==", a ciphertext with one character
    changed in the bits that the base64 decoder does not read is accepted
    and decrypts to P. *)
Theorem encrypt_decrypt_roundtrip :
  (forall e P, is_Some (Utf8.encode P) ->
     exists C, encrypt e P = Ok C /\ decrypt C = Ok P) /\
  (forall C', (exists p, decrypt C' = Ok p) \/
              decrypt C' = Raise (EncryptionException "Decryption failed")) /\
  (forall e P bs pre a k,
     Utf8.encode P = Some bs ->
     fernet_encrypt e bs = pre ++ [a] -> length pre = (3 * k)%nat ->
     exists C C', encrypt e P = Ok C /\ Base64.single_byte_corruption C C' /\
                  decrypt C' = Ok P).
Proof.
  split; [|split].
  - intros e P [bs Hbs]. eapply decrypt_encrypt, Hbs.
  - apply decrypt_failure.
  - intros e P bs pre a k. apply slack_corruption_accepted.
Qed.

(** C10.  What is stored as the raw copy is the encryption of
    raw_email.decode('utf-8', errors='replace'): decrypting the column of
    a stored message gives that string.  Encoding it gives the original
    bytes back exactly when they were valid UTF-8; mails that differ only
    in invalid bytes are stored as the same text. *)
Theorem raw_copy_is_lossy (raw : list N) :
  (forall ent new_id d iid sender subj bh bt hs atts d' m,
     store_message ent new_id d iid sender subj bh bt raw hs atts = (d', Ok m) ->
     decrypt (raw_email_encrypted m) = Ok (Utf8.decode_replace raw)) /\
  (Utf8.encode (Utf8.decode_replace raw) = Some raw <-> Utf8.valid raw = true) /\
  (Utf8.decode_replace [0x61; 0xFF] = Utf8.decode_replace [0x61; 0xFE]).
Proof.
  split; [|split].
  - intros ent new_id d iid sender subj bh bt hs atts d' m Hst.
    pose proof (store_message_cases ent new_id d iid sender subj bh bt raw hs atts) as H.
    rewrite Hst in H. destruct H as (_ & _ & _ & _ & _ & _ & He).
    destruct (raw_email_encrypts (ent 2%nat) raw) as (c & Hc & Hd).
    rewrite Hc in He. inversion He; subst. exact Hd.
  - apply Utf8.encode_decode_replace_iff.
  - reflexivity.
Qed.

End Fernet.

End ServiceProofs.

(** ** The properties on concrete inputs *)

(** A delivery to a live inbox: the message is committed, the increment
    raises, the handler answers 451 and the durable counter stays at 0. *)
Example demo_delivery :
  let out := handle_DATA NullFernet.Entropy NullFernet.encrypt demo_sanitize
               Email.demo_fetch demo_parse default_settings demo_ent demo_new_id
               (demo_world 0 2000 false) demo_envelope in
  out.2 = "451 Requested action aborted: error in processing"%string /\
  count_of (db out.1) demo_id = Some 0%Z /\
  length (messages (db out.1)) = 1%nat.
Proof. vm_compute. repeat split. Qed.

(** The durable counter stands at the quota and the Fast Index has no
    counter for the address: the delivery passes admission and the message
    is committed all the same. *)
Example demo_delivery_over_quota :
  let out := handle_DATA NullFernet.Entropy NullFernet.encrypt demo_sanitize
               Email.demo_fetch demo_parse default_settings demo_ent demo_new_id
               (demo_world 50 2000 false) demo_envelope in
  out.2 = "451 Requested action aborted: error in processing"%string /\
  count_of (db out.1) demo_id = Some 50%Z /\
  length (messages (db out.1)) = 1%nat.
Proof. vm_compute. repeat split. Qed.

Example demo_roundtrip :
  rbind (encrypt NullFernet.Entropy NullFernet.encrypt (3, 5) [104; 233; 8364])
        (decrypt NullFernet.decrypt)
  = Ok [104; 233; 8364].
Proof. vm_compute. reflexivity. Qed.



(** C2, counterexample.  The inbox is in the Durable Store and its Fast
    Index key is there: the message row is committed, the increment raises
    and the counter stays at 3. *)
Lemma message_without_counter :
  ~ single_transaction NullFernet.Entropy NullFernet.encrypt demo_sanitize
      Email.demo_fetch.
Proof.
  intros H.
  pose (out := process_message NullFernet.Entropy NullFernet.encrypt demo_sanitize
                 Email.demo_fetch demo_ent demo_new_id (demo_world 3 500 false)
                 demo_address "alice@postbox.net" demo_message [104; 105]).
  assert (Hm : exists m, messages (db out.1) = [m] /\ msg_inbox_id m = demo_id /\
                         count_of (db out.1) demo_id = Some 3%Z).
  { vm_compute. eexists. repeat split. }
  destruct Hm as (m & Hm & Hid & Hc).
  destruct (H demo_ent demo_new_id (demo_world 3 500 false) demo_address
              "alice@postbox.net"%string demo_message [104; 105] m)
    as (c & H1 & H2).
  - fold out. rewrite Hm. apply elem_of_cons. auto.
  - cbn. apply not_elem_of_nil.
  - fold out in H2. rewrite Hid in H1, H2. rewrite Hc in H2.
    vm_compute in H1. inversion H1; subst. discriminate H2.
Qed.

(** C4 at the failing input: the mail [To: <], delivered to a live
    inbox. *)
Lemma malformed_header_aborts_delivery_witness :
  Email._extract_headers Email.demo_fetch Email.malformed_to_message
    = Raise IndexError /\
  (exists bodies attachments,
     Email._extract_bodies Email.malformed_to_message = Ok bodies /\
     Email._extract_attachments Email.malformed_to_message = Ok attachments) /\
  (forall w2 recipient iid,
     redis_get (redis w2) ("inbox:" +:+ recipient) = Ok (Some iid) -> iid <> ""%string ->
     process_message NullFernet.Entropy NullFernet.encrypt demo_sanitize
       Email.demo_fetch demo_ent demo_new_id w2 recipient
       (mail_from malformed_to_envelope)
       Email.malformed_to_message (content malformed_to_envelope)
     = (w2, Raise IndexError)) /\
  handle_DATA NullFernet.Entropy NullFernet.encrypt demo_sanitize Email.demo_fetch
    demo_parse_fields default_settings demo_ent demo_new_id
    (demo_world 0 2000 false) malformed_to_envelope =
    (emit (emit (emit (demo_world 0 2000 false) EvConnection) EvParse)
       (EvMessage "error"),
     "451 Requested action aborted: error in processing"%string).
Proof.
  apply (malformed_header_aborts_delivery NullFernet.Entropy NullFernet.encrypt
           demo_sanitize Email.demo_fetch demo_parse_fields default_settings
           demo_ent demo_new_id (demo_world 0 2000 false) malformed_to_envelope
           "TMP_K3V9X2@tempmail.dev" []).
  - reflexivity.
  - reflexivity.
  - vm_compute. reflexivity.
  - vm_compute. reflexivity.
  - vm_compute. discriminate.
  - reflexivity.
Defined.

(** The amended C3 with the stand-in cipher, which meets what is assumed
    of Fernet. *)
Lemma encrypt_decrypt_roundtrip_witness :
  (forall e P, is_Some (Utf8.encode P) ->
     exists C, encrypt NullFernet.Entropy NullFernet.encrypt e P = Ok C /\
               decrypt NullFernet.decrypt C = Ok P) /\
  (forall C', (exists p, decrypt NullFernet.decrypt C' = Ok p) \/
              decrypt NullFernet.decrypt C'
              = Raise (EncryptionException "Decryption failed")) /\
  (forall e P bs pre a k,
     Utf8.encode P = Some bs ->
     NullFernet.encrypt e bs = pre ++ [a] -> length pre = (3 * k)%nat ->
     exists C C', encrypt NullFernet.Entropy NullFernet.encrypt e P = Ok C /\
                  Base64.single_byte_corruption C C' /\
                  decrypt NullFernet.decrypt C' = Ok P).
Proof.
  apply (encrypt_decrypt_roundtrip NullFernet.Entropy NullFernet.encrypt
           NullFernet.decrypt).
  - exact NullFernet.roundtrip.
  - intros e p _. apply NullFernet.token_is_bytes.
Defined.

(** C3, counterexample.  The token for a two-character plaintext has 100
    characters, its base64 text 136, ending in "PQ=="; with the Q at
    index 133 changed to R the text decodes to the same token and
    [decrypt] returns the plaintext. *)
Lemma slack_bits_not_detected :
  ~ tamper_detected NullFernet.Entropy NullFernet.encrypt NullFernet.decrypt.
Proof.
  intros H.
  pose (C := Base64.urlsafe_b64encode (NullFernet.encrypt (0, 0) [104; 105])).
  assert (HC : encrypt NullFernet.Entropy NullFernet.encrypt (0, 0) [104; 105] = Ok C).
  { vm_compute. reflexivity. }
  assert (Hcorr : Base64.single_byte_corruption C (<[133%nat := 82]> C)).
  { exists 133%nat, 81, 82. split; [vm_compute; reflexivity|].
    split; [discriminate|reflexivity]. }
  specialize (H (0, 0) [104; 105] C (<[133%nat := 82]> C) HC Hcorr).
  vm_compute in H. discriminate H.
Qed.

(** The amended C7 with the Fast Index down. *)
Lemma recipient_check_fails_closed_witness :
  handle_DATA NullFernet.Entropy NullFernet.encrypt demo_sanitize Email.demo_fetch
    demo_parse default_settings demo_ent demo_new_id (demo_world 0 2000 true)
    demo_envelope
  = (emit (emit (demo_world 0 2000 true) EvConnection)
          (EvRejection "invalid_recipient"),
     "550 Recipient not found or expired"%string) /\
  (forall w2 recipient,
     failing (redis w2) ("inbox:count:" +:+ recipient) = true ->
     _check_inbox_quota default_settings w2 recipient = true) /\
  (forall ent2 id2 w2 env2,
     (handle_DATA NullFernet.Entropy NullFernet.encrypt demo_sanitize Email.demo_fetch
        demo_parse default_settings ent2 id2 w2 env2).2 ∈ smtp_responses).
Proof.
  apply (recipient_check_fails_closed NullFernet.Entropy NullFernet.encrypt
           demo_sanitize Email.demo_fetch demo_parse default_settings demo_ent
           demo_new_id
           (demo_world 0 2000 true) demo_envelope
           "TMP_K3V9X2@tempmail.dev" []).
  - reflexivity.
  - reflexivity.
Defined.

(** C7, counterexample.  The inbox is in the Durable Store, unexpired, and
    every Redis command fails: the delivery is answered with 550. *)
Lemma redis_down_rejects_known_recipient :
  ~ fast_index_failure_tolerated NullFernet.Entropy NullFernet.encrypt
      demo_sanitize Email.demo_fetch demo_parse default_settings.
Proof.
  intros H.
  apply (H demo_ent demo_new_id (demo_world 0 2000 true) demo_envelope
           "TMP_K3V9X2@tempmail.dev"%string [] (demo_inbox 0 2000)).
  - reflexivity.
  - cbn. apply elem_of_cons. auto.
  - vm_compute. reflexivity.
  - cbn. lia.
  - intros k. reflexivity.
  - vm_compute. reflexivity.
Qed.

(** C8 on both sides of the boundary, for deliveries that pass the
    recipient and the quota check: a mail of exactly the maximum size
    (10485760 bytes) goes on to the parser, a mail of one byte more is
    turned away. *)
Lemma size_check_boundary_witness :
  (N.of_nat (length (content largest_envelope)) = max_email_size_bytes default_settings /\
   (exists evs,
      events (handle_DATA NullFernet.Entropy NullFernet.encrypt demo_sanitize
                Email.demo_fetch demo_parse default_settings demo_ent demo_new_id
                (demo_world 0 2000 false) largest_envelope).1
      = events (demo_world 0 2000 false) ++ EvConnection :: EvParse :: evs) /\
   (handle_DATA NullFernet.Entropy NullFernet.encrypt demo_sanitize Email.demo_fetch
      demo_parse default_settings demo_ent demo_new_id (demo_world 0 2000 false)
      largest_envelope).2 <> "552 Message size exceeds maximum"%string) /\
  (max_email_size_bytes default_settings
     < N.of_nat (length (content oversize_envelope)) /\
   handle_DATA NullFernet.Entropy NullFernet.encrypt demo_sanitize Email.demo_fetch
     demo_parse default_settings demo_ent demo_new_id (demo_world 0 2000 false)
     oversize_envelope
   = (emit (emit (demo_world 0 2000 false) EvConnection) (EvRejection "too_large"),
      "552 Message size exceeds maximum"%string)).
Proof.
  assert (Hexact : N.of_nat (length (content largest_envelope))
                   = max_email_size_bytes default_settings).
  { unfold largest_envelope. cbn [content].
    rewrite length_replicate. apply N2Nat.id. }
  assert (Hover : max_email_size_bytes default_settings
                  < N.of_nat (length (content oversize_envelope))).
  { unfold oversize_envelope. cbn [content].
    rewrite length_replicate, Nat2N.inj_succ, N2Nat.id. apply N.lt_succ_diag_r. }
  assert (Hv : _validate_recipient (demo_world 0 2000 false)
                 (Email.lower "TMP_K3V9X2@tempmail.dev") = true).
  { vm_compute. reflexivity. }
  assert (Hq : _check_inbox_quota default_settings (demo_world 0 2000 false)
                 (Email.lower "TMP_K3V9X2@tempmail.dev") = true).
  { vm_compute. reflexivity. }
  split.
  - split; [exact Hexact|].
    exact (proj1 (size_check_boundary NullFernet.Entropy NullFernet.encrypt
                    demo_sanitize Email.demo_fetch demo_parse default_settings
                    demo_ent demo_new_id (demo_world 0 2000 false) largest_envelope
                    "TMP_K3V9X2@tempmail.dev" [] eq_refl Hv Hq) Hexact).
  - split; [exact Hover|].
    exact (proj1 (proj2 (size_check_boundary NullFernet.Entropy NullFernet.encrypt
                    demo_sanitize Email.demo_fetch demo_parse default_settings
                    demo_ent demo_new_id (demo_world 0 2000 false) oversize_envelope
                    "TMP_K3V9X2@tempmail.dev" [] eq_refl Hv Hq)) Hover).
Defined.

(** C10 with the stand-in cipher, for a mail with an invalid byte. *)
Lemma raw_copy_is_lossy_witness :
  (forall ent new_id d iid sender subj bh bt hs atts d' m,
     store_message NullFernet.Entropy NullFernet.encrypt demo_sanitize
       ent new_id d iid sender subj bh bt [0x61; 0xFF] hs atts = (d', Ok m) ->
     decrypt NullFernet.decrypt (raw_email_encrypted m)
     = Ok (Utf8.decode_replace [0x61; 0xFF])) /\
  (Utf8.encode (Utf8.decode_replace [0x61; 0xFF]) = Some [0x61; 0xFF]
   <-> Utf8.valid [0x61; 0xFF] = true) /\
  (Utf8.decode_replace [0x61; 0xFF] = Utf8.decode_replace [0x61; 0xFE]).
Proof.
  apply (raw_copy_is_lossy NullFernet.Entropy NullFernet.encrypt NullFernet.decrypt
           demo_sanitize).
  - exact NullFernet.roundtrip.
  - intros e p _. apply NullFernet.token_is_bytes.
Defined.

(** The raw copy of a mail with an invalid byte does not give the mail
    back. *)
Example demo_raw_copy_lost :
  Utf8.valid [0x61; 0xFF] = false /\
  Utf8.encode (Utf8.decode_replace [0x61; 0xFF]) = Some [0x61; 0xEF; 0xBF; 0xBD].
Proof. vm_compute. split; reflexivity. Qed.

(** A cleanup cycle on an expired inbox with a stored message. *)
Example demo_cleanup :
  let w := (process_message NullFernet.Entropy NullFernet.encrypt demo_sanitize
              Email.demo_fetch demo_ent demo_new_id (demo_world 0 500 false)
              demo_address "alice@postbox.net" demo_message [104; 105]).1 in
  length (messages (db w)) = 1%nat /\
  let w' := (_run_cleanup default_settings table_order w).1 in
  inboxes (db w') = [] /\ messages (db w') = [] /\ kv (redis w') = ∅.
Proof. vm_compute. repeat split. Qed.

(** The Fast Index counter has reached the quota: the delivery is turned
    away at admission and nothing is stored. *)
Example demo_delivery_quota_rejected :
  let w := set_redis (demo_world 50 2000 false)
             {| kv := <["inbox:count:" +:+ demo_address := "50"%string]>
                        (kv (demo_redis false));
                failing := fun _ => false |} in
  let out := handle_DATA NullFernet.Entropy NullFernet.encrypt demo_sanitize
               Email.demo_fetch demo_parse default_settings demo_ent demo_new_id w
               demo_envelope in
  out.2 = "552 Inbox quota exceeded"%string /\ db out.1 = db w.
Proof. vm_compute. split; reflexivity. Qed.

(** * Further operations: keys, addresses, inboxes and the reading side *)

(** ** Key derivation (EncryptionService.__init__ and _derive_key,
    app/core/security.py) *)

(** [Py_ISSPACE]: tab, line feed, vertical tab, form feed, carriage return
    and space. *)
Definition isspace (c : ascii) : bool :=
  let n := N_of_ascii c in ((9 <=? n) && (n <=? 13)) || (n =? 32).

Definition hex_digit (c : ascii) : option N :=
  let n := N_of_ascii c in
  if (48 <=? n) && (n <=? 57) then Some (n - 48)
  else if (97 <=? n) && (n <=? 102) then Some (n - 87)
  else if (65 <=? n) && (n <=? 70) then Some (n - 55)
  else None.

(** [bytes.fromhex]: two hexadecimal digits per byte, white space allowed
    between the bytes and not inside one; everything else is a
    ValueError. *)
Fixpoint fromhex (s : string) : Result (list N) :=
  match s with
  | EmptyString => Ok []
  | String c rest =>
    if isspace c then fromhex rest
    else
      match hex_digit c, rest with
      | Some top, String c2 rest2 =>
        match hex_digit c2 with
        | Some bot => rbind (fromhex rest2) (fun bs => Ok (top * 16 + bot :: bs))
        | None => Raise (ValueError "non-hexadecimal number found in fromhex() arg")
        end
      | _, _ => Raise (ValueError "non-hexadecimal number found in fromhex() arg")
      end
  end.

Definition _derive_key (key_material : string) : Result (list N) :=
  rbind (fromhex key_material) (fun key_bytes =>
  let key_bytes :=
    if (length key_bytes <? 32)%nat then
      key_bytes ++ replicate (32 - length key_bytes) 0
    else if (32 <? length key_bytes)%nat then take 32 key_bytes
    else key_bytes in
  Ok (Base64.urlsafe_b64encode key_bytes)).

(** [Fernet(key)] of the [cryptography] package: the key has to be the
    URL-safe base64 text of 32 bytes, which become the signing and the
    encryption key. *)
Definition Fernet_init (key : list N) : Result (list N) :=
  match Base64.urlsafe_b64decode key with
  | None => Raise (ValueError "Fernet key must be 32 url-safe base64-encoded bytes.")
  | Some k =>
    if (length k =? 32)%nat then Ok k
    else Raise (ValueError "Fernet key must be 32 url-safe base64-encoded bytes.")
  end.

(** [EncryptionService.__init__]; the result is the key the cipher is built
    with. *)
Definition EncryptionService_init (ENCRYPTION_KEY : string) : Result (list N) :=
  try_except (rbind (_derive_key ENCRYPTION_KEY) Fernet_init)
    (fun _ => Raise (EncryptionException "Failed to initialize encryption service")).

(** The 32 bytes that the key material stands for. *)
Definition key_of (key_bytes : list N) : list N := take 32 (key_bytes ++ replicate 32 0).

(** ** Addresses (generate_random_string and generate_inbox_address,
    app/core/security.py) *)

Definition ascii_uppercase : string := "ABCDEFGHIJKLMNOPQRSTUVWXYZ".
Definition ascii_lowercase : string := "abcdefghijklmnopqrstuvwxyz".
Definition digits : string := "0123456789".
Definition special_characters : string := "!@#$%^&*()_+-=[]{}|;:,.<>?".

(** [secrets.choice(chars)]: the character at an index below [len(chars)];
    [draw] is what the system's random source gives. *)
Definition choice (draw : nat) (chars : string) : ascii :=
  nth (draw mod String.length chars) (list_ascii_of_string chars) Ascii.zero.

Definition generate_random_string (rnd : nat -> nat) (length : nat)
    (include_uppercase include_lowercase include_digits include_special : bool)
  : Result string :=
  let chars :=
    (if include_uppercase then ascii_uppercase else "") +:+
    (if include_lowercase then ascii_lowercase else "") +:+
    (if include_digits then digits else "") +:+
    (if include_special then special_characters else "") in
  if String.eqb chars "" then
    Raise (ValueError "At least one character type must be included")
  else
    Ok (string_of_list_ascii (List.map (fun i => choice (rnd i) chars) (seq 0 length))).

Definition generate_inbox_address (rnd : nat -> nat) (domain prefix : string)
    (length : nat) : Result string :=
  rbind (generate_random_string rnd length false true true false) (fun random_part =>
  Ok (prefix +:+ random_part +:+ "@" +:+ domain)).

Definition lower_or_digit (c : ascii) : bool :=
  let n := N_of_ascii c in
  ((97 <=? n) && (n <=? 122)) || ((48 <=? n) && (n <=? 57)).

(** ** The other operations of InboxService (app/services/inbox_service.py) *)

(** The settings that the creation of an inbox reads (app/config.py). *)
Record InboxSettings : Type := {
  DEFAULT_TTL_HOURS : Z;
  APP_DOMAIN : string;
  ADDRESS_PREFIX : string;
  ADDRESS_LENGTH : nat;
}.

Record InboxResponse : Type := {
  resp_inbox_id : UUID;
  resp_address : string;
  resp_token : string;
  resp_created_at : Z;
  resp_expires_at : Z;
}.

(** [select(Inbox).where(Inbox.address == address)]; the column is
    UNIQUE. *)
Definition find_by_address (d : DB) (a : string) : option Inbox :=
  List.find (fun i => String.eqb (address i) a) (inboxes d).

Definition _address_exists (d : DB) (a : string) : bool :=
  match find_by_address d a with Some _ => true | None => false end.

(** INSERT of an inbox row: the primary key, the UNIQUE address and
    [CHECK (message_count >= 0)]. *)
Definition flush_inbox (d : DB) (i : Inbox) : Result DB :=
  match find_inbox d (inbox_id i), find_by_address d (address i) with
  | None, None =>
    if (0 <=? message_count i)%Z then
      Ok {| inboxes := inboxes d ++ [i]; messages := messages d;
            attachments := attachments d |}
    else Raise IntegrityError
  | _, _ => Raise IntegrityError
  end.

(** SETEX.  The server refuses a time to live that is not positive; the
    time to live itself is not kept, a key that has outlived it is
    absent. *)
Definition redis_setex (r : Redis) (k : string) (ttl_seconds : Z) (v : string)
  : Result Redis :=
  if failing r k then Raise ConnectionError
  else if (ttl_seconds <=? 0)%Z then Raise (ValueError "invalid expire time in 'setex' command")
  else Ok {| kv := <[k := v]> (kv r); failing := failing r |}.

Section Inboxes.

Variable inbox_settings : InboxSettings.
(** [create_access_token(data, expires_delta)] and [hash_password(token)],
    the JWT and bcrypt calls. *)
Variable create_access_token : UUID -> string -> Z -> Result string.
Variable hash_password : string -> Result string.
(** The validation of an [EmailStr] field when a response is built: the
    normalized address, or [None] for a ValidationError (a text that is not
    an address, or one in a special-use domain such as [.test]). *)
Variable validate_email : string -> option string.

(** The [while] loop of [create_inbox]: [a] is the candidate, [k] the
    number of the next call of [generate_inbox_address] and [left] is
    [5 - retries]. *)
Fixpoint retry_address (d : DB) (gen : nat -> Result string) (a : string)
    (k left : nat) : Result string :=
  if _address_exists d a then
    match left with
    | O => Ok a
    | S left' => rbind (gen k) (fun a' => retry_address d gen a' (S k) left')
    end
  else Ok a.

(** [rnds k] is the random source of the [k]-th call of
    [generate_inbox_address], [new_id] what [generate_inbox_id] draws and
    the clock counts seconds.  The row of the model has no column for
    token_hash and created_at, so the hash is computed and dropped; the
    key holds [str(inbox_id)], the identifier itself. *)
Definition create_inbox (rnds : nat -> nat -> nat) (new_id : UUID) (w : World)
    (ttl_hours : option Z) : World * Result InboxResponse :=
  let ttl :=
    match ttl_hours with
    | Some h => if (h =? 0)%Z then DEFAULT_TTL_HOURS inbox_settings else h
    | None => DEFAULT_TTL_HOURS inbox_settings
    end in
  let gen k :=
    generate_inbox_address (rnds k) (APP_DOMAIN inbox_settings)
      (ADDRESS_PREFIX inbox_settings) (ADDRESS_LENGTH inbox_settings) in
  match rbind (gen 0%nat) (fun a => retry_address (db w) gen a 1 5) with
  | Raise e => (w, Raise e)
  | Ok a =>
    match rbind (create_access_token new_id a ttl) (fun token =>
          rbind (hash_password token) (fun _ => Ok token)) with
    | Raise e => (w, Raise e)
    | Ok token =>
      let expires := (now w + ttl * 3600)%Z in
      let inbox :=
        {| inbox_id := new_id; address := a; expires_at := expires;
           is_active := true; message_count := 0 |} in
      (* self.db.add(inbox); await self.db.commit() *)
      match flush_inbox (db w) inbox with
      | Raise e => (w, Raise e)
      | Ok d =>
        let w1 := set_db w d in
        let ttl_seconds := (ttl * 3600)%Z in
        match redis_setex (redis w1) ("inbox:" +:+ a) ttl_seconds new_id with
        | Raise e => (w1, Raise e)
        | Ok r1 =>
          match redis_setex r1 ("inbox:id:" +:+ new_id) ttl_seconds a with
          | Raise e => (set_redis w1 r1, Raise e)
          | Ok r2 =>
            (* InboxResponse(...), whose address is an EmailStr *)
            match validate_email a with
            | Some normalized =>
              (set_redis w1 r2,
               Ok {| resp_inbox_id := new_id; resp_address := normalized;
                     resp_token := token; resp_created_at := now w;
                     resp_expires_at := expires |})
            | None => (set_redis w1 r2, Raise ValidationError)
            end
          end
        end
      end
    end
  end.

(** The Fast Index first, the table when it has nothing for the address;
    [UUID(inbox_id_str)] is taken on what [create_inbox] stored. *)
Definition get_inbox_by_address (w : World) (a : string) : Result (option Inbox) :=
  let fallback :=
    match find_by_address (db w) a with
    | Some inbox =>
      rbind (datetime_lt (loaded_expires_at inbox) (utcnow (now w))) (fun expired =>
      if expired then Ok None else Ok (Some inbox))
    | None => Ok None
    end in
  match redis_get (redis w) ("inbox:" +:+ a) with
  | Raise e => Raise e
  | Ok (Some inbox_id_str) =>
    if String.eqb inbox_id_str "" then fallback
    else get_inbox (db w) (now w) inbox_id_str
  | Ok None => fallback
  end.

Definition delete_inbox (w : World) (inbox_id : UUID) : World * Result bool :=
  match get_inbox (db w) (now w) inbox_id with
  | Raise e => (w, Raise e)
  | Ok None => (w, Raise (InboxNotFoundException inbox_id))
  | Ok (Some inbox) =>
    match redis_delete (redis w) ("inbox:" +:+ address inbox) with
    | Raise e => (w, Raise e)
    | Ok r1 =>
      match redis_delete r1 ("inbox:id:" +:+ inbox_id) with
      | Raise e => (set_redis w r1, Raise e)
      | Ok r2 =>
        match redis_delete r2 ("inbox:count:" +:+ address inbox) with
        | Raise e => (set_redis w r2, Raise e)
        | Ok r3 =>
          (* await self.db.delete(inbox); await self.db.commit() *)
          (set_db (set_redis w r3) (delete_inbox_cascade (db w) inbox_id), Ok true)
        end
      end
    end
  end.

End Inboxes.

(** The address that the call of [generate_inbox_address] with random
    source [rnd] returns, and the time to live that [create_inbox] uses. *)
Definition candidate (s : InboxSettings) (rnd : nat -> nat) : string :=
  match generate_inbox_address rnd (APP_DOMAIN s) (ADDRESS_PREFIX s) (ADDRESS_LENGTH s) with
  | Ok a => a
  | Raise _ => ""
  end.

Definition ttl_of (s : InboxSettings) (ttl_hours : option Z) : Z :=
  match ttl_hours with
  | Some h => if (h =? 0)%Z then DEFAULT_TTL_HOURS s else h
  | None => DEFAULT_TTL_HOURS s
  end.

(** ** The reading side of MessageService (app/services/message_service.py) *)

(** MessageNotFoundException, which only these operations raise, beside
    the exceptions that come through from the calls they make. *)
Inductive read_exn : Type :=
| MessageNotFoundException (message_id : UUID)
| Propagated (e : exn).

(** The response schemas, without received_at and the identifier of an
    attachment, which the rows of the model do not carry. *)
Record MessageList : Type := {
  ml_id : UUID;
  ml_from_address : string;
  ml_subject : string;
  ml_preview : option (list N);
  ml_has_attachments : bool;
  ml_is_read : bool;
}.

Record AttachmentResponse : Type := {
  ar_filename : string;
  ar_content_type : string;
  ar_size_bytes : N;
}.

Record MessageDetail : Type := {
  md_id : UUID;
  md_from_address : string;
  md_to_address : string;
  md_subject : string;
  md_body_html : option (list N);
  md_body_text : option (list N);
  md_size_bytes : N;
  md_has_attachments : bool;
  md_attachments : list AttachmentResponse;
}.

(** [select(Message).where(Message.id == message_id)]; the column is the
    primary key. *)
Definition find_message (d : DB) (message_id : UUID) : option Message :=
  List.find (fun m => String.eqb (msg_id m) message_id) (messages d).

(** The code points of a literal. *)
Definition str (s : string) : list N := List.map N_of_ascii (list_ascii_of_string s).

(** [full_text[:150] + "..." if len(full_text) > 150 else full_text] *)
Definition preview_text (full_text : list N) : list N :=
  if (150 <? length full_text)%nat then take 150 full_text ++ str "..." else full_text.

Definition set_read (message_id : UUID) (m : Message) : Message :=
  if String.eqb (msg_id m) message_id then
    {| msg_id := msg_id m; msg_inbox_id := msg_inbox_id m;
       from_address := from_address m; to_address := to_address m;
       subject := subject m; body_html_encrypted := body_html_encrypted m;
       body_text_encrypted := body_text_encrypted m;
       raw_email_encrypted := raw_email_encrypted m; size_bytes := size_bytes m;
       has_attachments := has_attachments m; is_read := true;
       headers := headers m |}
  else m.

(** [message.is_read = True; await self.db.commit()] *)
Definition mark_read (d : DB) (message_id : UUID) : DB :=
  {| inboxes := inboxes d; messages := List.map (set_read message_id) (messages d);
     attachments := attachments d |}.

(** [message.attachments], the rows that refer to the message. *)
Definition attachments_of (d : DB) (message_id : UUID) : list Attachment :=
  List.filter (fun a => String.eqb (att_message_id a) message_id) (attachments d).

Definition to_response (att : Attachment) : AttachmentResponse :=
  {| ar_filename := filename att; ar_content_type := content_type att;
     ar_size_bytes := att_size_bytes att |}.

(** [result.scalar_one_or_none()] on a result that carries a joined eager
    load of a collection and on which [unique()] was not called: the first
    row that comes is refused. *)
Definition scalar_one_or_none_joined {A} (row : option A) : Result (option A) :=
  match row with
  | Some _ => Raise InvalidRequestError
  | None => Ok None
  end.

(** The elements of a list comprehension or loop body that can raise, in
    order; the first exception ends it. *)
Fixpoint collect {A B} (f : A -> Result B) (l : list A) : Result (list B) :=
  match l with
  | [] => Ok []
  | x :: rest => rbind (f x) (fun y => rbind (collect f rest) (fun ys => Ok (y :: ys)))
  end.

Section Reading.

Variable fernet_decrypt : list N -> option (list N).
(** The validation of an [EmailStr] field, as in [create_inbox]. *)
Variable validate_email : string -> option string.

(** The body of the loop of [get_messages]; the bare [except] takes every
    failure of [decrypt]. *)
Definition preview_of (msg : Message) : option (list N) :=
  match body_text_encrypted msg with
  | Some (c :: t) =>
    match decrypt fernet_decrypt (c :: t) with
    | Ok full_text => Some (preview_text full_text)
    | Raise _ => Some (str "[Unable to decrypt preview]")
    end
  | _ => None
  end.

(** The rows of [messages] are in the order of their arrival, so
    [order_by(desc(received_at))] is the list reversed; then OFFSET and
    LIMIT. *)
Definition message_list (msg : Message) : Result MessageList :=
  let preview := preview_of msg in
  (* MessageList(...), whose from_address is an EmailStr *)
  match validate_email (from_address msg) with
  | Some normalized =>
    Ok {| ml_id := msg_id msg; ml_from_address := normalized;
          ml_subject := subject msg; ml_preview := preview;
          ml_has_attachments := has_attachments msg; ml_is_read := is_read msg |}
  | None => Raise ValidationError
  end.

Definition get_messages (d : DB) (inbox_id : UUID) (limit offset : nat)
  : Result (list MessageList) :=
  collect message_list (take limit (drop offset (rev (messages_of d inbox_id)))).

(** [if enc: body = decrypt(enc)], else [None]. *)
Definition decrypt_body (enc : option (list N)) : Result (option (list N)) :=
  match enc with
  | Some (c :: t) => rbind (decrypt fernet_decrypt (c :: t)) (fun x => Ok (Some x))
  | _ => Ok None
  end.

(** The query asks for [joinedload(Message.attachments)] and its result
    is read with [scalar_one_or_none()]. *)
Definition get_message (d : DB) (message_id : UUID) : DB * (read_exn + MessageDetail) :=
  match scalar_one_or_none_joined (find_message d message_id) with
  | Raise e => (d, inl (Propagated e))
  | Ok None => (d, inl (MessageNotFoundException message_id))
  | Ok (Some message) =>
    match rbind (decrypt_body (body_html_encrypted message)) (fun body_html =>
          rbind (decrypt_body (body_text_encrypted message)) (fun body_text =>
          Ok (body_html, body_text))) with
    | Raise e => (d, inl (Propagated e))
    | Ok (body_html, body_text) =>
      let attachments := List.map to_response (attachments_of d message_id) in
      let d' := if is_read message then d else mark_read d message_id in
      (* MessageDetail(...), whose from_address and to_address are EmailStr *)
      match validate_email (from_address message), validate_email (to_address message) with
      | Some sender, Some recipient =>
        (d', inr {| md_id := msg_id message;
                    md_from_address := sender;
                    md_to_address := recipient;
                    md_subject := subject message;
                    md_body_html := body_html;
                    md_body_text := body_text;
                    md_size_bytes := size_bytes message;
                    md_has_attachments := has_attachments message;
                    md_attachments := attachments |})
      | _, _ => (d', inl (Propagated ValidationError))
      end
    end
  end.

End Reading.

(** [db.delete(message)]: the row goes and the cascade takes its
    attachments.  Neither the inbox row nor the Fast Index is touched. *)
Definition delete_message (d : DB) (message_id : UUID) : DB * (read_exn + bool) :=
  match find_message d message_id with
  | None => (d, inl (MessageNotFoundException message_id))
  | Some _ =>
    ({| inboxes := inboxes d;
        messages :=
          List.filter (fun m => negb (String.eqb (msg_id m) message_id)) (messages d);
        attachments :=
          List.filter (fun a => negb (String.eqb (att_message_id a) message_id))
            (attachments d) |},
     inr true)
  end.

(** ** The loop of the reaper (TTLCleanupWorker.start, app/workers/ttl_cleanup.py) *)

Definition set_now (w : World) (t : Z) : World :=
  {| redis := redis w; db := db w; now := t; events := events w |}.

(** [k] rounds of the [while] loop; [clock j] is what [datetime.utcnow()]
    shows in round [j] and [plan j] the order in which the query of that
    round returns its rows; nothing else touches the stores in between.
    A cycle of the model does not raise, so the [except] branch is not
    taken. *)
Fixpoint cleanup_rounds (settings : Settings) (plan : nat -> Inbox -> nat)
    (clock : nat -> Z) (k : nat) (w : World) : World :=
  match k with
  | O => w
  | S k' =>
    cleanup_rounds settings (fun j => plan (S j)) (fun j => clock (S j)) k'
      (_run_cleanup settings (plan 0%nat) (set_now w (clock 0%nat))).1
  end.

(** ** Statements *)

(** The row's identifier is that of one of the rows in [l]. *)
Definition selected (l : list Inbox) (i : Inbox) : bool :=
  existsb (fun x => String.eqb (inbox_id i) (inbox_id x)) l.

(** A body as [store_message] takes it: an empty one counts as absent. *)
Definition present (body : option (list N)) : option (list N) :=
  match body with
  | Some (c :: b) => Some (c :: b)
  | _ => None
  end.

(** The parts that [_extract_attachments] takes for attachments: not a
    multipart container, with a Content-Disposition field, a file name and
    a payload that are not empty. *)
Definition is_attachment_part (part : Email.EmailMessage) : bool :=
  negb (String.eqb (Email.get_content_maintype part) "multipart") &&
  bool_decide (is_Some (Email.msg_get part "Content-Disposition")) &&
  match Email.get_filename part with
  | Some f => negb (String.eqb f "")
  | None => false
  end &&
  match Email.get_payload_decoded part with
  | Some (_ :: _) => true
  | _ => false
  end.


(** The characters of the URL-safe base64 alphabet and the padding. *)
Definition base64url_char (c : N) : bool :=
  ((65 <=? c) && (c <=? 90)) || ((97 <=? c) && (c <=? 122)) ||
  ((48 <=? c) && (c <=? 57)) || (c =? 45) || (c =? 95) || (c =? 61).

(** *** Concrete inputs *)

Definition demo_key_material : string :=
  "00112233445566778899aabbccddeeff 00112233445566778899AABBCCDDEEFF".

Definition demo_key_bytes : list N :=
  [0; 17; 34; 51; 68; 85; 102; 119; 136; 153; 170; 187; 204; 221; 238; 255;
   0; 17; 34; 51; 68; 85; 102; 119; 136; 153; 170; 187; 204; 221; 238; 255].

Definition demo_inbox_settings : InboxSettings :=
  {| DEFAULT_TTL_HOURS := 24; APP_DOMAIN := "tempmail.dev"; ADDRESS_PREFIX := "tmp_";
     ADDRESS_LENGTH := 16 |}.

(** The same settings in the special-use domain [.test]. *)
Definition demo_test_settings : InboxSettings :=
  {| DEFAULT_TTL_HOURS := 24; APP_DOMAIN := "mail.test"; ADDRESS_PREFIX := "tmp_";
     ADDRESS_LENGTH := 16 |}.

(** A stand-in for the validation of an address: one [@] after a local
    part that is not empty, a dot inside the domain, and not the
    special-use domain [.test]; the domain is returned in lower case. *)
Definition demo_validate_email (a : string) : option string :=
  match String.index 0 "@" a with
  | Some (S i) =>
    let local := String.substring 0 (S i) a in
    let domain := String.substring (S (S i)) (String.length a - S (S i)) a in
    if match String.index 0 "@" domain with Some _ => false | None => true end &&
       match String.index 0 "." domain with Some (S _) => true | _ => false end &&
       negb (String.eqb (String.substring (String.length domain - 5) 5 domain) ".test")
    then Some (local +:+ "@" +:+ Email.lower domain)
    else None
  | _ => None
  end.

(** The rank of an index scan on expires_at, latest first. *)
Definition demo_index_scan (i : Inbox) : nat := Z.to_nat (100000 - expires_at i).

Definition demo_token (inbox_id : UUID) (a : string) (ttl : Z) : Result string :=
  Ok ("jwt." +:+ inbox_id).

Definition demo_hash (token : string) : Result string := Ok ("bcrypt." +:+ token).

(** The [k]-th address starts at the [k]-th letter. *)
Definition demo_rnds (k i : nat) : nat := (k + i)%nat.

Definition demo_first_address : string := "tmp_abcdefghijklmnop@tempmail.dev".

Definition demo_second_address : string := "tmp_bcdefghijklmnopq@tempmail.dev".

Definition demo_response : InboxResponse :=
  {| resp_inbox_id := demo_new_id; resp_address := demo_first_address;
     resp_token := "jwt." +:+ demo_new_id; resp_created_at := 1000;
     resp_expires_at := 87400 |}.

Definition demo_live_id : UUID := "c2a8f3d1-5b7e-4c1a-9f0e-6d2b8a4e7c10".

(** The inbox of [demo_world], with the first address taken by a second
    inbox. *)
Definition demo_taken_world : World :=
  {| redis := demo_redis false;
     db := {| inboxes :=
                [demo_inbox 0 2000;
                 {| inbox_id := demo_live_id;
                    address := demo_first_address; expires_at := 2000;
                    is_active := true; message_count := 0 |}];
              messages := []; attachments := [] |};
     now := 1000;
     events := [] |}.

Definition demo_live_inbox : Inbox :=
  {| inbox_id := demo_live_id; address := "tmp_q7w1e5@tempmail.dev"; expires_at := 2000;
     is_active := true; message_count := 1 |}.

Definition demo_row (id owner : UUID) : Message :=
  {| msg_id := id; msg_inbox_id := owner; from_address := "alice@postbox.net";
     to_address := ""; subject := "hello"; body_html_encrypted := None;
     body_text_encrypted := None; raw_email_encrypted := [81; 81; 61; 61];
     size_bytes := 2; has_attachments := false; is_read := false; headers := ∅ |}.

(** An expired inbox and a live one, each with a message; the live one's
    message has an attachment.  The clock shows 1000. *)
Definition demo_two_inboxes : World :=
  {| redis := demo_redis false;
     db := {| inboxes := [demo_inbox 1 500; demo_live_inbox];
              messages := [demo_row "m-1" demo_id; demo_row "m-2" demo_live_id];
              attachments :=
                [{| att_message_id := "m-2"; filename := "a.txt";
                    content_type := "text/plain"; att_size_bytes := 1;
                    content_encrypted := [81; 81; 61; 61] |}] |};
     now := 1000;
     events := [] |}.

Definition demo_empty_envelope : Envelope :=
  {| rcpt_tos := ["TMP_K3V9X2@tempmail.dev"%string];
     mail_from := "alice@postbox.net";
     content := [] |}.

(** A reaper that takes one inbox per cycle. *)
Definition demo_slow_settings : Settings :=
  {| MAX_EMAILS_PER_INBOX := 50; MAX_EMAIL_SIZE_MB := 10; CLEANUP_BATCH_SIZE := 1 |}.
(** ** Properties of the further operations *)

(** *** The two counters of an inbox *)

(** X11.  increment_message_count moves neither counter.  For an inbox
    that the Durable Store holds the call raises TypeError, from the
    comparison in get_inbox, before the count is touched; for any other
    identifier it raises InboxNotFoundException.  Both stores are as they
    were. *)
Theorem increment_moves_no_counter (w : World) (iid : UUID) :
  increment_message_count w iid =
  (w, Raise (match find_inbox (db w) iid with
             | Some _ => TypeError
             | None => InboxNotFoundException iid
             end)).
Proof.
  unfold increment_message_count. rewrite get_inbox_outcome.
  destruct (find_inbox (db w) iid); reflexivity.
Qed.

(** X12.  InboxService.check_quota gives no verdict on the quota: it
    raises TypeError for an inbox that the Durable Store holds and
    InboxNotFoundException for any other identifier, whatever the count.
    The admission check of the handler reads the Fast Index counter alone:
    it fails exactly when that counter is read without an error and holds
    an integer, as [int()] reads it, that is not below the quota. *)
Theorem admission_reads_fast_index_only (settings : Settings) (w : World)
    (recipient : string) (iid : UUID) :
  check_quota settings (db w) (now w) iid =
    Raise (match find_inbox (db w) iid with
           | Some _ => TypeError
           | None => InboxNotFoundException iid
           end) /\
  (_check_inbox_quota settings w recipient = false <->
   exists count n,
     redis_get (redis w) ("inbox:count:" +:+ recipient) = Ok (Some count) /\
     py_int count = Some n /\ (MAX_EMAILS_PER_INBOX settings <= n)%Z).
Proof.
  split; [apply check_quota_outcome|].
  unfold _check_inbox_quota, _max_emails_per_inbox.
  destruct (redis_get (redis w) _) as [[count|]|e].
  - destruct (py_int count) as [n|] eqn:Hn.
    + split.
      * intros H. apply Z.ltb_ge in H. eauto.
      * intros (c & n' & [= <-] & Hn' & Hle). rewrite Hn in Hn'.
        injection Hn' as <-. apply Z.ltb_ge, Hle.
    + split; [discriminate|]. intros (c & n' & [= <-] & Hn' & _). congruence.
  - split; [discriminate|]. intros (c & n' & H & _). discriminate H.
  - split; [discriminate|]. intros (c & n' & H & _). discriminate H.
Qed.

(** *** Deliveries *)

Section Delivery.

Variable Entropy : Type.
Variable fernet_encrypt : Entropy -> list N -> list N.
Variable sanitize_html : list N -> list N.
Variable header_fetch_parse : string -> string -> Result string.
Variable parsebytes : list N -> Result Email.EmailMessage.
Variable settings : Settings.

Local Abbreviation store_message := (store_message Entropy fernet_encrypt sanitize_html).
Local Abbreviation process_message :=
  (process_message Entropy fernet_encrypt sanitize_html header_fetch_parse).
Local Abbreviation handle_DATA :=
  (handle_DATA Entropy fernet_encrypt sanitize_html header_fetch_parse parsebytes settings).

Lemma store_message_row (ent : nat -> Entropy) (new_id : UUID) (d d' : DB)
    (iid : UUID) (sender subj : string) (bh bt : option (list N)) (raw : list N)
    (hs : gmap string string) (atts : list Email.AttachmentData) (m : Message) :
  store_message ent new_id d iid sender subj bh bt raw hs atts = (d', Ok m) ->
  from_address m = String.substring 0 255 sender /\
  subject m = String.substring 0 998 subj /\
  headers m = hs /\ is_read m = false /\
  has_attachments m = match atts with [] => false | _ => true end.
Proof.
  unfold store_message.
  destruct (encrypt_body _ _ _ _ bh) as [h|]; cbn [rbind]; [|discriminate].
  destruct (encrypt_body _ _ _ _ bt) as [t|]; cbn [rbind]; [|discriminate].
  destruct (encrypt _ _ _ _) as [c|]; cbn [rbind]; [|discriminate].
  destruct (flush_message _ _) as [p|]; cbn [rbind]; [|discriminate].
  destruct (encrypt_attachments _ _ _ _ _ _) as [rows|]; cbn [rbind]; [|discriminate].
  destruct (flush_attachments _ _) as [cm|]; cbn [rbind]; [|discriminate].
  intros [= _ <-]. cbn. repeat split.
Qed.

Lemma store_message_empty (ent : nat -> Entropy) (new_id : UUID) (d : DB)
    (iid : UUID) (sender subj : string) (bh bt : option (list N))
    (hs : gmap string string) (atts : list Email.AttachmentData) :
  exists e, store_message ent new_id d iid sender subj bh bt [] hs atts = (d, Raise e).
Proof.
  unfold store_message.
  destruct (encrypt_body _ _ _ _ bh) as [h|]; cbn [rbind]; [|eauto].
  destruct (encrypt_body _ _ _ _ bt) as [t|]; cbn [rbind]; [|eauto].
  destruct (encrypt _ _ _ _) as [c|]; cbn [rbind]; [|eauto].
  unfold flush_message. cbn [msg_inbox_id size_bytes length].
  destruct (find_inbox d iid); cbn; eauto.
Qed.

(** A run leaves the Fast Index as it was. *)
Lemma process_message_fails (ent : nat -> Entropy) (new_id : UUID) (w w' : World)
    (recipient sender : string) (message : Email.EmailMessage) (raw : list N) (e : exn) :
  process_message ent new_id w recipient sender message raw = (w', Raise e) ->
  redis w' = redis w.
Proof.
  unfold process_message.
  destruct (redis_get _ _) as [[iid|]|]; try (intros [= <- _]; reflexivity).
  destruct (String.eqb iid ""); [intros [= <- _]; reflexivity|].
  destruct (rbind (Email._extract_subject header_fetch_parse message) _)
    as [[[[subj [bh bt]] hs] atts]|]; [|intros [= <- _]; reflexivity].
  destruct (store_message _ _ _ _ _ _ _ _ _ _ _) as [d [m|x]];
    [|intros [= <- _]; reflexivity].
  rewrite increment_outcome. intros [= <- _]. reflexivity.
Qed.


Lemma process_message_empty (ent : nat -> Entropy) (new_id : UUID) (w : World)
    (recipient sender : string) (message : Email.EmailMessage) :
  exists w' e, process_message ent new_id w recipient sender message [] = (w', Raise e) /\
               db w' = db w.
Proof.
  unfold process_message.
  destruct (redis_get _ _) as [[iid|]|]; try (eexists _, _; split; reflexivity).
  destruct (String.eqb iid ""); [eexists _, _; split; reflexivity|].
  destruct (rbind (Email._extract_subject header_fetch_parse message) _)
    as [[[[subj [bh bt]] hs] atts]|]; [|eexists _, _; split; reflexivity].
  destruct (store_message_empty ent new_id (db w) iid sender subj bh bt hs atts)
    as [e He].
  rewrite He. eexists _, _; split; [reflexivity|]. destruct w; reflexivity.
Qed.


(** X14.  A delivery that is not answered with 250 leaves the Fast Index
    as it was, and it leaves the Durable Store as it was unless the answer
    is "451 Requested action aborted: error in processing". *)
Theorem rejection_leaves_stores (ent : nat -> Entropy) (new_id : UUID) (w : World)
    (env : Envelope) :
  let out := handle_DATA ent new_id w env in
  out.2 <> "250 Message accepted for delivery"%string ->
  redis out.1 = redis w /\
  (out.2 <> "451 Requested action aborted: error in processing"%string ->
   db out.1 = db w).
Proof.
  cbv zeta. unfold handle_DATA.
  destruct (rcpt_tos env) as [|rcpt rest]; [intros _; split; reflexivity|].
  destruct (negb (_validate_recipient _ _)); [intros _; split; reflexivity|].
  destruct (negb (_check_inbox_quota _ _ _)); [intros _; split; reflexivity|].
  destruct (_ <? _); [intros _; split; reflexivity|].
  destruct (parsebytes (content env)) as [message|]; [|intros _; split; reflexivity].
  destruct (process_message _ _ _ _ _ _ _) as [w' [[]|e]] eqn:Hp; cbn [fst snd].
  - intros H. contradiction H. reflexivity.
  - intros _. split; [|intros H; contradiction H; reflexivity].
    apply process_message_fails in Hp. exact Hp.
Qed.

(** X15.  A mail with an empty content is never accepted and never
    stored: the message row violates CHECK (size_bytes > 0), so whatever
    the recipient and the parser, the answer is not 250 and both stores
    are as before. *)
Theorem empty_mail_never_stored (ent : nat -> Entropy) (new_id : UUID) (w : World)
    (env : Envelope) :
  content env = [] ->
  let out := handle_DATA ent new_id w env in
  out.2 <> "250 Message accepted for delivery"%string /\
  db out.1 = db w /\ redis out.1 = redis w.
Proof.
  intros Hc. cbv zeta. unfold handle_DATA. rewrite Hc.
  destruct (rcpt_tos env) as [|rcpt rest]; [repeat split; discriminate|].
  destruct (negb (_validate_recipient _ _)); [repeat split; discriminate|].
  destruct (negb (_check_inbox_quota _ _ _)); [repeat split; discriminate|].
  destruct (_ <? _); [repeat split; discriminate|].
  destruct (parsebytes []) as [message|]; [|repeat split; discriminate].
  destruct (process_message_empty ent new_id (emit (emit w EvConnection) EvParse)
              (Email.lower rcpt) (mail_from env) message) as (w' & e & Hp & Hdb).
  rewrite Hp. cbn [fst snd]. split; [discriminate|]. split; [exact Hdb|].
  apply process_message_fails in Hp. exact Hp.
Qed.

Lemma process_message_messages (ent : nat -> Entropy) (new_id : UUID) (w : World)
    (recipient sender : string) (message : Email.EmailMessage) (raw : list N) :
  let w' := (process_message ent new_id w recipient sender message raw).1 in
  messages (db w') = messages (db w) \/
  exists m, messages (db w') = messages (db w) ++ [m] /\
            kv (redis w) !! ("inbox:" +:+ recipient) = Some (msg_inbox_id m).
Proof.
  pose proof (process_message_cases Entropy fernet_encrypt sanitize_html
                header_fetch_parse ent new_id w recipient sender message raw) as H.
  cbv zeta. destruct (process_message ent new_id w recipient sender message raw)
    as [w' r]. cbn [fst]. destruct H as [[-> _]|(iid & Hk & Hout)]; [auto|].
  destruct Hout as [[-> _]|[(m & n & (rows & -> & _) & Hown & _)
                           |(m & n & d1 & (rows & -> & _) & Hown & ->)]];
    [auto| |]; right; exists m; rewrite Hown; split; auto.
Qed.

(** X16.  Whatever the envelope, a delivery removes no message and adds at
    most one, and that one belongs to the inbox that the Fast Index gives
    for the first recipient in lower case: the recipients after the first
    get nothing. *)
Theorem delivery_touches_one_inbox (ent : nat -> Entropy) (new_id : UUID) (w : World)
    (env : Envelope) :
  let out := handle_DATA ent new_id w env in
  messages (db out.1) = messages (db w) \/
  exists rcpt rest m,
    rcpt_tos env = rcpt :: rest /\
    messages (db out.1) = messages (db w) ++ [m] /\
    kv (redis w) !! ("inbox:" +:+ Email.lower rcpt) = Some (msg_inbox_id m).
Proof.
  cbv zeta. unfold handle_DATA.
  destruct (rcpt_tos env) as [|rcpt rest]; [auto|].
  destruct (negb (_validate_recipient _ _)); [auto|].
  destruct (negb (_check_inbox_quota _ _ _)); [auto|].
  destruct (_ <? _); [auto|].
  destruct (parsebytes (content env)) as [message|]; [|auto].
  pose proof (process_message_messages ent new_id (emit (emit w EvConnection) EvParse)
                (Email.lower rcpt) (mail_from env) message (content env)) as H.
  cbv zeta in H.
  destruct (process_message _ _ _ _ _ _ _) as [w' [[]|e]]; cbn [fst snd db emit] in *;
    (destruct H as [H|(m & H & Hk)]; [auto|right; exists rcpt, rest, m; auto]).
Qed.

End Delivery.

(** *** One cycle of the reaper *)

Lemma attached_to_elem (ms : list Message) (a : Attachment) :
  attached_to ms a = true -> exists m, m ∈ ms /\ msg_id m = att_message_id a.
Proof.
  unfold attached_to. intros H. apply existsb_exists in H as (m & Hin & He).
  exists m. split; [apply list_elem_of_In, Hin|]. apply String.eqb_eq, He.
Qed.

(** What [db.delete(inbox)] keeps: the rows of the other inboxes. *)
Lemma cascade_keeps (d : DB) (id : UUID) :
  (forall i, i ∈ inboxes d -> inbox_id i <> id -> i ∈ inboxes (delete_inbox_cascade d id)) /\
  (forall m, m ∈ messages d -> msg_inbox_id m <> id ->
             m ∈ messages (delete_inbox_cascade d id)) /\
  (forall a, a ∈ attachments d ->
             (forall m, m ∈ messages d -> msg_inbox_id m = id ->
                        msg_id m <> att_message_id a) ->
             a ∈ attachments (delete_inbox_cascade d id)).
Proof.
  unfold delete_inbox_cascade. cbn [inboxes messages attachments].
  split; [|split].
  - intros i Hi Hne. apply elem_of_filter_list. split; [exact Hi|].
    apply negb_true_iff, String.eqb_neq, Hne.
  - intros m Hm Hne. apply elem_of_filter_list. split; [exact Hm|].
    apply negb_true_iff, String.eqb_neq, Hne.
  - intros a Ha Hno. apply elem_of_filter_list. split; [exact Ha|].
    apply negb_true_iff. destruct (attached_to _ a) eqn:Hat; [|reflexivity].
    apply attached_to_elem in Hat as (m & Hm & He).
    apply elem_of_filter_list in Hm as [Hm Ho].
    exfalso. apply (Hno m Hm); [apply String.eqb_eq, Ho|exact He].
Qed.

Lemma cascade_all_keeps (l : list Inbox) :
  forall d,
  (forall i, i ∈ inboxes d -> (forall x, x ∈ l -> inbox_id x <> inbox_id i) ->
             i ∈ inboxes (cascade_all l d)) /\
  (forall m, m ∈ messages d -> (forall x, x ∈ l -> inbox_id x <> msg_inbox_id m) ->
             m ∈ messages (cascade_all l d)) /\
  (forall a, a ∈ attachments d ->
             (forall m x, m ∈ messages d -> x ∈ l -> msg_inbox_id m = inbox_id x ->
                          msg_id m <> att_message_id a) ->
             a ∈ attachments (cascade_all l d)).
Proof.
  induction l as [|y l IH]; intros d; [cbn; auto|].
  unfold cascade_all. cbn [fold_left]. fold (cascade_all l (delete_inbox_cascade d (inbox_id y))).
  destruct (IH (delete_inbox_cascade d (inbox_id y))) as (I1 & I2 & I3).
  destruct (cascade_keeps d (inbox_id y)) as (K1 & K2 & K3).
  pose proof (cascade_le d (inbox_id y)) as (_ & Lm & _).
  split; [|split].
  - intros i Hi Hno. apply I1.
    + apply K1; [exact Hi|]. intros E. apply (Hno y); [apply elem_of_cons; auto|congruence].
    + intros x Hx. apply Hno. apply elem_of_cons; auto.
  - intros m Hm Hno. apply I2.
    + apply K2; [exact Hm|]. intros E. apply (Hno y); [apply elem_of_cons; auto|congruence].
    + intros x Hx. apply Hno. apply elem_of_cons; auto.
  - intros a Ha Hno. apply I3.
    + apply K3; [exact Ha|]. intros m Hm E. apply (Hno m y Hm); [apply elem_of_cons; auto|exact E].
    + intros m x Hm Hx. apply Hno; [apply Lm, Hm|apply elem_of_cons; auto].
Qed.

Lemma delete_keys_other (r : Redis) (inbox : Inbox) (k : string) :
  k ∉ redis_keys inbox -> kv (delete_redis_keys r inbox).1 !! k = kv r !! k.
Proof.
  intros Hk. unfold redis_keys in Hk.
  assert (H1 : "inbox:" +:+ address inbox <> k).
  { intros E. apply Hk. rewrite <- E. apply elem_of_cons; auto. }
  assert (H2 : "inbox:id:" +:+ inbox_id inbox <> k).
  { intros E. apply Hk. rewrite <- E. apply elem_of_cons. right. apply elem_of_cons; auto. }
  assert (H3 : "inbox:count:" +:+ address inbox <> k).
  { intros E. apply Hk. rewrite <- E. apply elem_of_cons. right. apply elem_of_cons. right.
    apply elem_of_cons; auto. }
  unfold delete_redis_keys, redis_delete.
  destruct (failing r ("inbox:" +:+ address inbox)); [reflexivity|]. cbn [failing kv].
  destruct (failing r ("inbox:id:" +:+ inbox_id inbox)); cbn [fst kv failing];
    [apply lookup_delete_ne, H1|].
  destruct (failing r ("inbox:count:" +:+ address inbox)); cbn [fst kv failing].
  - rewrite lookup_delete_ne by exact H2. apply lookup_delete_ne, H1.
  - rewrite lookup_delete_ne by exact H3. rewrite lookup_delete_ne by exact H2.
    apply lookup_delete_ne, H1.
Qed.

Lemma delete_all_other (l : list Inbox) :
  forall r k, (forall x, x ∈ l -> k ∉ redis_keys x) ->
              kv (delete_all_keys l r) !! k = kv r !! k.
Proof.
  induction l as [|y l IH]; intros r k Hk; [reflexivity|].
  unfold delete_all_keys. cbn [fold_left]. fold (delete_all_keys l (delete_redis_keys r y).1).
  rewrite IH by (intros x Hx; apply Hk, elem_of_cons; auto).
  apply delete_keys_other, Hk, elem_of_cons; auto.
Qed.

Lemma run_cleanup_result (settings : Settings) (rank : Inbox -> nat) (w : World) :
  exists evs,
    _run_cleanup settings rank w =
    ({| redis := delete_all_keys (expired_inboxes settings rank w) (redis w);
        db := cascade_all (expired_inboxes settings rank w) (db w);
        now := now w; events := evs |}, Ok tt).
Proof.
  unfold _run_cleanup.
  destruct (cleanup_fold (expired_inboxes settings rank w) (redis w) (db w) (events w))
    as [evs He].
  rewrite He. exists evs. reflexivity.
Qed.

Lemma NoDup_map_inj {A B} (f : A -> B) (l : list A) (x y : A) :
  NoDup (List.map f l) -> x ∈ l -> y ∈ l -> f x = f y -> x = y.
Proof.
  induction l as [|a l IH]; intros Hn Hx Hy E; [inversion Hx|].
  cbn in Hn. apply NoDup_cons in Hn as [Ha Hn].
  apply elem_of_cons in Hx as [->|Hx]; apply elem_of_cons in Hy as [->|Hy].
  - reflexivity.
  - exfalso. apply Ha. rewrite E. apply list_elem_of_In, in_map, list_elem_of_In, Hy.
  - exfalso. apply Ha. rewrite <- E. apply list_elem_of_In, in_map, list_elem_of_In, Hx.
  - apply IH; assumption.
Qed.

(** X22.  With inbox and message identifiers unique (the primary keys), a
    cleanup cycle keeps every inbox that has not expired, each of its
    messages and each attachment of those messages. *)
Theorem cleanup_keeps_live_inboxes (settings : Settings) (rank : Inbox -> nat)
    (w : World) (inbox : Inbox) :
  NoDup (List.map inbox_id (inboxes (db w))) ->
  NoDup (List.map msg_id (messages (db w))) ->
  inbox ∈ inboxes (db w) -> (now w <= expires_at inbox)%Z ->
  let w' := (_run_cleanup settings rank w).1 in
  inbox ∈ inboxes (db w') /\
  forall m, m ∈ messages (db w) -> msg_inbox_id m = inbox_id inbox ->
    m ∈ messages (db w') /\
    forall a, a ∈ attachments (db w) -> att_message_id a = msg_id m ->
              a ∈ attachments (db w').
Proof.
  intros Hni Hnm Hin Hlive. destruct (run_cleanup_result settings rank w) as [evs ->].
  cbn [fst db].
  destruct (cascade_all_keeps (expired_inboxes settings rank w) (db w)) as (K1 & K2 & K3).
  assert (Hsel : forall x, x ∈ expired_inboxes settings rank w ->
                           inbox_id x <> inbox_id inbox).
  { intros x Hx E. apply expired_inboxes_expired in Hx as [Hx Hexp].
    assert (x = inbox) by (eapply NoDup_map_inj; eassumption). subst. lia. }
  split; [apply K1; assumption|].
  intros m Hm Hown. split.
  - apply K2; [exact Hm|]. rewrite Hown. exact Hsel.
  - intros a Ha Hat. apply K3; [exact Ha|].
    intros m' x Hm' Hx Hown' E.
    assert (m' = m) by (eapply NoDup_map_inj; [exact Hnm|..]; congruence).
    subst. apply (Hsel x Hx). congruence.
Qed.

(** X23.  A cleanup cycle leaves every Fast Index key alone that is not
    one of the three keys of an inbox it has selected. *)
Theorem cleanup_spares_other_keys (settings : Settings) (rank : Inbox -> nat)
    (w : World) (k : string) :
  (forall x, x ∈ expired_inboxes settings rank w -> k ∉ redis_keys x) ->
  let w' := (_run_cleanup settings rank w).1 in
  kv (redis w') !! k = kv (redis w) !! k /\ failing (redis w') = failing (redis w).
Proof.
  intros Hk. destruct (run_cleanup_result settings rank w) as [evs ->]. cbn [fst redis].
  split; [apply delete_all_other, Hk|apply delete_all_failing].
Qed.

Lemma filter_nil_forall {A} (f : A -> bool) (l : list A) :
  (forall x, x ∈ l -> f x = false) -> List.filter f l = [].
Proof.
  induction l as [|a l IH]; intros H; [reflexivity|]. cbn [List.filter].
  rewrite (H a) by (apply elem_of_cons; auto).
  apply IH. intros x Hx. apply H, elem_of_cons; auto.
Qed.

(** X24.  When the expired inboxes fit into one batch, no expired inbox
    is left after the cycle, and a second cycle at the same instant finds
    nothing to do: it changes neither store. *)
Theorem cleanup_complete_within_batch (settings : Settings)
    (rank rank2 : Inbox -> nat) (w : World) :
  (length (List.filter (fun i => (expires_at i <? now w)%Z) (inboxes (db w)))
   <= CLEANUP_BATCH_SIZE settings)%nat ->
  let w' := (_run_cleanup settings rank w).1 in
  (forall i, i ∈ inboxes (db w') -> (now w' <= expires_at i)%Z) /\
  expired_inboxes settings rank2 w' = [] /\
  db (_run_cleanup settings rank2 w').1 = db w' /\
  redis (_run_cleanup settings rank2 w').1 = redis w'.
Proof.
  intros Hfit. cbv zeta.
  destruct (run_cleanup_reaps settings rank w) as (w' & Hrun & Hall).
  destruct (run_cleanup_result settings rank w) as [evs Hres].
  assert (Hnow : now w' = now w) by (rewrite Hrun in Hres; injection Hres as ->; reflexivity).
  assert (Hle : db_le (db w') (db w)).
  { rewrite Hrun in Hres. injection Hres as ->. cbn [db]. apply cascade_all_le. }
  rewrite Hrun. cbn [fst].
  assert (Hlive : forall i, i ∈ inboxes (db w') -> (now w' <= expires_at i)%Z).
  { intros i Hi. rewrite Hnow.
    destruct (Z.ltb_spec (expires_at i) (now w)) as [Hexp|]; [|assumption].
    exfalso.
    assert (Hsel : i ∈ expired_inboxes settings rank w).
    { unfold expired_inboxes.
      rewrite take_ge by (rewrite (Permutation_length (scan_perm rank _)); exact Hfit).
      rewrite scan_perm.
      apply elem_of_filter_list. split; [apply Hle, Hi|]. apply Z.ltb_lt, Hexp. }
    destruct (Hall i Hsel) as (_ & (Hr & _) & _). exact (Hr i Hi eq_refl). }
  assert (Hnone : expired_inboxes settings rank2 w' = []).
  { unfold expired_inboxes. rewrite filter_nil_forall; [apply take_nil|].
    intros i Hi. apply Z.ltb_ge, Hlive, Hi. }
  split; [exact Hlive|]. split; [exact Hnone|].
  unfold _run_cleanup. rewrite Hnone. cbn. split; reflexivity.
Qed.

(** *** Key derivation *)

Lemma hex_digit_bound (c : ascii) (v : N) : hex_digit c = Some v -> v < 16.
Proof.
  unfold hex_digit.
  destruct (N.leb_spec 48 (N_of_ascii c)), (N.leb_spec (N_of_ascii c) 57); cbn [andb];
    try (intros [= <-]; lia);
  destruct (N.leb_spec 97 (N_of_ascii c)), (N.leb_spec (N_of_ascii c) 102); cbn [andb];
    try (intros [= <-]; lia);
  destruct (N.leb_spec 65 (N_of_ascii c)), (N.leb_spec (N_of_ascii c) 70); cbn [andb];
    try (intros [= <-]; lia); discriminate.
Qed.

(** Induction along the steps of [fromhex]. *)
Lemma fromhex_ind (P : string -> list N -> Prop) :
  P EmptyString [] ->
  (forall c rest bs, isspace c = true -> fromhex rest = Ok bs -> P rest bs ->
                     P (String c rest) bs) ->
  (forall c c2 rest top bot bs,
     isspace c = false -> hex_digit c = Some top -> hex_digit c2 = Some bot ->
     fromhex rest = Ok bs -> P rest bs ->
     P (String c (String c2 rest)) (top * 16 + bot :: bs)) ->
  forall s bs, fromhex s = Ok bs -> P s bs.
Proof.
  intros H0 Hs Hd.
  assert (H : forall n s bs, (String.length s <= n)%nat -> fromhex s = Ok bs -> P s bs).
  { induction n as [|n IH]; intros s bs Hn.
    - destruct s; [|cbn in Hn; lia]. cbn. intros [= <-]. exact H0.
    - destruct s as [|c rest]; [cbn; intros [= <-]; exact H0|].
      cbn [fromhex]. cbn [String.length] in Hn.
      destruct (isspace c) eqn:Hsp.
      { intros Hf. apply Hs; [exact Hsp|exact Hf|]. apply IH; [lia|exact Hf]. }
      destruct (hex_digit c) as [top|] eqn:Ht; [|discriminate].
      destruct rest as [|c2 rest]; [discriminate|].
      destruct (hex_digit c2) as [bot|] eqn:Hb; [|discriminate].
      destruct (fromhex rest) as [bs'|] eqn:Hf; cbn [rbind]; [|discriminate].
      intros [= <-]. apply Hd; try assumption.
      apply IH; [cbn [String.length] in Hn; lia|exact Hf]. }
  intros s bs. apply (H (String.length s)). lia.
Qed.

Lemma fromhex_bytes (s : string) (bs : list N) : fromhex s = Ok bs -> Base64.is_bytes bs.
Proof.
  revert s bs. apply fromhex_ind.
  - constructor.
  - auto.
  - intros c c2 rest top bot bs _ Ht Hb _ IH.
    apply Forall_cons_2; [|exact IH]. cbv beta.
    apply hex_digit_bound in Ht, Hb. lia.
Qed.

Lemma fromhex_app (b : string) (s : string) (bs : list N) :
  fromhex s = Ok bs ->
  fromhex (s +:+ b) = rbind (fromhex b) (fun kb => Ok (bs ++ kb)).
Proof.
  revert s bs. apply fromhex_ind.
  - change ("" +:+ b) with b. destruct (fromhex b); reflexivity.
  - intros c rest bs Hsp _ IH.
    change (String c rest +:+ b) with (String c (rest +:+ b)).
    cbn [fromhex]. rewrite Hsp. exact IH.
  - intros c c2 rest top bot bs Hsp Ht Hb _ IH.
    change (String c (String c2 rest) +:+ b) with (String c (String c2 (rest +:+ b))).
    cbn [fromhex]. rewrite Hsp, Ht, Hb, IH.
    destruct (fromhex b); reflexivity.
Qed.

Lemma derive_key_bytes (key_material : string) (kb : list N) :
  fromhex key_material = Ok kb ->
  _derive_key key_material = Ok (Base64.urlsafe_b64encode (key_of kb)).
Proof.
  intros H. unfold _derive_key, key_of. rewrite H. cbn [rbind]. do 2 f_equal.
  destruct (Nat.ltb_spec (length kb) 32).
  - rewrite take_app_ge by lia. rewrite take_replicate. do 2 f_equal. lia.
  - rewrite take_app_le by lia.
    destruct (Nat.ltb_spec 32 (length kb)); [reflexivity|].
    rewrite take_ge by lia. reflexivity.
Qed.

Lemma key_of_bytes (kb : list N) :
  Base64.is_bytes kb -> Base64.is_bytes (key_of kb) /\ length (key_of kb) = 32%nat.
Proof.
  intros H. unfold key_of. split.
  - apply Forall_take, Forall_app_2; [exact H|]. apply Forall_replicate. cbv beta. lia.
  - rewrite length_take, length_app, length_replicate. lia.
Qed.

(** X1.  EncryptionService.__init__ fails (with EncryptionException)
    exactly when ENCRYPTION_KEY is not a hexadecimal string; otherwise the
    key that Fernet is built with is the first 32 bytes of the key
    material, padded with zero bytes: the derived key always passes
    Fernet's check of the key. *)
Theorem service_key_from_material (ENCRYPTION_KEY : string) :
  EncryptionService_init ENCRYPTION_KEY =
  match fromhex ENCRYPTION_KEY with
  | Ok kb => Ok (take 32 (kb ++ replicate 32 0))
  | Raise _ => Raise (EncryptionException "Failed to initialize encryption service")
  end.
Proof.
  unfold EncryptionService_init.
  destruct (fromhex ENCRYPTION_KEY) as [kb|e] eqn:Hf.
  - rewrite (derive_key_bytes _ _ Hf). cbn [rbind]. unfold Fernet_init.
    destruct (key_of_bytes kb (fromhex_bytes _ _ Hf)) as [Hb Hl].
    rewrite Base64.b64decode_encode by exact Hb. rewrite Hl. reflexivity.
  - unfold _derive_key. rewrite Hf. reflexivity.
Qed.

(** X2.  Key material beyond 32 bytes does not enter the key, and zero
    bytes at the end of shorter key material make no difference: in both
    cases the longer hexadecimal string derives the same key as the
    shorter one. *)
Theorem key_material_collisions (a b : string) (ka kb : list N) :
  fromhex a = Ok ka -> fromhex b = Ok kb ->
  ((32 <= length ka)%nat -> _derive_key (a +:+ b) = _derive_key a) /\
  ((length ka + length kb <= 32)%nat -> Forall (fun x => x = 0) kb ->
   _derive_key (a +:+ b) = _derive_key a).
Proof.
  intros Ha Hb.
  assert (Hab : fromhex (a +:+ b) = Ok (ka ++ kb)).
  { rewrite (fromhex_app b a ka Ha), Hb. reflexivity. }
  rewrite (derive_key_bytes _ _ Hab), (derive_key_bytes _ _ Ha). unfold key_of.
  split.
  - intros Hl. do 2 f_equal. rewrite <- app_assoc.
    rewrite !take_app_le by lia. reflexivity.
  - intros Hl Hz. do 2 f_equal.
    assert (Hk : kb = replicate (length kb) 0).
    { clear -Hz. induction Hz as [|x l -> _ IH]; [reflexivity|]. cbn. f_equal. exact IH. }
    remember (length kb) as n eqn:Hn. clear Hn Hb Hab Hz. subst kb.
    rewrite <- app_assoc, <- replicate_add.
    rewrite !(take_app_ge ka) by lia. rewrite !take_replicate. do 2 f_equal. lia.
Qed.

(** *** Addresses and inboxes *)

Lemma choice_in (draw : nat) (chars : string) (P : ascii -> Prop) :
  chars <> ""%string -> Forall P (list_ascii_of_string chars) -> P (choice draw chars).
Proof.
  intros Hne HP. unfold choice.
  assert (Hlen : String.length chars = length (list_ascii_of_string chars)).
  { clear. induction chars; cbn; [reflexivity|]. f_equal. assumption. }
  assert (Hpos : (0 < String.length chars)%nat).
  { destruct chars; [contradiction|cbn; lia]. }
  rewrite Forall_forall in HP. apply HP. apply list_elem_of_In, nth_In.
  rewrite <- Hlen. apply Nat.mod_upper_bound. lia.
Qed.

Lemma length_string_of_list (l : list ascii) :
  String.length (string_of_list_ascii l) = length l.
Proof. induction l; cbn; [reflexivity|]. f_equal. assumption. Qed.

Lemma lower_app (a b : string) : Email.lower (a +:+ b) = Email.lower a +:+ Email.lower b.
Proof.
  induction a as [|c a IH]; [reflexivity|].
  change (String c a +:+ b) with (String c (a +:+ b)). cbn [Email.lower].
  rewrite IH. reflexivity.
Qed.

Lemma lower_fixed (l : list ascii) :
  Forall (fun c => lower_or_digit c = true) l ->
  Email.lower (string_of_list_ascii l) = string_of_list_ascii l.
Proof.
  induction 1 as [|c l Hc _ IH]; [reflexivity|]. cbn [string_of_list_ascii Email.lower].
  rewrite IH. f_equal. clear -Hc.
  unfold lower_or_digit in Hc. unfold Email.lower_ascii.
  set (n := N_of_ascii c) in *.
  destruct (N.leb_spec 65 n), (N.leb_spec n 90); cbn [andb]; try reflexivity.
  exfalso.
  destruct (N.leb_spec 97 n), (N.leb_spec n 122), (N.leb_spec 48 n), (N.leb_spec n 57);
    cbn in Hc; try discriminate; lia.
Qed.

Lemma random_part_shape (rnd : nat -> nat) (n : nat) :
  exists l, generate_random_string rnd n false true true false
            = Ok (string_of_list_ascii l) /\
            length l = n /\ Forall (fun c => lower_or_digit c = true) l.
Proof.
  eexists. split; [reflexivity|]. split.
  - rewrite length_map, length_seq. reflexivity.
  - apply Forall_forall. intros c Hc. apply list_elem_of_In, in_map_iff in Hc as (i & <- & _).
    apply (choice_in _ _ (fun c => lower_or_digit c = true)); [discriminate|].
    apply Forall_forall. intros x Hx. apply list_elem_of_In in Hx. revert x Hx.
    apply forallb_forall. vm_compute. reflexivity.
Qed.

(** X4.  generate_inbox_address never raises and returns the prefix, then
    [length] characters out of a-z and 0-9, then "@" and the domain; with
    a prefix and a domain in lower case the address is its own lower-case
    form, which is what the handler looks up. *)
Theorem inbox_address_shape (rnd : nat -> nat) (domain prefix : string) (n : nat) :
  exists r,
    generate_inbox_address rnd domain prefix n = Ok (prefix +:+ r +:+ "@" +:+ domain) /\
    String.length r = n /\
    Forall (fun c => lower_or_digit c = true) (list_ascii_of_string r) /\
    (Email.lower prefix = prefix -> Email.lower domain = domain ->
     Email.lower (prefix +:+ r +:+ "@" +:+ domain) = prefix +:+ r +:+ "@" +:+ domain).
Proof.
  destruct (random_part_shape rnd n) as (l & Hg & Hl & Hf).
  exists (string_of_list_ascii l). unfold generate_inbox_address. rewrite Hg.
  split; [reflexivity|]. split; [rewrite length_string_of_list; exact Hl|].
  split; [rewrite list_ascii_of_string_of_list_ascii; exact Hf|].
  intros Hp Hd. rewrite !lower_app, Hp, Hd, (lower_fixed l Hf). reflexivity.
Qed.

Section InboxProofs.

Variable inbox_settings : InboxSettings.
Variable create_access_token : UUID -> string -> Z -> Result string.
Variable hash_password : string -> Result string.
Variable validate_email : string -> option string.

Local Abbreviation create_inbox :=
  (create_inbox inbox_settings create_access_token hash_password validate_email).

Lemma append_inj (p a b : string) : p +:+ a = p +:+ b -> a = b.
Proof.
  induction p as [|c p IH]; [auto|].
  change (String c p +:+ a) with (String c (p +:+ a)).
  change (String c p +:+ b) with (String c (p +:+ b)).
  intros [= H]. auto.
Qed.

Lemma find_inbox_app_new (d : DB) (row : Inbox) (l : list Inbox) :
  List.find (fun i => String.eqb (inbox_id i) (inbox_id row)) l = None ->
  List.find (fun i => String.eqb (inbox_id i) (inbox_id row)) (l ++ [row]) = Some row.
Proof.
  induction l as [|x l IH]; cbn [List.find app].
  - rewrite String.eqb_refl. reflexivity.
  - destruct (String.eqb (inbox_id x) (inbox_id row)); [discriminate|exact IH].
Qed.

Lemma find_address_app_new (row : Inbox) (l : list Inbox) :
  List.find (fun i => String.eqb (address i) (address row)) l = None ->
  List.find (fun i => String.eqb (address i) (address row)) (l ++ [row]) = Some row.
Proof.
  induction l as [|x l IH]; cbn [List.find app].
  - rewrite String.eqb_refl. reflexivity.
  - destruct (String.eqb (address x) (address row)); [discriminate|exact IH].
Qed.

Lemma flush_inbox_ok (d d' : DB) (row : Inbox) :
  flush_inbox d row = Ok d' ->
  find_inbox d (inbox_id row) = None /\ find_by_address d (address row) = None /\
  inboxes d' = inboxes d ++ [row] /\ messages d' = messages d /\
  attachments d' = attachments d /\
  find_inbox d' (inbox_id row) = Some row /\
  find_by_address d' (address row) = Some row.
Proof.
  unfold flush_inbox.
  destruct (find_inbox d (inbox_id row)) eqn:Hi; [discriminate|].
  destruct (find_by_address d (address row)) eqn:Ha; [discriminate|].
  destruct (0 <=? message_count row)%Z; [|discriminate].
  intros [= <-]. cbn. repeat split.
  - unfold find_inbox. cbn [inboxes]. apply (find_inbox_app_new d), Hi.
  - unfold find_by_address. cbn [inboxes]. apply find_address_app_new, Ha.
Qed.

(** What a creation has set up when it reaches the response: [a] is the
    generated address. *)
Lemma create_inbox_returns (rnds : nat -> nat -> nat) (new_id : UUID) (w w' : World)
    (ttl_hours : option Z) (resp : InboxResponse) :
  create_inbox rnds new_id w ttl_hours = (w', Ok resp) ->
  exists a,
    let row := {| inbox_id := new_id; address := a;
                  expires_at := resp_expires_at resp; is_active := true;
                  message_count := 0 |} in
    validate_email a = Some (resp_address resp) /\
    resp_inbox_id resp = new_id /\ resp_created_at resp = now w /\
    (now w < resp_expires_at resp)%Z /\ now w' = now w /\
    flush_inbox (db w) row = Ok (db w') /\
    failing (redis w') = failing (redis w) /\
    failing (redis w) ("inbox:" +:+ a) = false /\
    failing (redis w) ("inbox:id:" +:+ new_id) = false /\
    kv (redis w') = <["inbox:id:" +:+ new_id := a]>
                      (<["inbox:" +:+ a := new_id]> (kv (redis w))).
Proof.
  unfold create_inbox. cbv zeta.
  destruct (rbind (generate_inbox_address _ _ _ _) _) as [a|]; [|discriminate].
  destruct (rbind (create_access_token _ _ _) _) as [token|]; [|discriminate].
  destruct (flush_inbox _ _) as [d|] eqn:Hfl; [|discriminate].
  unfold redis_setex. cbn [redis set_db failing kv].
  destruct (failing (redis w) ("inbox:" +:+ a)) eqn:F1; [discriminate|].
  match goal with |- context [(?t <=? 0)%Z] => destruct (Z.leb_spec t 0) end;
    [discriminate|].
  cbn [failing kv].
  destruct (failing (redis w) ("inbox:id:" +:+ new_id)) eqn:F2; [discriminate|].
  destruct (validate_email a) as [normalized|] eqn:Hv; [|discriminate].
  intros [= <- <-]. exists a. cbn. repeat split; try assumption. lia.
Qed.

(** X7.  When create_inbox returns, the new row (no messages, expiring
    after the creation) has been appended to the table under the generated
    address, of which the response carries the validated form; the Fast
    Index maps the address to the identifier and the admission check of
    the handler accepts it.  The services cannot read the inbox, though:
    get_inbox and get_inbox_by_address raise TypeError on it.  The address
    must differ from "id:" followed by the identifier, or the second index
    key would be the first. *)
Theorem created_inbox_cannot_be_read (rnds : nat -> nat -> nat) (new_id : UUID)
    (w w' : World) (ttl_hours : option Z) (resp : InboxResponse) :
  create_inbox rnds new_id w ttl_hours = (w', Ok resp) ->
  exists a,
    let row := {| inbox_id := new_id; address := a;
                  expires_at := resp_expires_at resp; is_active := true;
                  message_count := 0 |} in
    validate_email a = Some (resp_address resp) /\
    resp_inbox_id resp = new_id /\
    (now w < resp_expires_at resp)%Z /\
    inboxes (db w') = inboxes (db w) ++ [row] /\
    get_inbox (db w') (now w') new_id = Raise TypeError /\
    (a <> "id:" +:+ new_id ->
     redis_get (redis w') ("inbox:" +:+ a) = Ok (Some new_id) /\
     _validate_recipient w' a = true /\
     get_inbox_by_address w' a = Raise TypeError).
Proof.
  intros Hc.
  destruct (create_inbox_returns _ _ _ _ _ _ Hc)
    as (a & Hv & Hid & _ & Hexp & Hnow & Hfl & Hfail & F1 & F2 & Hkv).
  destruct (flush_inbox_ok _ _ _ Hfl) as (_ & _ & Hin & _ & _ & Hfi & Hfa).
  cbn [inbox_id address] in Hfi, Hfa.
  exists a. cbv zeta. repeat split; try assumption.
  - rewrite get_inbox_outcome, Hfi. reflexivity.
  - rename H into Hne. unfold redis_get. rewrite Hfail, F1. f_equal.
    rewrite Hkv. rewrite lookup_insert_ne.
    + apply lookup_insert_eq.
    + change ("inbox:id:" +:+ new_id) with ("inbox:" +:+ ("id:" +:+ new_id)).
      intros E. apply append_inj in E. congruence.
  - rename H into Hne. unfold _validate_recipient, redis_get. rewrite Hfail, F1.
    rewrite Hkv. rewrite lookup_insert_ne.
    + rewrite lookup_insert_eq. reflexivity.
    + change ("inbox:id:" +:+ new_id) with ("inbox:" +:+ ("id:" +:+ new_id)).
      intros E. apply append_inj in E. congruence.
  - rename H into Hne. unfold get_inbox_by_address, redis_get. rewrite Hfail, F1.
    rewrite Hkv. rewrite lookup_insert_ne.
    + rewrite lookup_insert_eq, Hfa, get_inbox_outcome, Hfi.
      destruct (String.eqb new_id ""); reflexivity.
    + change ("inbox:id:" +:+ new_id) with ("inbox:" +:+ ("id:" +:+ new_id)).
      intros E. apply append_inj in E. congruence.
Qed.

Lemma gen_candidate (rnd : nat -> nat) :
  generate_inbox_address rnd (APP_DOMAIN inbox_settings) (ADDRESS_PREFIX inbox_settings)
    (ADDRESS_LENGTH inbox_settings) = Ok (candidate inbox_settings rnd).
Proof.
  unfold candidate, generate_inbox_address.
  destruct (random_part_shape rnd (ADDRESS_LENGTH inbox_settings)) as (l & -> & _).
  reflexivity.
Qed.

Lemma retry_address_first_free (d : DB) (gen : nat -> Result string) :
  forall (n left k : nat) (c : nat -> string),
    (n <= left)%nat ->
    (forall i, gen (k + i)%nat = Ok (c (S i))) ->
    (forall i, (i < n)%nat -> _address_exists d (c i) = true) ->
    _address_exists d (c n) = false ->
    retry_address d gen (c 0%nat) k left = Ok (c n).
Proof.
  induction n as [|n IH]; intros left k c Hle Hgen Htaken Hfree.
  - destruct left; cbn [retry_address]; rewrite Hfree; reflexivity.
  - destruct left as [|left]; [lia|]. cbn [retry_address].
    rewrite (Htaken 0%nat) by lia.
    specialize (Hgen 0%nat) as Hg. rewrite Nat.add_0_r in Hg. rewrite Hg. cbn [rbind].
    apply (IH left (S k) (fun i => c (S i))); [lia| | |exact Hfree].
    + intros i. rewrite <- Hgen. f_equal. lia.
    + intros i Hi. apply Htaken. lia.
Qed.

Lemma retry_address_exhausted (d : DB) (gen : nat -> Result string) :
  forall (left k : nat) (c : nat -> string),
    (forall i, gen (k + i)%nat = Ok (c (S i))) ->
    (forall i, (i <= left)%nat -> _address_exists d (c i) = true) ->
    retry_address d gen (c 0%nat) k left = Ok (c left).
Proof.
  induction left as [|left IH]; intros k c Hgen Htaken.
  - cbn [retry_address]. rewrite (Htaken 0%nat) by lia. reflexivity.
  - cbn [retry_address]. rewrite (Htaken 0%nat) by lia.
    specialize (Hgen 0%nat) as Hg. rewrite Nat.add_0_r in Hg. rewrite Hg. cbn [rbind].
    apply (IH (S k) (fun i => c (S i))).
    + intros i. rewrite <- Hgen. f_equal. lia.
    + intros i Hi. apply Htaken. lia.
Qed.

(** X5.  create_inbox takes the first of the first six generated
    addresses that is not yet in the table: with the identifier fresh, the
    token and the hash available, a positive time to live and the Fast
    Index answering, it commits the row under that address and sets the
    two index keys.  When the validation of the response accepts the
    address it then returns the validated address, the token and the expiry
    [now + ttl * 3600]; when it does not, the call raises ValidationError
    with the row and the keys in place.  A [ttl_hours] of 0 counts as not
    given. *)
Theorem create_inbox_picks_first_free (rnds : nat -> nat -> nat) (new_id : UUID)
    (w : World) (ttl_hours : option Z) (n : nat) (token h : string) :
  let cand := fun k => candidate inbox_settings (rnds k) in
  let ttl := ttl_of inbox_settings ttl_hours in
  (n <= 5)%nat ->
  (forall i, (i < n)%nat -> _address_exists (db w) (cand i) = true) ->
  _address_exists (db w) (cand n) = false ->
  find_inbox (db w) new_id = None ->
  create_access_token new_id (cand n) ttl = Ok token -> hash_password token = Ok h ->
  (0 < ttl)%Z ->
  failing (redis w) ("inbox:" +:+ cand n) = false ->
  failing (redis w) ("inbox:id:" +:+ new_id) = false ->
  let out := create_inbox rnds new_id w ttl_hours in
  out.2 = match validate_email (cand n) with
          | Some normalized =>
            Ok {| resp_inbox_id := new_id; resp_address := normalized;
                  resp_token := token; resp_created_at := now w;
                  resp_expires_at := (now w + ttl * 3600)%Z |}
          | None => Raise ValidationError
          end /\
  inboxes (db out.1) =
    inboxes (db w) ++ [{| inbox_id := new_id; address := cand n;
                          expires_at := (now w + ttl * 3600)%Z; is_active := true;
                          message_count := 0 |}] /\
  kv (redis out.1) = <["inbox:id:" +:+ new_id := cand n]>
                       (<["inbox:" +:+ cand n := new_id]> (kv (redis w))).
Proof.
  intros cand ttl Hn Htaken Hfree Hid Htok Hhash Httl F1 F2.
  unfold create_inbox. fold (ttl_of inbox_settings ttl_hours). fold ttl.
  rewrite gen_candidate. cbn [rbind].
  rewrite (retry_address_first_free (db w) _ n 5 1 cand Hn); try assumption.
  2: { intros i. rewrite gen_candidate. reflexivity. }
  rewrite Htok. cbn [rbind]. rewrite Hhash. cbn [rbind].
  unfold flush_inbox. cbn [inbox_id address message_count]. rewrite Hid.
  unfold _address_exists in Hfree.
  destruct (find_by_address (db w) (cand n)); [discriminate|].
  cbn [Z.leb Z.compare]. unfold redis_setex. cbn [redis set_db failing kv].
  rewrite F1. destruct (Z.leb_spec (ttl * 3600) 0); [lia|]. cbn [failing kv].
  rewrite F2. cbv zeta.
  destruct (validate_email (cand n)); cbn; repeat split.
Qed.

(** X6.  When the first six generated addresses are all taken,
    create_inbox raises and leaves both stores as they were; with the
    token and the hash available the exception is the IntegrityError of
    the insert. *)
Theorem create_inbox_gives_up (rnds : nat -> nat -> nat) (new_id : UUID)
    (w : World) (ttl_hours : option Z) :
  (forall i, (i <= 5)%nat ->
             _address_exists (db w) (candidate inbox_settings (rnds i)) = true) ->
  exists e, create_inbox rnds new_id w ttl_hours = (w, Raise e) /\
            forall token h,
              create_access_token new_id (candidate inbox_settings (rnds 5%nat))
                (ttl_of inbox_settings ttl_hours) = Ok token ->
              hash_password token = Ok h -> e = IntegrityError.
Proof.
  intros Htaken. unfold create_inbox. fold (ttl_of inbox_settings ttl_hours).
  rewrite gen_candidate. cbn [rbind].
  rewrite (retry_address_exhausted (db w) _ 5 1
             (fun k => candidate inbox_settings (rnds k))); [|intros i; rewrite gen_candidate; reflexivity|exact Htaken].
  destruct (create_access_token _ _ _) as [token|e]; cbn [rbind].
  2: { exists e. split; [reflexivity|]. intros ? ? [=]. }
  destruct (hash_password token) as [h|e] eqn:Hh; cbn [rbind].
  2: { exists e. split; [reflexivity|]. intros ? ? [= <-]. congruence. }
  exists IntegrityError. split; [|reflexivity].
  unfold flush_inbox. cbn [inbox_id address].
  specialize (Htaken 5%nat ltac:(lia)). unfold _address_exists in Htaken.
  destruct (find_by_address _ _); [|discriminate].
  destruct (find_inbox _ _); reflexivity.
Qed.

(** X8.  The lookup by address never returns an inbox.  It looks for the
    row under the identifier that the Fast Index holds for the address, or,
    when the Fast Index has no (or an empty) entry, under the address
    itself; when there is such a row the comparison of its expiry raises
    TypeError, when there is none the result is None, and a failing Fast
    Index is a ConnectionError. *)
Theorem lookup_by_address_finds_nothing (w : World) (a : string) :
  get_inbox_by_address w a =
  if failing (redis w) ("inbox:" +:+ a) then Raise ConnectionError
  else
    let row :=
      match kv (redis w) !! ("inbox:" +:+ a) with
      | Some inbox_id_str =>
        if String.eqb inbox_id_str "" then find_by_address (db w) a
        else find_inbox (db w) inbox_id_str
      | None => find_by_address (db w) a
      end in
    match row with
    | Some _ => Raise TypeError
    | None => Ok None
    end.
Proof.
  unfold get_inbox_by_address, redis_get.
  destruct (failing (redis w) ("inbox:" +:+ a)); [reflexivity|]. cbv zeta.
  destruct (kv (redis w) !! ("inbox:" +:+ a)) as [s|].
  - destruct (String.eqb s "").
    + destruct (find_by_address (db w) a); reflexivity.
    + apply get_inbox_outcome.
  - destruct (find_by_address (db w) a); reflexivity.
Qed.

Lemma delete_inbox_outcome (w : World) (iid : UUID) :
  delete_inbox w iid =
  (w, Raise (match find_inbox (db w) iid with
             | Some _ => TypeError
             | None => InboxNotFoundException iid
             end)).
Proof.
  unfold delete_inbox. rewrite get_inbox_outcome.
  destruct (find_inbox (db w) iid); reflexivity.
Qed.

(** X9.  delete_inbox removes nothing.  For an inbox that the Durable
    Store holds, expired or not, the call raises TypeError in get_inbox
    before any key or row is touched: the row, its messages and the Fast
    Index keys are all still there and the handler goes on accepting the
    address. *)
Theorem delete_inbox_removes_nothing (w : World) (iid : UUID) (inbox : Inbox) :
  find_inbox (db w) iid = Some inbox ->
  let out := delete_inbox w iid in
  out.2 = Raise TypeError /\
  db out.1 = db w /\ redis out.1 = redis w /\
  find_inbox (db out.1) iid = Some inbox /\
  _validate_recipient out.1 (address inbox) = _validate_recipient w (address inbox).
Proof.
  intros Hf. cbv zeta. rewrite delete_inbox_outcome, Hf. cbn [fst snd].
  repeat split. exact Hf.
Qed.

(** X10.  delete_inbox raises on every call and leaves both stores as they
    were.  The exception is TypeError exactly when the Durable Store holds
    a row for the identifier and InboxNotFoundException exactly when it
    holds none. *)
Theorem delete_inbox_failure (w : World) (iid : UUID) :
  let out := delete_inbox w iid in
  out.1 = w /\ returns out.2 = false /\
  (out.2 = Raise TypeError <-> is_Some (find_inbox (db w) iid)) /\
  (out.2 = Raise (InboxNotFoundException iid) <-> find_inbox (db w) iid = None).
Proof.
  cbv zeta. rewrite delete_inbox_outcome. cbn [fst snd returns].
  destruct (find_inbox (db w) iid) as [inbox|].
  - repeat split; eauto; discriminate.
  - repeat split; eauto; try discriminate. intros [x Hx]. discriminate Hx.
Qed.

End InboxProofs.

(** *** The reading side *)

(** X21.  delete_message either returns True or raises
    MessageNotFoundException without a change.  It never touches the inbox
    rows, so message_count is not decremented and check_quota answers as
    before; when it returns, exactly the message and its attachments are
    gone. *)
Theorem delete_message_keeps_counter (settings : Settings) (d : DB) (message_id : UUID) :
  let out := delete_message d message_id in
  (out.2 = inr true \/ out = (d, inl (MessageNotFoundException message_id))) /\
  inboxes out.1 = inboxes d /\
  (forall t iid, check_quota settings out.1 t iid = check_quota settings d t iid) /\
  (out.2 = inr true ->
   (forall m, m ∈ messages out.1 <-> m ∈ messages d /\ msg_id m <> message_id) /\
   (forall a, a ∈ attachments out.1 <->
              a ∈ attachments d /\ att_message_id a <> message_id)).
Proof.
  cbv zeta. unfold delete_message.
  destruct (find_message d message_id) as [m|]; cbn [fst snd].
  - split; [auto|]. split; [reflexivity|]. split; [reflexivity|]. intros _.
    cbn [messages attachments]. split.
    + intros x. rewrite elem_of_filter_list, negb_true_iff, String.eqb_neq. reflexivity.
    + intros a. rewrite elem_of_filter_list, negb_true_iff, String.eqb_neq. reflexivity.
  - split; [auto|]. split; [reflexivity|]. split; [reflexivity|]. discriminate.
Qed.

Lemma str_length_bound (p : list N) : (length (preview_text p) <= 153)%nat.
Proof.
  unfold preview_text. destruct (Nat.ltb_spec 150 (length p)); [|lia].
  rewrite length_app, length_take. change (length (str "...")) with 3%nat. lia.
Qed.

Lemma collect_ok {A B} (f : A -> Result B) (l : list A) :
  forall ys, collect f l = Ok ys -> Forall2 (fun x y => f x = Ok y) l ys.
Proof.
  induction l as [|x l IH]; intros ys; cbn [collect].
  - intros [= <-]. constructor.
  - destruct (f x) as [y|] eqn:Hx; cbn [rbind]; [|discriminate].
    destruct (collect f l) as [r|]; cbn [rbind]; [|discriminate].
    intros [= <-]. constructor; [exact Hx|]. apply IH. reflexivity.
Qed.

Lemma collect_raise {A B} (f : A -> Result B) (l : list A) (e : exn) :
  collect f l = Raise e -> Exists (fun x => f x = Raise e) l.
Proof.
  induction l as [|x l IH]; cbn [collect]; [discriminate|].
  destruct (f x) as [y|e'] eqn:Hx; cbn [rbind].
  - destruct (collect f l) as [r|e'']; cbn [rbind]; [discriminate|].
    intros [= <-]. apply Exists_cons_tl, IH. reflexivity.
  - intros [= <-]. apply Exists_cons_hd, Hx.
Qed.

(** X20.  get_messages returns only when the validation of the response
    accepts the sender of every message it lists; otherwise it raises
    ValidationError for a listed message whose sender is refused.  When it
    returns, there are at most [limit] entries, each for a message of the
    inbox asked for, and a preview has at most 153 characters, also when
    the text cannot be decrypted. *)
Theorem previews_bounded (fernet_decrypt : list N -> option (list N))
    (validate_email : string -> option string) (d : DB)
    (inbox_id : UUID) (limit offset : nat) :
  let listed := take limit (drop offset (rev (messages_of d inbox_id))) in
  match get_messages fernet_decrypt validate_email d inbox_id limit offset with
  | Ok items =>
    Forall (fun m => is_Some (validate_email (from_address m))) listed /\
    (length items <= limit)%nat /\
    forall item, item ∈ items ->
      (exists m, m ∈ messages d /\ msg_inbox_id m = inbox_id /\ ml_id item = msg_id m /\
                 ml_preview item = preview_of fernet_decrypt m) /\
      match ml_preview item with
      | Some p => (length p <= 153)%nat
      | None => True
      end
  | Raise e =>
    e = ValidationError /\
    Exists (fun m => validate_email (from_address m) = None) listed
  end.
Proof.
  cbv zeta. unfold get_messages.
  destruct (collect _ _) as [items|e] eqn:Hc.
  - apply collect_ok in Hc. split; [|split].
    + eapply Forall2_Forall_l; [exact Hc|]. apply Forall_forall.
      intros y _ m. unfold message_list.
      destruct (validate_email (from_address m)); [eauto|discriminate].
    + rewrite <- (Forall2_length _ _ _ Hc), length_take. lia.
    + intros item Hin.
      apply list_elem_of_lookup_1 in Hin as [i Hi].
      destruct (Forall2_lookup_r _ _ _ _ _ Hc Hi) as (m & Hm & Hitem).
      apply list_elem_of_lookup_2 in Hm.
      unfold message_list in Hitem.
      destruct (validate_email (from_address m)); [|discriminate].
      injection Hitem as <-. cbn [ml_id ml_preview]. split.
      * exists m. apply subseteq_take, subseteq_drop in Hm.
        apply list_elem_of_In in Hm. apply <- in_rev in Hm. apply list_elem_of_In in Hm.
        unfold messages_of in Hm.
        apply elem_of_filter_list in Hm as [Hm Ho]. repeat split; try assumption.
        apply String.eqb_eq, Ho.
      * unfold preview_of. destruct (body_text_encrypted m) as [[|c t]|]; try exact I.
        destruct (decrypt fernet_decrypt (c :: t)); [apply str_length_bound|].
        vm_compute. lia.
  - apply collect_raise in Hc.
    assert (He : Exists (fun m => e = ValidationError /\
                                  validate_email (from_address m) = None)
                   (take limit (drop offset (rev (messages_of d inbox_id))))).
    { eapply Exists_impl; [exact Hc|]. cbv beta. intros m. unfold message_list.
      destruct (validate_email (from_address m)); [discriminate|].
      intros [= <-]. auto. }
    split.
    + apply Exists_exists in He as (m & _ & Hm & _). exact Hm.
    + eapply Exists_impl; [exact He|]. cbv beta. intros m [_ Hm]. exact Hm.
Qed.

Section ReadBack.

Variable Entropy : Type.
Variable fernet_encrypt : Entropy -> list N -> list N.
Variable fernet_decrypt : list N -> option (list N).
Variable sanitize_html : list N -> list N.
Variable validate_email : string -> option string.

Local Abbreviation encrypt := (encrypt Entropy fernet_encrypt).
Local Abbreviation decrypt := (decrypt fernet_decrypt).
Local Abbreviation encrypt_body := (encrypt_body Entropy fernet_encrypt).
Local Abbreviation encrypt_attachments := (encrypt_attachments Entropy fernet_encrypt).
Local Abbreviation store_message := (store_message Entropy fernet_encrypt sanitize_html).
Local Abbreviation decrypt_body := (decrypt_body fernet_decrypt).
Local Abbreviation get_message := (get_message fernet_decrypt validate_email).
Local Abbreviation get_messages := (get_messages fernet_decrypt validate_email).
Local Abbreviation preview_of := (preview_of fernet_decrypt).

(** What [store_message] has put into the row and the table. *)
Lemma store_message_fields (ent : nat -> Entropy) (new_id : UUID) (d d' : DB)
    (iid : UUID) (sender subj : string) (bh bt : option (list N)) (raw : list N)
    (hs : gmap string string) (atts : list Email.AttachmentData) (m : Message) :
  store_message ent new_id d iid sender subj bh bt raw hs atts = (d', Ok m) ->
  exists rows,
    encrypt_body (ent 0%nat) sanitize_html bh = Ok (body_html_encrypted m) /\
    encrypt_body (ent 1%nat) (fun x => x) bt = Ok (body_text_encrypted m) /\
    encrypt_attachments ent 3 new_id atts = Ok rows /\
    d' = add_attachments (add_message d m) rows /\
    msg_id m = new_id /\ msg_inbox_id m = iid /\ to_address m = ""%string /\
    size_bytes m = N.of_nat (length raw).
Proof.
  unfold store_message.
  destruct (encrypt_body _ _ bh) as [h|]; cbn [rbind]; [|discriminate].
  destruct (encrypt_body _ _ bt) as [t|]; cbn [rbind]; [|discriminate].
  destruct (encrypt _ _) as [c|]; cbn [rbind]; [|discriminate].
  unfold flush_message. cbn [msg_inbox_id size_bytes].
  destruct (find_inbox d iid); [|discriminate].
  destruct (0 <? N.of_nat (length raw)); cbn [rbind]; [|discriminate].
  destruct (encrypt_attachments _ _ _ _) as [rows|]; cbn [rbind]; [|discriminate].
  unfold flush_attachments. destruct (forallb _ rows); cbn [rbind]; [|discriminate].
  intros [= <- <-]. exists rows. cbn. repeat split.
Qed.

Lemma b64encode_nonempty (bs : list N) : bs <> [] -> Base64.urlsafe_b64encode bs <> [].
Proof. destruct bs as [|a [|b [|c r]]]; [contradiction|discriminate..]. Qed.

Lemma find_message_new (l : list Message) (m : Message) :
  List.find (fun x => String.eqb (msg_id x) (msg_id m)) l = None ->
  List.find (fun x => String.eqb (msg_id x) (msg_id m)) (l ++ [m]) = Some m.
Proof.
  induction l as [|x l IH]; cbn [List.find app].
  - rewrite String.eqb_refl. reflexivity.
  - destruct (String.eqb (msg_id x) (msg_id m)); [discriminate|exact IH].
Qed.

Hypothesis fernet_roundtrip :
  forall e p, Base64.is_bytes p -> fernet_decrypt (fernet_encrypt e p) = Some p.
Hypothesis fernet_token_bytes :
  forall e p, Base64.is_bytes p -> Base64.is_bytes (fernet_encrypt e p).
(** A token is never empty: it starts with the version byte. *)
Hypothesis fernet_token_nonempty : forall e p, fernet_encrypt e p <> [].

Lemma encrypt_then_decrypt (e : Entropy) (P C : list N) :
  encrypt e P = Ok C -> C <> [] /\ decrypt C = Ok P.
Proof.
  intros HC. destruct (Utf8.encode P) as [bs|] eqn:HP.
  - destruct (decrypt_encrypt Entropy fernet_encrypt fernet_decrypt
                fernet_roundtrip fernet_token_bytes e P bs HP) as (C' & HC' & HD).
    rewrite HC in HC'. injection HC' as <-. split; [|exact HD].
    rewrite (encrypt_ok _ fernet_encrypt e P bs HP) in HC. injection HC as <-.
    apply b64encode_nonempty, fernet_token_nonempty.
  - rewrite (encrypt_raises _ fernet_encrypt e P HP) in HC. discriminate.
Qed.

(** X18.  What store_message has stored, get_message cannot read.  The
    query joins the attachments and its result is read without [unique()],
    so for every message that is in the table the call raises
    InvalidRequestError, and for an identifier that is not it raises
    MessageNotFoundException; the table is as before and no message is
    marked as read.  So it is right after store_message, for a fresh
    message identifier. *)
Theorem stored_message_cannot_be_read (ent : nat -> Entropy) (new_id : UUID) (d : DB)
    (iid : UUID) (sender subj : string) (bh bt : option (list N)) (raw : list N)
    (hs : gmap string string) (atts : list Email.AttachmentData) :
  let out := store_message ent new_id d iid sender subj bh bt raw hs atts in
  returns out.2 = true ->
  find_message d new_id = None ->
  get_message out.1 new_id = (out.1, inl (Propagated InvalidRequestError)) /\
  forall d2 message_id,
    get_message d2 message_id =
    (d2, inl (match find_message d2 message_id with
              | Some _ => Propagated InvalidRequestError
              | None => MessageNotFoundException message_id
              end)).
Proof.
  cbv zeta.
  destruct (store_message ent new_id d iid sender subj bh bt raw hs atts)
    as [d' [m|e]] eqn:Hst; [|discriminate].
  intros _ Hfresh. cbn [fst].
  destruct (store_message_fields _ _ _ _ _ _ _ _ _ _ _ _ _ Hst)
    as (rows & _ & _ & _ & -> & Hid & _).
  assert (Hfind : find_message (add_attachments (add_message d m) rows) new_id = Some m).
  { unfold find_message in *. cbn [messages add_attachments add_message].
    rewrite <- Hid in *. apply find_message_new, Hfresh. }
  split.
  - unfold get_message. rewrite Hfind. reflexivity.
  - intros d2 message_id. unfold get_message.
    destruct (find_message d2 message_id); reflexivity.
Qed.

(** X19.  After store_message the new message is the newest of its inbox,
    and its preview is the text body: whole when it has at most 150
    characters, otherwise its first 150 characters and "...".  A listing
    of one entry returns it, with the validated sender, when the
    validation of the response accepts the sender (cut to 255 characters),
    and raises ValidationError when it does not; a longer listing that
    returns has it at its head.  Uses the Fernet round trip. *)
Theorem stored_text_previewed (ent : nat -> Entropy) (new_id : UUID) (d : DB)
    (iid : UUID) (sender subj : string) (bh bt : option (list N)) (raw : list N)
    (hs : gmap string string) (atts : list Email.AttachmentData) :
  let out := store_message ent new_id d iid sender subj bh bt raw hs atts in
  let entry normalized :=
    {| ml_id := new_id; ml_from_address := normalized;
       ml_subject := String.substring 0 998 subj;
       ml_preview := preview_text <$> present bt;
       ml_has_attachments := match atts with [] => false | _ => true end;
       ml_is_read := false |} in
  returns out.2 = true ->
  (forall m, out.2 = Ok m -> preview_of m = preview_text <$> present bt) /\
  get_messages out.1 iid 1 0 =
    match validate_email (String.substring 0 255 sender) with
    | Some normalized => Ok [entry normalized]
    | None => Raise ValidationError
    end /\
  (forall limit items,
     get_messages out.1 iid (S limit) 0 = Ok items ->
     exists normalized rest,
       validate_email (String.substring 0 255 sender) = Some normalized /\
       items = entry normalized :: rest).
Proof.
  cbv zeta.
  destruct (store_message ent new_id d iid sender subj bh bt raw hs atts)
    as [d' [m|e]] eqn:Hst; [|discriminate].
  intros _. cbn [fst snd].
  destruct (store_message_fields _ _ _ _ _ _ _ _ _ _ _ _ _ Hst)
    as (rows & _ & Ht & _ & -> & Hid & Hown & _ & _).
  destruct (store_message_row _ fernet_encrypt sanitize_html _ _ _ _ _ _ _ _ _ _ _ _ _ Hst)
    as (Hfrom & Hsubj & _ & Hread & Hatt).
  assert (Hp : preview_of m = preview_text <$> present bt).
  { unfold preview_of. unfold encrypt_body in Ht. unfold present.
    destruct bt as [[|c b]|]; try (injection Ht as <-; reflexivity).
    destruct (encrypt (ent 1%nat) (c :: b)) as [C|] eqn:HC; cbn [rbind] in Ht;
      [|discriminate].
    injection Ht as <-. destruct (encrypt_then_decrypt _ _ _ HC) as [Hne HD].
    destruct C as [|x C]; [contradiction|]. rewrite HD. reflexivity. }
  split; [intros m' [= <-]; exact Hp|].
  assert (Hrows : forall limit,
            take (S limit)
              (drop 0 (rev (messages_of (add_attachments (add_message d m) rows) iid)))
            = m :: take limit (rev (messages_of d iid))).
  { intros limit. unfold messages_of. cbn [messages add_attachments add_message].
    rewrite List.filter_app. cbn [List.filter]. unfold owned_by at 2.
    rewrite Hown, String.eqb_refl.
    rewrite rev_app_distr. reflexivity. }
  assert (Hm : message_list fernet_decrypt validate_email m =
               match validate_email (String.substring 0 255 sender) with
               | Some normalized =>
                 Ok {| ml_id := new_id; ml_from_address := normalized;
                       ml_subject := String.substring 0 998 subj;
                       ml_preview := preview_text <$> present bt;
                       ml_has_attachments := match atts with [] => false | _ => true end;
                       ml_is_read := false |}
               | None => Raise ValidationError
               end).
  { unfold message_list. rewrite Hp, Hid, Hfrom, Hsubj, Hread, Hatt. reflexivity. }
  split.
  - unfold get_messages. rewrite Hrows. cbn [take collect]. rewrite Hm.
    destruct (validate_email (String.substring 0 255 sender)); reflexivity.
  - intros limit items. unfold get_messages. rewrite Hrows. cbn [collect]. rewrite Hm.
    destruct (validate_email (String.substring 0 255 sender)) as [normalized|];
      cbn [rbind]; [|discriminate].
    destruct (collect _ _) as [rest|]; cbn [rbind]; [|discriminate].
    intros [= <-]. eauto.
Qed.

End ReadBack.

(** *** Attachments and ciphertexts *)




Lemma base64url_char_iff (c : N) :
  base64url_char c = true <->
  (65 <= c <= 90) \/ (97 <= c <= 122) \/ (48 <= c <= 57) \/ c = 45 \/ c = 95 \/ c = 61.
Proof.
  unfold base64url_char.
  rewrite !orb_true_iff, !andb_true_iff, !N.leb_le, !N.eqb_eq. tauto.
Qed.

Lemma b2a_alphabet (i : N) : base64url_char (Base64.b2a i) = true.
Proof.
  apply base64url_char_iff. unfold Base64.b2a.
  destruct (N.ltb_spec i 26); [lia|].
  destruct (N.ltb_spec i 52); [lia|].
  destruct (N.ltb_spec i 62); [lia|].
  destruct (N.eqb_spec i 62); lia.
Qed.

Lemma b64encode_shape (n : nat) : forall bs,
  (length bs <= n)%nat ->
  Forall (fun c => base64url_char c = true) (Base64.urlsafe_b64encode bs) /\
  (length (Base64.urlsafe_b64encode bs) mod 4 = 0)%nat.
Proof.
  induction n as [|n IH]; intros bs Hlen.
  { destruct bs; [split; [constructor|reflexivity]|cbn in Hlen; lia]. }
  destruct bs as [|a [|b [|c r]]]; cbn [length] in Hlen; cbn [Base64.urlsafe_b64encode].
  - split; [constructor|reflexivity].
  - split; [|reflexivity]. repeat (apply Forall_cons_2; [first [apply b2a_alphabet|reflexivity]|]).
    constructor.
  - split; [|reflexivity]. repeat (apply Forall_cons_2; [first [apply b2a_alphabet|reflexivity]|]).
    constructor.
  - destruct (IH r ltac:(lia)) as [Hf Hl]. split.
    + repeat (apply Forall_cons_2; [apply b2a_alphabet|]). exact Hf.
    + cbn [length].
      replace (S (S (S (S (length (Base64.urlsafe_b64encode r))))))
        with (length (Base64.urlsafe_b64encode r) + 1 * 4)%nat by lia.
      rewrite Nat.Div0.mod_add. exact Hl.
Qed.

(** X3.  encrypt returns exactly for the strings that have a UTF-8
    encoding (no lone surrogate), and a ciphertext consists of characters
    of the URL-safe base64 alphabet and "=", a multiple of four of
    them. *)
Theorem ciphertext_shape (Entropy : Type) (fernet_encrypt : Entropy -> list N -> list N)
    (e : Entropy) (P : list N) :
  (returns (encrypt Entropy fernet_encrypt e P) = true <-> is_Some (Utf8.encode P)) /\
  forall C, encrypt Entropy fernet_encrypt e P = Ok C ->
    Forall (fun c => base64url_char c = true) C /\ (length C mod 4 = 0)%nat.
Proof.
  destruct (Utf8.encode P) as [bs|] eqn:HP.
  - rewrite (encrypt_ok _ fernet_encrypt e P bs HP). split.
    + split; [eauto|reflexivity].
    + intros C [= <-]. apply (b64encode_shape (length (fernet_encrypt e bs))). lia.
  - rewrite (encrypt_raises _ fernet_encrypt e P HP). split.
    + split; [discriminate|]. intros [x Hx]. discriminate.
    + discriminate.
Qed.

(** *** Rounds of the reaper *)

Lemma cascade_all_inboxes (l : list Inbox) :
  forall d, inboxes (cascade_all l d)
            = List.filter (fun i => negb (selected l i)) (inboxes d).
Proof.
  induction l as [|y l IH]; intros d.
  - cbn. induction (inboxes d) as [|x xs IHx]; [reflexivity|]. cbn. f_equal. exact IHx.
  - unfold cascade_all. cbn [fold_left].
    fold (cascade_all l (delete_inbox_cascade d (inbox_id y))).
    rewrite IH. cbn [inboxes delete_inbox_cascade].
    induction (inboxes d) as [|x xs IHx]; [reflexivity|].
    cbn [List.filter selected existsb].
    destruct (String.eqb (inbox_id x) (inbox_id y)); cbn [negb orb]; [exact IHx|].
    cbn [List.filter]. fold (selected l x). destruct (negb (selected l x)); [f_equal|];
      exact IHx.
Qed.

Lemma sublist_list_filter {A} (f : A -> bool) (l : list A) : sublist (List.filter f l) l.
Proof.
  induction l as [|x l IH]; [constructor|]. cbn [List.filter].
  destruct (f x); constructor; exact IH.
Qed.

Lemma filter_length_perm {A} (f : A -> bool) (l l' : list A) :
  l ≡ₚ l' -> length (List.filter f l) = length (List.filter f l').
Proof.
  induction 1 as [|x l l' _ IH|x y l|l l' l'' _ IH1 _ IH2].
  - reflexivity.
  - cbn [List.filter]. destruct (f x); cbn [length]; lia.
  - cbn [List.filter]. destruct (f x), (f y); reflexivity.
  - lia.
Qed.

(** Rows that are taken out of a table, in whatever order they were
    selected, shorten it by their number. *)
Lemma filter_submseteq_count {A} (keep : A -> bool) (s l : list A) :
  s ⊆+ l -> (forall y, y ∈ s -> keep y = false) ->
  (length (List.filter keep l) + length s <= length l)%nat.
Proof.
  intros Hs Hk. apply submseteq_Permutation in Hs as [rest Hl].
  rewrite (filter_length_perm keep _ _ Hl), (Permutation_length Hl).
  rewrite List.filter_app, !length_app.
  rewrite (filter_nil_forall keep s Hk). cbn [length].
  pose proof (sublist_length _ _ (sublist_list_filter keep rest)). lia.
Qed.

Lemma selected_self (l : list Inbox) (y : Inbox) : y ∈ l -> selected l y = true.
Proof.
  intros Hy. unfold selected. apply existsb_exists. exists y.
  split; [apply list_elem_of_In, Hy|apply String.eqb_refl].
Qed.

Lemma selected_id (l : list Inbox) (x r : Inbox) :
  selected l r = true -> selected l x = false -> inbox_id x <> inbox_id r.
Proof.
  unfold selected. intros Hr Hx E. rewrite E in Hx. congruence.
Qed.

(** One round on the table [L], whatever the order of the query: a row
    that has expired is reaped, or it stays while a full batch of other
    rows goes. *)
Lemma round_progress (L : list Inbox) (rank : Inbox -> nat) (t : Z) (b : nat)
    (r : Inbox) :
  r ∈ L -> (expires_at r < t)%Z ->
  let sel := take b (scan rank (List.filter (fun x => (expires_at x <? t)%Z) L)) in
  let L' := List.filter (fun x => negb (selected sel x)) L in
  (forall x, x ∈ L' -> inbox_id x <> inbox_id r) \/
  (r ∈ L' /\ (length L' + b <= length L)%nat).
Proof.
  intros Hin Hexp sel L'.
  destruct (selected sel r) eqn:Hsel.
  { left. intros x Hx. subst L'. apply elem_of_filter_list in Hx as [_ Hk].
    apply negb_true_iff in Hk. eapply selected_id; eassumption. }
  right. split.
  { subst L'. apply elem_of_filter_list. rewrite Hsel. auto. }
  set (exp := fun x => (expires_at x <? t)%Z) in *.
  assert (Hr : r ∈ scan rank (List.filter exp L)).
  { rewrite scan_perm. apply elem_of_filter_list. split; [exact Hin|].
    apply Z.ltb_lt, Hexp. }
  assert (Hlen : length sel = b).
  { subst sel. rewrite length_take.
    destruct (Nat.le_gt_cases b (length (scan rank (List.filter exp L)))) as [|Hgt];
      [lia|].
    exfalso. rewrite take_ge in Hsel by lia.
    apply selected_self in Hr. congruence. }
  pose proof (filter_submseteq_count (fun x => negb (selected sel x)) sel L) as Hc.
  rewrite Hlen in Hc. apply Hc.
  - subst sel. etransitivity; [apply sublist_submseteq, sublist_take|].
    rewrite scan_perm. apply sublist_submseteq, sublist_list_filter.
  - intros y Hy. apply negb_false_iff, selected_self, Hy.
Qed.

Lemma run_cleanup_inboxes (settings : Settings) (rank : Inbox -> nat) (w : World)
    (t : Z) :
  inboxes (db (_run_cleanup settings rank (set_now w t)).1) =
  List.filter
    (fun x => negb (selected (take (CLEANUP_BATCH_SIZE settings)
                               (scan rank
                                  (List.filter (fun x => (expires_at x <? t)%Z)
                                     (inboxes (db w))))) x))
    (inboxes (db w)).
Proof.
  destruct (run_cleanup_result settings rank (set_now w t)) as [evs ->]. cbn [fst db].
  rewrite cascade_all_inboxes. reflexivity.
Qed.

Lemma cleanup_rounds_le (settings : Settings) (k : nat) :
  forall plan clock w x,
    x ∈ inboxes (db (cleanup_rounds settings plan clock k w)) -> x ∈ inboxes (db w).
Proof.
  induction k as [|k IH]; intros plan clock w x; cbn [cleanup_rounds]; [auto|].
  intros Hx. apply IH in Hx. rewrite run_cleanup_inboxes in Hx.
  apply elem_of_filter_list in Hx as [Hx _]. exact Hx.
Qed.

(** X25.  No expired inbox waits forever, in whatever order the queries of
    the reaper return their rows: an inbox of the table that is expired in
    each of [k] rounds is gone after them when the table has at most
    [k * CLEANUP_BATCH_SIZE] rows, whatever else expires in the
    meantime. *)
Theorem cleanup_rounds_reap_all (settings : Settings) (plan : nat -> Inbox -> nat)
    (clock : nat -> Z) (k : nat) (w : World) (r : Inbox) :
  r ∈ inboxes (db w) ->
  (forall j, (j < k)%nat -> (expires_at r < clock j)%Z) ->
  (length (inboxes (db w)) <= k * CLEANUP_BATCH_SIZE settings)%nat ->
  Forall (fun x => inbox_id x <> inbox_id r)
    (inboxes (db (cleanup_rounds settings plan clock k w))).
Proof.
  revert plan clock w. induction k as [|k IH]; intros plan clock w Hin Hexp Hlen.
  { exfalso. apply list_elem_of_In in Hin. destruct (inboxes (db w)); [exact Hin|].
    cbn in Hlen. lia. }
  cbn [cleanup_rounds].
  destruct (round_progress (inboxes (db w)) (plan 0%nat) (clock 0%nat)
              (CLEANUP_BATCH_SIZE settings) r Hin (Hexp 0%nat ltac:(lia)))
    as [Hgone|[Hstay Hless]].
  - apply Forall_forall. intros x Hx. apply cleanup_rounds_le in Hx.
    rewrite run_cleanup_inboxes in Hx. apply Hgone, Hx.
  - apply IH.
    + rewrite run_cleanup_inboxes. exact Hstay.
    + intros j Hj. apply Hexp. lia.
    + rewrite run_cleanup_inboxes. cbn in Hlen. lia.
Qed.

(** ** The further properties on concrete inputs *)

(** The two counters after a delivery to a live inbox: neither has
    moved. *)
Example demo_counters_after_delivery :
  let out := handle_DATA NullFernet.Entropy NullFernet.encrypt demo_sanitize
               Email.demo_fetch demo_parse default_settings demo_ent demo_new_id
               (demo_world 0 2000 false) demo_envelope in
  count_of (db out.1) demo_id = Some 0%Z /\
  kv (redis out.1) !! ("inbox:count:" +:+ demo_address) = None /\
  increment_message_count (demo_world 0 2000 false) demo_id
  = (demo_world 0 2000 false, Raise TypeError).
Proof. vm_compute. repeat split. Qed.

(** What [int()] reads in a counter. *)
Example demo_py_int :
  List.map py_int ["50"; "+50"; " 50"; "5_0"; "050"; "-3"; "5__0"; "_50"; "50_"; ""; "5 0"]%string
  = [Some 50; Some 50; Some 50; Some 50; Some 50; Some (-3); None; None; None; None; None]%Z.
Proof. vm_compute. reflexivity. Qed.


Lemma rejection_leaves_stores_witness :
  let out := handle_DATA NullFernet.Entropy NullFernet.encrypt demo_sanitize
               Email.demo_fetch demo_parse default_settings demo_ent demo_new_id
               (demo_world 0 2000 true) demo_envelope in
  redis out.1 = redis (demo_world 0 2000 true) /\
  (out.2 <> "451 Requested action aborted: error in processing"%string ->
   db out.1 = db (demo_world 0 2000 true)).
Proof.
  apply (rejection_leaves_stores NullFernet.Entropy NullFernet.encrypt demo_sanitize
           Email.demo_fetch demo_parse default_settings demo_ent demo_new_id
           (demo_world 0 2000 true) demo_envelope).
  vm_compute. discriminate.
Defined.

Lemma empty_mail_never_stored_witness :
  let out := handle_DATA NullFernet.Entropy NullFernet.encrypt demo_sanitize
               Email.demo_fetch demo_parse default_settings demo_ent demo_new_id
               (demo_world 0 2000 false) demo_empty_envelope in
  out.2 <> "250 Message accepted for delivery"%string /\
  db out.1 = db (demo_world 0 2000 false) /\
  redis out.1 = redis (demo_world 0 2000 false).
Proof.
  apply (empty_mail_never_stored NullFernet.Entropy NullFernet.encrypt demo_sanitize
           Email.demo_fetch demo_parse default_settings demo_ent demo_new_id
           (demo_world 0 2000 false) demo_empty_envelope).
  reflexivity.
Defined.

(** The empty mail is answered with 451. *)
Example demo_empty_mail :
  (handle_DATA NullFernet.Entropy NullFernet.encrypt demo_sanitize Email.demo_fetch
     demo_parse default_settings demo_ent demo_new_id (demo_world 0 2000 false)
     demo_empty_envelope).2
  = "451 Requested action aborted: error in processing"%string.
Proof. vm_compute. reflexivity. Qed.

Lemma cleanup_keeps_live_inboxes_witness :
  let w' := (_run_cleanup default_settings table_order demo_two_inboxes).1 in
  demo_live_inbox ∈ inboxes (db w') /\
  forall m, m ∈ messages (db demo_two_inboxes) ->
    msg_inbox_id m = inbox_id demo_live_inbox ->
    m ∈ messages (db w') /\
    forall a, a ∈ attachments (db demo_two_inboxes) -> att_message_id a = msg_id m ->
              a ∈ attachments (db w').
Proof.
  apply (cleanup_keeps_live_inboxes default_settings table_order demo_two_inboxes
           demo_live_inbox).
  - apply (bool_decide_unpack _). vm_compute. reflexivity.
  - apply (bool_decide_unpack _). vm_compute. reflexivity.
  - cbn. apply elem_of_cons. right. apply elem_of_cons. left. reflexivity.
  - cbn. lia.
Defined.

(** The cycle on the two inboxes: the expired one is gone with its
    message, the live one is left as it was. *)
Example demo_cleanup_two :
  let w' := (_run_cleanup default_settings table_order demo_two_inboxes).1 in
  inboxes (db w') = [demo_live_inbox] /\
  messages (db w') = [demo_row "m-2" demo_live_id] /\
  attachments (db w') = attachments (db demo_two_inboxes).
Proof. vm_compute. repeat split. Qed.

Lemma cleanup_spares_other_keys_witness :
  let w' := (_run_cleanup default_settings table_order (demo_world 0 500 false)).1 in
  kv (redis w') !! "inbox:tmp_q7w1e5@tempmail.dev"%string
  = kv (redis (demo_world 0 500 false)) !! "inbox:tmp_q7w1e5@tempmail.dev"%string /\
  failing (redis w') = failing (redis (demo_world 0 500 false)).
Proof.
  apply (cleanup_spares_other_keys default_settings table_order (demo_world 0 500 false)
           "inbox:tmp_q7w1e5@tempmail.dev").
  intros x Hx. vm_compute in Hx. apply elem_of_cons in Hx as [->|Hx]; [|inversion Hx].
  apply (bool_decide_unpack _). vm_compute. reflexivity.
Defined.

Lemma cleanup_complete_within_batch_witness :
  let w' := (_run_cleanup default_settings table_order (demo_world 0 500 false)).1 in
  (forall i, i ∈ inboxes (db w') -> (now w' <= expires_at i)%Z) /\
  expired_inboxes default_settings demo_index_scan w' = [] /\
  db (_run_cleanup default_settings demo_index_scan w').1 = db w' /\
  redis (_run_cleanup default_settings demo_index_scan w').1 = redis w'.
Proof.
  apply (cleanup_complete_within_batch default_settings table_order demo_index_scan
           (demo_world 0 500 false)).
  cbn. lia.
Defined.

Lemma key_material_collisions_witness :
  ((32 <= length demo_key_bytes)%nat ->
   _derive_key (demo_key_material +:+ "c0ffee") = _derive_key demo_key_material) /\
  ((length demo_key_bytes + length [192; 255; 238] <= 32)%nat ->
   Forall (fun x => x = 0) [192; 255; 238] ->
   _derive_key (demo_key_material +:+ "c0ffee") = _derive_key demo_key_material).
Proof.
  apply (key_material_collisions demo_key_material "c0ffee" demo_key_bytes
           [192; 255; 238]).
  - vm_compute. reflexivity.
  - vm_compute. reflexivity.
Defined.

(** The empty key material and a string of zeros give the key of 32 zero
    bytes. *)
Example demo_zero_key :
  EncryptionService_init "" = Ok (replicate 32 0) /\
  _derive_key "" = _derive_key "0000".
Proof. vm_compute. split; reflexivity. Qed.

Lemma created_inbox_cannot_be_read_witness :
  let w' := (create_inbox demo_inbox_settings demo_token demo_hash demo_validate_email
               demo_rnds demo_new_id (demo_world 0 2000 false) None).1 in
  exists a,
    let row := {| inbox_id := demo_new_id; address := a;
                  expires_at := resp_expires_at demo_response; is_active := true;
                  message_count := 0 |} in
    demo_validate_email a = Some (resp_address demo_response) /\
    resp_inbox_id demo_response = demo_new_id /\
    (now (demo_world 0 2000 false) < resp_expires_at demo_response)%Z /\
    inboxes (db w') = inboxes (db (demo_world 0 2000 false)) ++ [row] /\
    get_inbox (db w') (now w') demo_new_id = Raise TypeError /\
    (a <> "id:" +:+ demo_new_id ->
     redis_get (redis w') ("inbox:" +:+ a) = Ok (Some demo_new_id) /\
     _validate_recipient w' a = true /\
     get_inbox_by_address w' a = Raise TypeError).
Proof.
  apply (created_inbox_cannot_be_read demo_inbox_settings demo_token demo_hash
           demo_validate_email demo_rnds demo_new_id (demo_world 0 2000 false) _ None
           demo_response).
  vm_compute. reflexivity.
Defined.

Lemma create_inbox_picks_first_free_witness :
  let out := create_inbox demo_inbox_settings demo_token demo_hash demo_validate_email
               demo_rnds demo_new_id demo_taken_world None in
  out.2 = match demo_validate_email (candidate demo_inbox_settings (demo_rnds 1)) with
          | Some normalized =>
            Ok {| resp_inbox_id := demo_new_id; resp_address := normalized;
                  resp_token := "jwt." +:+ demo_new_id;
                  resp_created_at := now demo_taken_world;
                  resp_expires_at :=
                    (now demo_taken_world + ttl_of demo_inbox_settings None * 3600)%Z |}
          | None => Raise ValidationError
          end /\
  inboxes (db out.1) =
    inboxes (db demo_taken_world) ++
    [{| inbox_id := demo_new_id;
        address := candidate demo_inbox_settings (demo_rnds 1);
        expires_at := (now demo_taken_world + ttl_of demo_inbox_settings None * 3600)%Z;
        is_active := true; message_count := 0 |}] /\
  kv (redis out.1) =
    <["inbox:id:" +:+ demo_new_id := candidate demo_inbox_settings (demo_rnds 1)]>
      (<["inbox:" +:+ candidate demo_inbox_settings (demo_rnds 1) := demo_new_id]>
         (kv (redis demo_taken_world))).
Proof.
  apply (create_inbox_picks_first_free demo_inbox_settings demo_token demo_hash
           demo_validate_email demo_rnds demo_new_id demo_taken_world None 1
           ("jwt." +:+ demo_new_id) ("bcrypt.jwt." +:+ demo_new_id)).
  - lia.
  - intros i Hi. assert (i = 0%nat) as -> by lia. vm_compute. reflexivity.
  - vm_compute. reflexivity.
  - vm_compute. reflexivity.
  - reflexivity.
  - reflexivity.
  - cbn. lia.
  - reflexivity.
  - reflexivity.
Defined.

Example demo_second_candidate :
  candidate demo_inbox_settings (demo_rnds 0) = demo_first_address /\
  candidate demo_inbox_settings (demo_rnds 1) = demo_second_address /\
  demo_validate_email demo_second_address = Some demo_second_address.
Proof. vm_compute. repeat split. Qed.

(** With the application in a special-use domain every creation raises
    after the row is committed and the keys are set. *)
Example demo_creation_in_test_domain :
  let out := create_inbox demo_test_settings demo_token demo_hash demo_validate_email
               demo_rnds demo_new_id (demo_world 0 2000 false) None in
  out.2 = Raise ValidationError /\
  List.map address (inboxes (db out.1))
  = [demo_address; "tmp_abcdefghijklmnop@mail.test"%string] /\
  kv (redis out.1) !! "inbox:tmp_abcdefghijklmnop@mail.test"%string = Some demo_new_id.
Proof. vm_compute. repeat split. Qed.

Lemma create_inbox_gives_up_witness :
  exists e,
    create_inbox demo_inbox_settings demo_token demo_hash demo_validate_email
      (fun _ i => i) demo_new_id demo_taken_world None = (demo_taken_world, Raise e) /\
    forall token h,
      demo_token demo_new_id (candidate demo_inbox_settings (fun i => i))
        (ttl_of demo_inbox_settings None) = Ok token ->
      demo_hash token = Ok h -> e = IntegrityError.
Proof.
  apply (create_inbox_gives_up demo_inbox_settings demo_token demo_hash
           demo_validate_email (fun _ i => i) demo_new_id demo_taken_world None).
  intros i _. vm_compute. reflexivity.
Defined.

(** The lookup of a live inbox by its address raises; the lookup of an
    address that neither store knows returns None. *)
Example demo_lookup_by_address :
  get_inbox_by_address (demo_world 0 2000 false) demo_address = Raise TypeError /\
  get_inbox_by_address (demo_world 0 2000 false) "nobody@tempmail.dev" = Ok None.
Proof. vm_compute. split; reflexivity. Qed.

Lemma delete_inbox_removes_nothing_witness :
  let out := delete_inbox (demo_world 0 2000 false) demo_id in
  out.2 = Raise TypeError /\
  db out.1 = db (demo_world 0 2000 false) /\
  redis out.1 = redis (demo_world 0 2000 false) /\
  find_inbox (db out.1) demo_id = Some (demo_inbox 0 2000) /\
  _validate_recipient out.1 (address (demo_inbox 0 2000))
  = _validate_recipient (demo_world 0 2000 false) (address (demo_inbox 0 2000)).
Proof.
  apply (delete_inbox_removes_nothing (demo_world 0 2000 false) demo_id
           (demo_inbox 0 2000)).
  reflexivity.
Defined.

Lemma null_token_nonempty (e : NullFernet.Entropy) (p : list N) :
  NullFernet.encrypt e p <> [].
Proof. unfold NullFernet.encrypt, NullFernet.token_bytes. apply b64encode_nonempty. discriminate. Qed.

(** A mail with both bodies and an attachment, stored with the stand-in
    cipher, cannot be read. *)
Lemma stored_message_cannot_be_read_witness :
  let out := store_message NullFernet.Entropy NullFernet.encrypt demo_sanitize demo_ent
               demo_new_id (db (demo_world 0 2000 false)) demo_id "alice@postbox.net"
               "hello" (Some [60; 98; 62]) (Some [104; 105]) [104; 105] ∅
               [{| Email.att_filename := "a.txt"; Email.att_content_type := "text/plain";
                   Email.att_size := 1; Email.att_content := [81; 81; 61; 61] |}] in
  get_message NullFernet.decrypt demo_validate_email out.1 demo_new_id
  = (out.1, inl (Propagated InvalidRequestError)) /\
  forall d2 message_id,
    get_message NullFernet.decrypt demo_validate_email d2 message_id =
    (d2, inl (match find_message d2 message_id with
              | Some _ => Propagated InvalidRequestError
              | None => MessageNotFoundException message_id
              end)).
Proof.
  apply (stored_message_cannot_be_read NullFernet.Entropy NullFernet.encrypt
           NullFernet.decrypt demo_sanitize demo_validate_email
           demo_ent demo_new_id (db (demo_world 0 2000 false)) demo_id
           "alice@postbox.net" "hello" (Some [60; 98; 62]) (Some [104; 105])
           [104; 105] ∅
           [{| Email.att_filename := "a.txt"; Email.att_content_type := "text/plain";
               Email.att_size := 1; Email.att_content := [81; 81; 61; 61] |}]).
  - vm_compute. reflexivity.
  - reflexivity.
Defined.

Lemma stored_text_previewed_witness :
  let out := store_message NullFernet.Entropy NullFernet.encrypt demo_sanitize demo_ent
               demo_new_id (db (demo_world 0 2000 false)) demo_id "alice@postbox.net"
               "hello" None (Some (replicate 151 120)) [104; 105] ∅ [] in
  let entry normalized :=
    {| ml_id := demo_new_id; ml_from_address := normalized;
       ml_subject := String.substring 0 998 "hello";
       ml_preview := preview_text <$> present (Some (replicate 151 120));
       ml_has_attachments := false;
       ml_is_read := false |} in
  (forall m, out.2 = Ok m ->
             preview_of NullFernet.decrypt m
             = preview_text <$> present (Some (replicate 151 120))) /\
  get_messages NullFernet.decrypt demo_validate_email out.1 demo_id 1 0 =
    match demo_validate_email (String.substring 0 255 "alice@postbox.net") with
    | Some normalized => Ok [entry normalized]
    | None => Raise ValidationError
    end /\
  (forall limit items,
     get_messages NullFernet.decrypt demo_validate_email out.1 demo_id (S limit) 0
     = Ok items ->
     exists normalized rest,
       demo_validate_email (String.substring 0 255 "alice@postbox.net")
       = Some normalized /\
       items = entry normalized :: rest).
Proof.
  apply (stored_text_previewed NullFernet.Entropy NullFernet.encrypt
           NullFernet.decrypt demo_sanitize demo_validate_email NullFernet.roundtrip
           (fun e p _ => NullFernet.token_is_bytes e p) null_token_nonempty
           demo_ent demo_new_id (db (demo_world 0 2000 false)) demo_id
           "alice@postbox.net" "hello" None (Some (replicate 151 120))
           [104; 105] ∅ []).
  vm_compute. reflexivity.
Defined.

(** A text of 151 characters is cut to 150 and three dots. *)
Example demo_preview :
  preview_text (replicate 151 120) = replicate 150 120 ++ [46; 46; 46] /\
  preview_text (replicate 150 120) = replicate 150 120.
Proof. vm_compute. split; reflexivity. Qed.

(** A mail from the null reverse-path is stored, and then the listing of
    its inbox raises. *)
Example demo_listing_null_sender :
  let out := store_message NullFernet.Entropy NullFernet.encrypt demo_sanitize demo_ent
               demo_new_id (db (demo_world 0 2000 false)) demo_id ""
               "hello" None (Some [104; 105]) [104; 105] ∅ [] in
  returns out.2 = true /\
  get_messages NullFernet.decrypt demo_validate_email out.1 demo_id 50 0
  = Raise ValidationError.
Proof. vm_compute. split; reflexivity. Qed.


(** Scenario C has one attachment, invoice.pdf. *)
Example demo_attachment_parts :
  List.map Email.get_filename (List.filter is_attachment_part (Email.walk Email.scenario_c))
  = [Some "invoice.pdf"%string].
Proof. vm_compute. reflexivity. Qed.

(** Two expired inboxes and a reaper that takes one per cycle, its query
    answered from the index, latest expiry first: both are gone after two
    rounds. *)
Lemma cleanup_rounds_reap_all_witness :
  Forall (fun x => inbox_id x <> inbox_id (demo_inbox 1 500))
    (inboxes (db (cleanup_rounds demo_slow_settings (fun _ => demo_index_scan)
                    (fun _ => 3000%Z) 2 demo_two_inboxes))).
Proof.
  apply (cleanup_rounds_reap_all demo_slow_settings (fun _ => demo_index_scan)
           (fun _ => 3000%Z) 2 demo_two_inboxes (demo_inbox 1 500)).
  - cbn. apply elem_of_cons. left. reflexivity.
  - intros j _. cbn. lia.
  - cbn. lia.
Defined.

(** The first of these rounds takes the inbox that comes second in the
    table. *)
Example demo_first_round :
  List.map inbox_id
    (inboxes (db (cleanup_rounds demo_slow_settings (fun _ => demo_index_scan)
                    (fun _ => 3000%Z) 1 demo_two_inboxes)))
  = [demo_id].
Proof. vm_compute. reflexivity. Qed.
